(** * use-prompt-api: the agent execution core, embedded and verified

    A shallow embedding of the TypeScript sources

      - [src/structured/schema-generator.ts]   ([zodSchemaToJsonSchema])
      - [src/structured/structured-prompt.ts]  ([promptWithStructure])
      - [src/function-calling/function-prompt-builder.ts] ([parseFunctionCall])
      - [src/function-calling/function-executor.ts] ([executeFunctionCall])
      - [src/core/session-manager.ts]          ([SessionManager])
      - [src/agents/basic-agent.ts], [src/agents/advanced-agent.ts]
      - [src/agents/agent-utils.ts], [src/function-calling/function-registry.ts],
        [src/utils/session-storage.ts] ([compressHistory]) and
        [src/utils/error-handling.ts] ([withRetry])

    Conventions of the embedding.

    - A JavaScript string is a [string]: a sequence of code units, each below
      256.  Every string operation of the sources (trim, the regular
      expressions, substring, toLowerCase, includes) is written on such
      strings exactly as the engine performs it on them.
    - JavaScript values are the inductive [value]; a number is an exact
      decimal (the rounding of the engine to binary64 is not modelled).
    - A computation that may throw returns an [Outcome]; code that also acts
      on the world outside the library (console, the browser's language
      model, the handlers registered by the caller) is a function of the
      [World], in the monad [M]. *)

From Stdlib Require Import ZArith NArith String Ascii List Bool Lia.
From Stdlib Require Import DecimalString.
From stdpp Require Import base option strings gmap.

Set Warnings "-register-all".
Local Open Scope Z_scope.
Local Open Scope nat_scope.

(** ** Errors and outcomes *)

(** An instance of [Error] or of one of its subclasses: the class name, the
    message and, for the library's [PromptAPIError] family, the cause. *)
Inductive JsError : Type :=
| MkError (name : string) (message : string) (cause : option JsError).

Definition message (e : JsError) : string :=
  match e with MkError _ m _ => m end.
Definition cause (e : JsError) : option JsError :=
  match e with MkError _ _ c => c end.

Definition SyntaxError (m : string) : JsError := MkError "SyntaxError" m None.
Definition TypeError (m : string) : JsError := MkError "TypeError" m None.
(* src/types/library.types.ts *)
Definition SessionError (m : string) (c : option JsError) : JsError :=
  MkError "SessionError" m c.
Definition QuotaExceededError (m : string) : JsError :=
  MkError "QuotaExceededError" m None.
Definition StructuredOutputError (m : string) (c : option JsError) : JsError :=
  MkError "StructuredOutputError" m c.

Inductive Outcome (A : Type) : Type :=
| Normal (a : A)
| Throw (e : JsError).
Arguments Normal {A} a.
Arguments Throw {A} e.

Definition obind {A B} (x : Outcome A) (f : A -> Outcome B) : Outcome B :=
  match x with
  | Normal a => f a
  | Throw e => Throw e
  end.

Declare Scope outcome_scope.
Delimit Scope outcome_scope with outcome.
Notation "'let?' x ':=' c 'in' k" := (obind c (fun x => k))
  (at level 10, x pattern, c at level 100, k at level 200) : outcome_scope.

(** ** Strings *)

Module Js.

(** The character ["], and a way to write texts that contain it: in [q s]
    every ['] of [s] stands for a ["]. *)
Definition dq : ascii := ascii_of_nat 34.

Fixpoint q (s : string) : string :=
  match s with
  | EmptyString => EmptyString
  | String c s' => String (if Ascii.eqb c "'" then dq else c) (q s')
  end.

Definition code (c : ascii) : nat := nat_of_ascii c.

(** [\s] of a regular expression and the characters removed by [trim]:
    TAB, LF, VT, FF, CR, SP and NBSP are the ones below 256. *)
Definition isWhiteSpace (c : ascii) : bool :=
  let n := code c in
  ((9 <=? n) && (n <=? 13)) || (n =? 32) || (n =? 160).

Fixpoint trimStart (s : string) : string :=
  match s with
  | String c s' => if isWhiteSpace c then trimStart s' else s
  | EmptyString => EmptyString
  end.

Fixpoint trimEnd (s : string) : string :=
  match s with
  | EmptyString => EmptyString
  | String c s' =>
      match trimEnd s' with
      | EmptyString => if isWhiteSpace c then EmptyString else String c EmptyString
      | r => String c r
      end
  end.

Definition trim (s : string) : string := trimEnd (trimStart s).

Fixpoint allWhiteSpace (s : string) : bool :=
  match s with
  | EmptyString => true
  | String c s' => isWhiteSpace c && allWhiteSpace s'
  end.

(** [String.prototype.toLowerCase] on code units below 256: A-Z and the
    Latin-1 capitals 0xC0-0xDE (0xD7, the multiplication sign, apart). *)
Definition lowerChar (c : ascii) : ascii :=
  let n := code c in
  if ((65 <=? n) && (n <=? 90)) || ((192 <=? n) && (n <=? 222) && negb (n =? 215))
  then ascii_of_nat (n + 32) else c.

Fixpoint toLowerCase (s : string) : string :=
  match s with
  | EmptyString => EmptyString
  | String c s' => String (lowerChar c) (toLowerCase s')
  end.

Fixpoint startsWith (p s : string) : bool :=
  match p, s with
  | EmptyString, _ => true
  | String a p', String b s' => Ascii.eqb a b && startsWith p' s'
  | String _ _, EmptyString => false
  end.

(** [s.includes(p)] *)
Fixpoint includes (s p : string) : bool :=
  startsWith p s ||
  match s with
  | EmptyString => false
  | String _ s' => includes s' p
  end.

(** [s.substring(0, n)] *)
Fixpoint prefix (n : nat) (s : string) : string :=
  match n, s with
  | S n', String c s' => String c (prefix n' s')
  | _, _ => EmptyString
  end.

Fixpoint drop (n : nat) (s : string) : string :=
  match n, s with
  | S n', String _ s' => drop n' s'
  | _, _ => s
  end.

(** The longest prefix of [s] that ends with the character [close]. *)
Fixpoint uptoLast (close : ascii) (s : string) : option string :=
  match s with
  | EmptyString => None
  | String c s' =>
      match uptoLast close s' with
      | Some p => Some (String c p)
      | None => if Ascii.eqb c close then Some (String c EmptyString) else None
      end
  end.

Definition ofNat (n : nat) : string := NilZero.string_of_uint (Nat.to_uint n).
Definition ofZ (z : Z) : string := NilZero.string_of_int (Z.to_int z).

End Js.

(** ** JavaScript values *)

(** A number, as the exact decimal [mantissa * 10 ^ exp10]. *)
Record number : Type := { mantissa : Z; exp10 : Z }.

Inductive value : Type :=
| Undefined
| Null
| Bool (b : bool)
| Number (n : number)
| Str (s : string)
| Arr (elements : list value)
| Obj (fields : list (string * value)).

(** An ordinary object, as the list of its own properties in the order of
    their creation; its prototype is [Object.prototype]. *)
Abbreviation object := (list (string * value)).

Definition int (z : Z) : value := Number {| mantissa := z; exp10 := 0 |}.

Module Object.

(** [o[key]] on own properties. *)
Fixpoint own {A} (o : list (string * A)) (key : string) : option A :=
  match o with
  | [] => None
  | (k, v) :: o' => if String.eqb k key then Some v else own o' key
  end.

(** [o[key] = v]: an existing property keeps its place. *)
Fixpoint set {A} (o : list (string * A)) (key : string) (v : A)
  : list (string * A) :=
  match o with
  | [] => [(key, v)]
  | (k, w) :: o' =>
      if String.eqb k key then (k, v) :: o' else (k, w) :: set o' key v
  end.

(** [Object.keys(o)] *)
Definition keys {A} (o : list (string * A)) : list string := map fst o.

(** The properties every ordinary object inherits from
    [Object.prototype]. *)
Definition prototype : list string :=
  [ "constructor"; "__defineGetter__"; "__defineSetter__"; "hasOwnProperty";
    "__lookupGetter__"; "__lookupSetter__"; "isPrototypeOf";
    "propertyIsEnumerable"; "toString"; "valueOf"; "__proto__";
    "toLocaleString" ]%string.

Definition mem (key : string) (l : list string) : bool :=
  existsb (String.eqb key) l.

(** [key in o], for an ordinary object: own or inherited. *)
Definition has {A} (o : list (string * A)) (key : string) : bool :=
  match own o key with
  | Some _ => true
  | None => mem key prototype
  end.

End Object.

(** [v.key], for the values and the property names the sources read: the
    values are truthy, and none of [name], [arguments], [functionCall] and
    [reasoning] is inherited, so that only an object that owns the property
    gives something else than [undefined]. *)
Definition getProperty (v : value) (key : string) : value :=
  match v with
  | Obj fields => default Undefined (Object.own fields key)
  | _ => Undefined
  end.

Definition isZero (n : number) : bool := (mantissa n =? 0)%Z.

(** ToBoolean *)
Definition truthy (v : value) : bool :=
  match v with
  | Undefined | Null => false
  | Bool b => b
  | Number n => negb (isZero n)
  | Str s => negb (String.eqb s "")
  | Arr _ | Obj _ => true
  end.

(** ** JSON.parse

    The grammar of ECMA-404, by recursive descent.  [None] stands for the
    [SyntaxError] the engine throws. *)
Module JSON.

Import Js.

Definition isJsonSpace (c : ascii) : bool :=
  let n := code c in (n =? 32) || (n =? 9) || (n =? 10) || (n =? 13).

Fixpoint skip (s : string) : string :=
  match s with
  | String c s' => if isJsonSpace c then skip s' else s
  | EmptyString => EmptyString
  end.

Definition digit (c : ascii) : option nat :=
  let n := code c in
  if (48 <=? n) && (n <=? 57) then Some (n - 48) else None.

Definition hexDigit (c : ascii) : option nat :=
  let n := code c in
  if (48 <=? n) && (n <=? 57) then Some (n - 48)
  else if (65 <=? n) && (n <=? 70) then Some (n - 55)
  else if (97 <=? n) && (n <=? 102) then Some (n - 87)
  else None.

(** A code unit written [\uXXXX]: itself below 256; above, where [string]
    has no character for it, the bytes of its UTF-8 encoding.  No branch of
    the sources depends on such a character. *)
Definition codeUnit (n : nat) : string :=
  if n <? 256 then String (ascii_of_nat n) EmptyString
  else if n <? 2048 then
    String (ascii_of_nat (192 + n / 64))
      (String (ascii_of_nat (128 + n mod 64)) EmptyString)
  else
    String (ascii_of_nat (224 + n / 4096))
      (String (ascii_of_nat (128 + (n / 64) mod 64))
         (String (ascii_of_nat (128 + n mod 64)) EmptyString)).

(** The characters of a string literal, after its opening quote. *)
Fixpoint chars (s : string) : option (string * string) :=
  match s with
  | EmptyString => None
  | String c s' =>
      if Ascii.eqb c dq then Some (EmptyString, s')
      else if Ascii.eqb c "\" then
        match s' with
        | String e s'' =>
            let continue (decoded : string) (rest : option (string * string)) :=
              match rest with
              | Some (t, r) => Some (decoded +:+ t, r)
              | None => None
              end in
            let one (n : nat) := String (ascii_of_nat n) EmptyString in
            if Ascii.eqb e dq then continue (one 34) (chars s'')
            else if Ascii.eqb e "\" then continue (one 92) (chars s'')
            else if Ascii.eqb e "/" then continue (one 47) (chars s'')
            else if Ascii.eqb e "b" then continue (one 8) (chars s'')
            else if Ascii.eqb e "f" then continue (one 12) (chars s'')
            else if Ascii.eqb e "n" then continue (one 10) (chars s'')
            else if Ascii.eqb e "r" then continue (one 13) (chars s'')
            else if Ascii.eqb e "t" then continue (one 9) (chars s'')
            else if Ascii.eqb e "u" then
              match s'' with
              | String h1 (String h2 (String h3 (String h4 s3))) =>
                  match hexDigit h1, hexDigit h2, hexDigit h3, hexDigit h4 with
                  | Some a, Some b, Some c', Some d =>
                      continue (codeUnit (((a * 16 + b) * 16 + c') * 16 + d)) (chars s3)
                  | _, _, _, _ => None
                  end
              | _ => None
              end
            else None
        | EmptyString => None
        end
      else if code c <? 32 then None
      else
        match chars s' with
        | Some (t, r) => Some (String c t, r)
        | None => None
        end
  end.

(** A run of digits: their value, their count, and what follows. *)
Fixpoint digits (acc : Z) (count : nat) (s : string) : Z * nat * string :=
  match s with
  | String c s' =>
      match digit c with
      | Some d => digits (acc * 10 + Z.of_nat d)%Z (S count) s'
      | None => (acc, count, s)
      end
  | EmptyString => (acc, count, s)
  end.

(** Trailing zeros of the mantissa move into the exponent; zero is
    [0 * 10 ^ 0]. *)
Fixpoint normalize (fuel : nat) (m e : Z) : number :=
  match fuel with
  | O => {| mantissa := m; exp10 := e |}
  | S fuel' =>
      if (m =? 0)%Z then {| mantissa := 0; exp10 := 0 |}
      else if (m mod 10 =? 0)%Z then normalize fuel' (m / 10)%Z (e + 1)%Z
      else {| mantissa := m; exp10 := e |}
  end.

(** [digits] bounds the number of trailing zeros. *)
Definition decimal (digits : nat) (m e : Z) : number := normalize digits m e.

(** A number literal: an optional minus; an integer part, [0] or a run of
    digits that does not start with [0]; an optional fraction, a dot and
    digits; an optional exponent, [e] or [E], a sign and digits. *)
Definition numberLiteral (s : string) : option (number * string) :=
  let '(negative, s1) :=
    match s with
    | String "-" r => (true, r)
    | _ => (false, s)
    end in
  let '(i, ni, s2) := digits 0 0 s1 in
  let leadingZero :=
    match s1 with String "0" _ => 1 <? ni | _ => false end in
  if (ni =? 0) || leadingZero then None else
  let fraction :=
    match s2 with
    | String "." r =>
        let '(m, nf, s3) := digits i 0 r in
        if nf =? 0 then None else Some (m, nf, s3)
    | _ => Some (i, 0, s2)
    end in
  match fraction with
  | None => None
  | Some (m, nf, s3) =>
      let signed := if negative then (- m)%Z else m in
      let finish (e : Z) (rest : string) :=
        Some (decimal (ni + nf) signed (e - Z.of_nat nf)%Z, rest) in
      match s3 with
      | String c r =>
          if Ascii.eqb c "e" || Ascii.eqb c "E" then
            let '(minus, r1) :=
              match r with
              | String "-" r' => (true, r')
              | String "+" r' => (false, r')
              | _ => (false, r)
              end in
            let '(x, nx, s4) := digits 0 0 r1 in
            if nx =? 0 then None
            else finish (if minus then (- x)%Z else x) s4
          else finish 0%Z s3
      | EmptyString => finish 0%Z s3
      end
  end.

Definition literal (word : string) (v : value) (s : string)
  : option (value * string) :=
  if startsWith word s then Some (v, drop (String.length word) s) else None.

(** [parseValue] reads one value at the head of [s]; [parseMembers] and
    [parseElements] read what follows the opening bracket of an object or
    an array, [first] telling whether a closing bracket may come at once.
    Each call that does not consume a character is followed by one that
    does, so that a fuel of twice the length of the text is never
    exhausted. *)
Fixpoint parseValue (fuel : nat) (s : string) : option (value * string) :=
  match fuel with
  | O => None
  | S fuel' =>
      match skip s with
      | EmptyString => None
      | String c r =>
          if Ascii.eqb c "{" then
            match parseMembers fuel' true [] r with
            | Some (o, r') => Some (Obj o, r')
            | None => None
            end
          else if Ascii.eqb c "[" then
            match parseElements fuel' true [] r with
            | Some (l, r') => Some (Arr l, r')
            | None => None
            end
          else if Ascii.eqb c dq then
            match chars r with
            | Some (t, r') => Some (Str t, r')
            | None => None
            end
          else if Ascii.eqb c "t" then literal "true" (Bool true) (String c r)
          else if Ascii.eqb c "f" then literal "false" (Bool false) (String c r)
          else if Ascii.eqb c "n" then literal "null" Null (String c r)
          else
            match numberLiteral (String c r) with
            | Some (n, r') => Some (Number n, r')
            | None => None
            end
      end
  end
with parseMembers (fuel : nat) (first : bool) (acc : object) (s : string)
  : option (object * string) :=
  match fuel with
  | O => None
  | S fuel' =>
      match skip s with
      | String c r =>
          if first && Ascii.eqb c "}" then Some (acc, r)
          else if Ascii.eqb c dq then
            match chars r with
            | Some (key, r1) =>
                match skip r1 with
                | String ":" r2 =>
                    match parseValue fuel' r2 with
                    | Some (v, r3) =>
                        let acc' := Object.set acc key v in
                        match skip r3 with
                        | String "," r4 => parseMembers fuel' false acc' r4
                        | String "}" r4 => Some (acc', r4)
                        | _ => None
                        end
                    | None => None
                    end
                | _ => None
                end
            | None => None
            end
          else None
      | EmptyString => None
      end
  end
with parseElements (fuel : nat) (first : bool) (acc : list value) (s : string)
  : option (list value * string) :=
  match fuel with
  | O => None
  | S fuel' =>
      match skip s with
      | String c r =>
          if first && Ascii.eqb c "]" then Some (acc, r)
          else
            match parseValue fuel' (String c r) with
            | Some (v, r1) =>
                match skip r1 with
                | String "," r2 => parseElements fuel' false (acc ++ [v]) r2
                | String "]" r2 => Some (acc ++ [v], r2)
                | _ => None
                end
            | None => None
            end
      | EmptyString => None
      end
  end.

Definition parseText (text : string) : option value :=
  match parseValue (2 * String.length text + 2) text with
  | Some (v, rest) =>
      match skip rest with
      | EmptyString => Some v
      | _ => None
      end
  | None => None
  end.

(** [JSON.parse(text)].  The message of the [SyntaxError] is the engine's
    own; a fixed text stands for it. *)
Definition parse (text : string) : Outcome value :=
  match parseText text with
  | Some v => Normal v
  | None => Throw (SyntaxError "Unexpected token in JSON")
  end.

End JSON.

(** ** Conversions to text *)

Module Text.

Import Js.

Fixpoint repeat (s : string) (n : nat) : string :=
  match n with
  | O => EmptyString
  | S n' => s +:+ repeat s n'
  end.

Fixpoint join (sep : string) (l : list string) : string :=
  match l with
  | [] => EmptyString
  | [x] => x
  | x :: l' => x +:+ sep +:+ join sep l'
  end.

(** Number::toString for the decimal [m * 10 ^ e] with [m] not a multiple
    of ten: with [k] digits and the decimal point after the [n]-th one,
    the four layouts of the language specification. *)
Definition ofNumber (x : number) : string :=
  let m := mantissa x in
  if (m =? 0)%Z then "0" else
  let sign := if (m <? 0)%Z then "-" else "" in
  let ds := ofZ (Z.abs m) in
  let k := Z.of_nat (String.length ds) in
  let n := (k + exp10 x)%Z in
  if (k <=? n)%Z && (n <=? 21)%Z then
    sign +:+ ds +:+ repeat "0" (Z.to_nat (n - k))
  else if (0 <? n)%Z && (n <=? 21)%Z then
    sign +:+ prefix (Z.to_nat n) ds +:+ "." +:+ drop (Z.to_nat n) ds
  else if (-6 <? n)%Z && (n <=? 0)%Z then
    sign +:+ "0." +:+ repeat "0" (Z.to_nat (- n)) +:+ ds
  else
    let e := (n - 1)%Z in
    let exponent := (if (0 <=? e)%Z then "e+" else "e-") +:+ ofZ (Z.abs e) in
    if (k =? 1)%Z then sign +:+ ds +:+ exponent
    else sign +:+ prefix 1 ds +:+ "." +:+ drop 1 ds +:+ exponent.

Definition cannotConvert : JsError :=
  TypeError "Cannot convert object to primitive value".

(** ToString, as a template literal applies it.  An object answers
    [[object Object]] through the inherited [toString]; an own property of
    that name hides it and, not being callable, leaves no conversion. *)
Fixpoint toString (v : value) : Outcome string :=
  match v with
  | Undefined => Normal "undefined"
  | Null => Normal "null"
  | Bool true => Normal "true"
  | Bool false => Normal "false"
  | Number n => Normal (ofNumber n)
  | Str s => Normal s
  | Arr l =>
      let fix each (l : list value) : Outcome (list string) :=
        match l with
        | [] => Normal []
        | x :: l' =>
            let? s := match x with
                      | Undefined | Null => Normal ""
                      | _ => toString x
                      end in
            let? r := each l' in
            Normal (s :: r)
        end%outcome in
      (let? parts := each l in Normal (join "," parts))%outcome
  | Obj o =>
      match Object.own o "toString" with
      | Some _ => Throw cannotConvert
      | None => Normal "[object Object]"
      end
  end.

Definition hex (n : nat) : ascii :=
  ascii_of_nat (if n <? 10 then 48 + n else 87 + n).

(** QuoteJSONString *)
Fixpoint escape (s : string) : string :=
  match s with
  | EmptyString => EmptyString
  | String c s' =>
      let n := code c in
      (if n =? 34 then "\" +:+ String dq ""
       else if n =? 92 then "\\"
       else if n =? 8 then "\b"
       else if n =? 12 then "\f"
       else if n =? 10 then "\n"
       else if n =? 13 then "\r"
       else if n =? 9 then "\t"
       else if n <? 32 then "\u00" +:+ String (hex (n / 16)) (String (hex (n mod 16)) "")
       else String c "") +:+ escape s'
  end.

Definition quote (s : string) : string :=
  String dq (escape s) +:+ String dq "".

Definition newline : string := String (ascii_of_nat 10) "".

(** [JSON.stringify(v, null, 2)], [indent] being the current indentation.
    [None] is the [undefined] returned for [undefined]; inside an array it
    is written [null], inside an object the property is left out. *)
Fixpoint stringify (indent : string) (v : value) : option string :=
  let inner := indent +:+ "  " in
  match v with
  | Undefined => None
  | Null => Some "null"
  | Bool true => Some "true"
  | Bool false => Some "false"
  | Number n => Some (ofNumber n)
  | Str s => Some (quote s)
  | Arr l =>
      let fix each (l : list value) : list string :=
        match l with
        | [] => []
        | x :: l' => default "null" (stringify inner x) :: each l'
        end in
      match each l with
      | [] => Some "[]"
      | parts =>
          Some ("[" +:+ newline +:+ inner +:+
                join ("," +:+ newline +:+ inner) parts +:+
                newline +:+ indent +:+ "]")
      end
  | Obj o =>
      let fix each (o : object) : list string :=
        match o with
        | [] => []
        | (k, x) :: o' =>
            match stringify inner x with
            | Some t => (quote k +:+ ": " +:+ t) :: each o'
            | None => each o'
            end
        end in
      match each o with
      | [] => Some "{}"
      | parts =>
          Some ("{" +:+ newline +:+ inner +:+
                join ("," +:+ newline +:+ inner) parts +:+
                newline +:+ indent +:+ "}")
      end
  end.

(** [`${JSON.stringify(v, null, 2)}`] *)
Definition pretty (v : value) : string :=
  default "undefined" (stringify "" v).

End Text.

(** ** The world outside the library *)

(** What the library does to the console, to the handlers registered by the
    caller and to the native sessions of the browser, in the order it does
    it.  What it writes to [window.localStorage] is not an event. *)
Inductive Event : Type :=
| Warned (text : string)                      (* console.warn *)
| Invoked (function : string) (args : value)  (* a registered handler is called *)
| Created (handle : nat)                      (* a native session is asked for *)
| Prompted (handle : nat) (input : string)    (* prompt of a native session *)
| Destroyed (handle : nat).                   (* destroy of a native session *)

(** [events] is the trace so far, oldest first; [sessions] counts the native
    sessions asked for so far, and names them. *)
Record World : Type := { events : list Event; sessions : nat }.

Definition genesis : World := {| events := []; sessions := 0 |}.

(** Code that acts on a state [S] and may throw; what it did before
    throwing stays done. *)
Definition St (S A : Type) : Type := S -> Outcome A * S.

(** Code that acts on the world only. *)
Abbreviation M := (St World).

Definition ret {S A} (a : A) : St S A := fun s => (Normal a, s).
Definition throw {S A} (e : JsError) : St S A := fun s => (Throw e, s).
Definition lift {S A} (o : Outcome A) : St S A := fun s => (o, s).

Definition bind {S A B} (c : St S A) (k : A -> St S B) : St S B :=
  fun s =>
    match c s with
    | (Normal a, s') => k a s'
    | (Throw e, s') => (Throw e, s')
    end.

(** [try { body } catch (error) { handler }] *)
Definition tryCatch {S A} (body : St S A) (handler : JsError -> St S A)
  : St S A :=
  fun s =>
    match body s with
    | (Normal a, s') => (Normal a, s')
    | (Throw e, s') => handler e s'
    end.

(** [try { body } finally { cleanup }], for a [cleanup] that neither throws
    nor returns. *)
Definition finally {S A} (body : St S A) (cleanup : S -> S) : St S A :=
  fun s => let '(r, s') := body s in (r, cleanup s').

Definition modify {S} (f : S -> S) : St S unit := fun s => (Normal tt, f s).

Definition record (e : Event) (w : World) : World :=
  {| events := events w ++ [e]; sessions := sessions w |}.

Definition emit (e : Event) : M unit := modify (record e).

Definition warn (text : string) : M unit := emit (Warned text).

(** World-only code, run by an object [X] that lives in the world. *)
Definition inWorld {X A} (c : M A) : St (X * World) A :=
  fun s => let '(r, w') := c (snd s) in (r, (fst s, w')).

Declare Scope m_scope.
Delimit Scope m_scope with M.
Notation "x <- c ;; k" := (bind c (fun x => k))
  (at level 100, c at next level, right associativity) : m_scope.
Notation "c ;;; k" := (bind c (fun _ => k))
  (at level 100, right associativity) : m_scope.
Local Open Scope m_scope.

(** ** The schema coercer (src/structured/schema-generator.ts) *)

(** A Zod schema, as far as [_def.typeName] and the fields the generator
    reads tell them apart.  [ZodObject] carries [Object.entries(shape())]. *)
Inductive ZodType : Type :=
| ZodString
| ZodNumber
| ZodBoolean
| ZodArray (type : ZodType)
| ZodObject (shape : list (string * ZodType))
| ZodEnum (values : list string)
| ZodOptional (innerType : ZodType)
| ZodNullable (innerType : ZodType)
| ZodUnion (options : list ZodType)
| ZodOther (typeName : string).

(** [SchemaDefinition] of src/types/library.types.ts; [FunctionParameter]
    has the same fields. *)
Inductive SchemaDefinition : Type := {
  type : string;
  properties : option (list (string * SchemaDefinition));
  items : option SchemaDefinition;
  required : option (list string);
  enum : option (list string);
  description : option string
}.

Abbreviation FunctionParameter := SchemaDefinition.

Definition scalar (t : string) : SchemaDefinition :=
  {| type := t; properties := None; items := None; required := None;
     enum := None; description := None |}.

Definition isZodOptional (z : ZodType) : bool :=
  match z with
  | ZodOptional _ => true
  | _ => false
  end.

Section ObjectEntries.

Variable convert : ZodType -> M SchemaDefinition.

(** The loop over [Object.entries(shape)]. *)
Fixpoint convertEntries (entries : list (string * ZodType))
    (properties : list (string * SchemaDefinition)) (required : list string)
  : M (list (string * SchemaDefinition) * list string) :=
  match entries with
  | [] => ret (properties, required)
  | (key, value) :: entries' =>
      p <- convert value ;;
      convertEntries entries' (Object.set properties key p)
        (if isZodOptional value then required else required ++ [key])
  end.

End ObjectEntries.

Fixpoint zodSchemaToJsonSchema (zodSchema : ZodType) : M SchemaDefinition :=
  match zodSchema with
  | ZodString => ret (scalar "string")
  | ZodNumber => ret (scalar "number")
  | ZodBoolean => ret (scalar "boolean")
  | ZodArray type =>
      i <- zodSchemaToJsonSchema type ;;
      ret {| type := "array"; properties := None; items := Some i;
             required := None; enum := None; description := None |}
  | ZodObject shape =>
      pr <- convertEntries zodSchemaToJsonSchema shape [] [] ;;
      ret {| type := "object"; properties := Some (fst pr); items := None;
             required := match snd pr with [] => None | r => Some r end;
             enum := None; description := None |}
  | ZodEnum values =>
      ret {| type := "string"; properties := None; items := None;
             required := None; enum := Some values; description := None |}
  | ZodOptional innerType => zodSchemaToJsonSchema innerType
  | ZodNullable innerType => zodSchemaToJsonSchema innerType
  | ZodUnion options =>
      match options with
      | first :: _ => zodSchemaToJsonSchema first
      | [] => throw (TypeError "Cannot read properties of undefined (reading '_def')")
      end
  | ZodOther typeName =>
      warn ("Unsupported Zod type: " +:+ typeName) ;;;
      ret (scalar "string")
  end.

Definition generateSchema (zodSchema : ZodType) : M SchemaDefinition :=
  zodSchemaToJsonSchema zodSchema.

(** ** Function calling *)

(** src/types/library.types.ts.  A handler is given the arguments of the call
    and returns a value or throws.  What else the code of the caller does
    when it is called, to the page or to the agent that calls it, is its own
    doing and is not told by the embedding. *)
Record FunctionDefinition : Type := {
  name : string;
  fdescription : string;
  parameters : FunctionParameter;
  handler : value -> Outcome value
}.

Record FunctionCall : Type := {
  callName : string;
  arguments : object
}.

(** The object a [FunctionCall] is at run time. *)
Definition callValue (c : FunctionCall) : value :=
  Obj [("name", Str (callName c)); ("arguments", Obj (arguments c))].

(** [result] is [Undefined] and [error] is [None] where the object literal
    of the source leaves the property out. *)
Record ToolResult : Type := {
  success : bool;
  result : value;
  error : option string
}.

(** *** The registry (src/function-calling/function-registry.ts) *)

Module FunctionRegistry.

Abbreviation t := (gmap string FunctionDefinition).

Definition register (definition : FunctionDefinition) (functions : t) : M t :=
  (if decide (is_Some (functions !! name definition))
   then warn ("Function " +:+ name definition +:+ " already registered, overwriting")
   else ret tt) ;;;
  ret (<[name definition := definition]> functions).

Fixpoint registerMultiple (definitions : list FunctionDefinition) (functions : t)
  : M t :=
  match definitions with
  | [] => ret functions
  | definition :: definitions' =>
      functions' <- register definition functions ;;
      registerMultiple definitions' functions'
  end.

(** [registry.get(name)]: the keys of the map are strings, and no other
    value is equal to one. *)
Definition get (functions : t) (name : value) : option FunctionDefinition :=
  match name with
  | Str n => functions !! n
  | _ => None
  end.

End FunctionRegistry.

(** *** The executor (src/function-calling/function-executor.ts) *)

(** The own properties of [Array.prototype] (Chrome 128, the first release
    the library supports). *)
Definition arrayPrototype : list string :=
  [ "length"; "constructor"; "at"; "concat"; "copyWithin"; "fill"; "find";
    "findIndex"; "findLast"; "findLastIndex"; "lastIndexOf"; "pop"; "push";
    "reverse"; "shift"; "unshift"; "slice"; "sort"; "splice"; "includes";
    "indexOf"; "join"; "keys"; "entries"; "values"; "forEach"; "filter";
    "flat"; "flatMap"; "map"; "every"; "some"; "reduce"; "reduceRight";
    "toLocaleString"; "toString"; "toReversed"; "toSorted"; "toSpliced";
    "with" ]%string.

Definition indices (n : nat) : list string := map Js.ofNat (seq 0 n).

(** [key in v] *)
Definition hasProperty (v : value) (key : string) : Outcome bool :=
  match v with
  | Obj o => Normal (Object.has o key)
  | Arr l =>
      Normal (Object.mem key (indices (length l)) ||
              Object.mem key arrayPrototype ||
              Object.mem key Object.prototype)
  | _ =>
      Throw (TypeError ("Cannot use 'in' operator to search for '" +:+ key +:+ "'"))
  end.

(** [Object.keys(v)] *)
Definition objectKeys (v : value) : Outcome (list string) :=
  match v with
  | Obj o => Normal (Object.keys o)
  | Arr l => Normal (indices (length l))
  | Str s => Normal (indices (String.length s))
  | Bool _ | Number _ => Normal []
  | Undefined | Null =>
      Throw (TypeError "Cannot convert undefined or null to object")
  end.

(** [for (const field of required) if (!(field in args)) return ...] *)
Fixpoint checkRequired (args : value) (required : list string)
  : Outcome (option string) :=
  match required with
  | [] => Normal None
  | field :: required' =>
      (let? present := hasProperty args field in
       if present then checkRequired args required'
       else Normal (Some ("Missing required parameter: " +:+ field)))%outcome
  end.

(** [for (const key of Object.keys(args)) if (!(key in properties)) warn] *)
Fixpoint warnUnexpected (keys : list string)
    (properties : list (string * FunctionParameter)) : M unit :=
  match keys with
  | [] => ret tt
  | key :: keys' =>
      (if Object.has properties key then ret tt
       else warn ("Unexpected parameter: " +:+ key)) ;;;
      warnUnexpected keys' properties
  end.

Definition validateArguments (args : value) (parameters : FunctionParameter)
  : M (option string) :=
  if negb (String.eqb (type parameters) "object") then
    ret (Some "Parameters must be an object")
  else
    match properties parameters with
    | None => ret None
    | Some props =>
        missing <- lift (checkRequired args (default [] (required parameters))) ;;
        match missing with
        | Some text => ret (Some text)
        | None =>
            keys <- lift (objectKeys args) ;;
            warnUnexpected keys props ;;;
            ret None
        end
    end.

Definition failure (text : string) : ToolResult :=
  {| success := false; result := Undefined; error := Some text |}.

Definition executeFunctionCall (call : value) (registry : FunctionRegistry.t)
  : M ToolResult :=
  let callee := getProperty call "name" in
  let args := getProperty call "arguments" in
  match FunctionRegistry.get registry callee with
  | None =>
      shown <- lift (Text.toString callee) ;;
      ret (failure (Js.q "Function '" +:+ shown +:+ Js.q "' not found in registry"))
  | Some definition =>
      tryCatch
        (validationError <- validateArguments args (parameters definition) ;;
         match validationError with
         | Some text => ret (failure text)
         | None =>
             emit (Invoked (name definition) args) ;;;
             r <- lift (handler definition args) ;;
             ret {| success := true; result := r; error := None |}
         end)
        (fun e => ret (failure (message e)))
  end.

(** *** The protocol codec (src/function-calling/function-prompt-builder.ts) *)

(** [response.match(/\{[\s\S]*\}/)]: the text from the first [{] that has a
    [}] after it to the last [}]. *)
Fixpoint matchObject (s : string) : option string :=
  match s with
  | EmptyString => None
  | String c s' =>
      if Ascii.eqb c "{" then
        match Js.uptoLast "}" s' with
        | Some body => Some (String c body)
        | None => matchObject s'
        end
      else matchObject s'
  end.

(** The object [parseFunctionCall] returns; a property the object literal
    leaves out is [Undefined], or [None]. *)
Record ParsedResponse : Type := {
  functionCall : value;
  reasoning : value;
  regularResponse : option string
}.

Definition regular (response : string) : ParsedResponse :=
  {| functionCall := Undefined; reasoning := Undefined;
     regularResponse := Some response |}.

Definition catch {A} (body : Outcome A) (handler : JsError -> Outcome A)
  : Outcome A :=
  match body with
  | Normal a => Normal a
  | Throw e => handler e
  end.

Definition parseFunctionCall (response : string) : Outcome ParsedResponse :=
  catch
    (match matchObject response with
     | None => Normal (regular response)
     | Some jsonMatch =>
         (let? parsed := JSON.parse jsonMatch in
          if truthy (getProperty parsed "functionCall") then
            Normal {| functionCall := getProperty parsed "functionCall";
                      reasoning := getProperty parsed "reasoning";
                      regularResponse := None |}
          else Normal (regular response))%outcome
     end)
    (fun _ => Normal (regular response)).

(** [formatFunctionResult(functionName, result, success)] *)
Definition formatFunctionResult (functionName : value) (result : value)
    (success : bool) : Outcome string :=
  (let? shown := Text.toString functionName in
   if success then
     Normal (Js.q "Function '" +:+ shown +:+
             Js.q "' executed successfully. Result: " +:+ Text.pretty result)
   else
     let? text := Text.toString result in
     Normal (Js.q "Function '" +:+ shown +:+
             Js.q "' failed with error: " +:+ text))%outcome.

(** ** Sessions (src/core/session-manager.ts) *)

(** What [window?.LanguageModel?.create(...)] may give. *)
Inductive Creation : Type :=
| Unavailable            (* no window.LanguageModel, or no session returned *)
| Rejected (e : JsError) (* the promise is rejected *)
| Available.             (* a new native session *)

(** What the browser and the caller do, which the library cannot know: the
    outcome of each request for a native session; the reply of each native
    session to each of its prompts; the verdict of the quota tracker,
    [getQuotaWarningLevel() === 'exhausted'], before each of them; the
    readings of the clock; and the moments at which the caller signals
    [stop()]. *)
Record Environment : Type := {
  creation : nat -> Creation;
  reply : nat -> nat -> Outcome string;
  quotaExhausted : nat -> nat -> bool;
  clock : nat -> nat -> Z;
  stopSignal : nat -> nat -> bool
}.

(** A native session: its name, and how many prompts it has answered. *)
Record LanguageModel : Type := { handle : nat; turns : nat }.

(** The fields of a [SessionManager].  [quotaTracker] names the session
    whose counters it reads.  [sessionId] and [storage] are left out, and
    with them the persistence of the history: when [enablePersistence] is
    set, [create] ends with [saveSessionData] and [prompt] with
    [updateHistory], which write the history of the session to
    [window.localStorage].  That code never throws, acts on no native
    session and calls no handler; it prints a warning on the console when
    the storage is missing or fails.  The trace of a session manager is
    therefore told up to these writes and these warnings, and what is
    stated of every browser is stated of the operations on native sessions
    and of the calls of handlers. *)
Record SessionManager : Type := {
  session : option LanguageModel;
  quotaTracker : option nat;
  enablePersistence : bool
}.

Module Session.

(** A method acts on the manager and on the world. *)
Abbreviation Method := (St (SessionManager * World)).

Section WithEnvironment.

Variable env : Environment.

(** [new SessionManager(sessionId, options)] *)
Definition new (enablePersistence : option bool) : SessionManager :=
  {| session := None; quotaTracker := None;
     enablePersistence := default true enablePersistence |}.

Definition failedToCreate (c : option JsError) : JsError :=
  SessionError "Failed to create session" c.

(** [create(options)], up to [saveSessionData]: the options only reach the
    browser and the storage.  A missing [window.LanguageModel] leaves
    [undefined] in [this.session] before the method throws; a rejected
    promise leaves the field as it was. *)
Definition create : Method unit :=
  fun '(m, w) =>
    let k := sessions w in
    let w' := {| events := events w ++ [Created k]; sessions := S k |} in
    match creation env k with
    | Available =>
        (Normal tt,
         ({| session := Some {| handle := k; turns := 0 |};
             quotaTracker := Some k;
             enablePersistence := enablePersistence m |}, w'))
    | Unavailable =>
        (Throw (failedToCreate (Some (failedToCreate None))),
         ({| session := None;
             quotaTracker := quotaTracker m;
             enablePersistence := enablePersistence m |}, w'))
    | Rejected e => (Throw (failedToCreate (Some e)), (m, w'))
    end.

Definition quotaError : JsError :=
  QuotaExceededError
    "Session quota exhausted. Please create a new session or clone the current one.".

(** [prompt(input, options)], up to [updateHistory] *)
Definition prompt (input : string) : Method string :=
  fun '(m, w) =>
    match session m with
    | None =>
        (Throw (SessionError "No active session. Call create() first." None),
         (m, w))
    | Some lm =>
        tryCatch
          (fun '(m, w) =>
             let spent :=
               match quotaTracker m with
               | Some t => quotaExhausted env t (turns lm)
               | None => false
               end in
             if spent then (Throw quotaError, (m, w))
             else
               (reply env (handle lm) (turns lm),
                ({| session := Some {| handle := handle lm; turns := S (turns lm) |};
                    quotaTracker := quotaTracker m;
                    enablePersistence := enablePersistence m |},
                 record (Prompted (handle lm) input) w)))
          (fun error => throw (SessionError "Failed to prompt session" (Some error)))
          (m, w)
    end.

End WithEnvironment.

(** [destroy()] *)
Definition destroy : Method unit :=
  fun '(m, w) =>
    match session m with
    | Some lm =>
        (Normal tt,
         ({| session := None; quotaTracker := None;
             enablePersistence := enablePersistence m |},
          record (Destroyed (handle lm)) w))
    | None => (Normal tt, (m, w))
    end.

End Session.

(** ** Structured output (src/structured/structured-prompt.ts) *)

(** What [options.schema] may be: a Zod schema, with the [parse] method of
    the Zod library, or a plain [SchemaDefinition]. *)
Inductive Schema : Type :=
| Zod (zodSchema : ZodType) (parse : value -> Outcome value)
| Plain (definition : SchemaDefinition).

(** [maxRetries] is a count of attempts. *)
Record StructuredPromptOptions : Type := {
  schema : Schema;
  maxRetries : option nat;
  systemPrompt : option string
}.

(** The object a [SchemaDefinition] is, with the properties in the order in
    which [zodSchemaToJsonSchema] writes them. *)
Fixpoint schemaValue (s : SchemaDefinition) : value :=
  let some {A} (key : string) (f : A -> value) (x : option A) : object :=
    match x with
    | Some a => [(key, f a)]
    | None => []
    end in
  let strings (l : list string) : value := Arr (map Str l) in
  let fix each (l : list (string * SchemaDefinition)) : object :=
    match l with
    | [] => []
    | (k, d) :: l' => (k, schemaValue d) :: each l'
    end in
  Obj ([("type", Str (type s))] ++
       match properties s with Some p => [("properties", Obj (each p))] | None => [] end ++
       match items s with Some i => [("items", schemaValue i)] | None => [] end ++
       some "required" strings (required s) ++
       some "enum" strings (enum s) ++
       some "description" Str (description s)).

(** src/structured/schema-generator.ts *)
Definition createSchemaPrompt (schema : SchemaDefinition) : string :=
  "You must respond with valid JSON matching this exact schema:" +:+ Text.newline +:+
  Text.pretty (schemaValue schema) +:+ Text.newline +:+ Text.newline +:+
  "Rules:" +:+ Text.newline +:+
  "- Respond ONLY with the JSON object, no additional text" +:+ Text.newline +:+
  "- Ensure all required fields are present" +:+ Text.newline +:+
  "- Follow the exact structure and types specified" +:+ Text.newline +:+
  "- Do not include any markdown formatting or code blocks".

(** [cleaned.replace(/^```json?\s*/i, '')] *)
Definition stripOpeningFence (cleaned : string) : string :=
  if String.eqb (Js.toLowerCase (Js.prefix 6 cleaned)) "```jso" then
    let rest := Js.drop 6 cleaned in
    Js.trimStart
      match rest with
      | String c rest' => if Ascii.eqb (Js.lowerChar c) "n" then rest' else rest
      | EmptyString => rest
      end
  else cleaned.

(** [cleaned.replace(/```\s*$/, '')]: the first place from which the text is
    three backquotes and then white space only. *)
Fixpoint stripClosingFence (cleaned : string) : string :=
  if Js.startsWith "```" cleaned && Js.allWhiteSpace (Js.drop 3 cleaned)
  then EmptyString
  else
    match cleaned with
    | EmptyString => EmptyString
    | String c cleaned' => String c (stripClosingFence cleaned')
    end.

(** [cleaned.match(/(\{[\s\S]*\}|\[[\s\S]*\])/)] *)
Fixpoint matchObjectOrArray (s : string) : option string :=
  match s with
  | EmptyString => None
  | String c s' =>
      let closing :=
        if Ascii.eqb c "{" then Some "}"%char
        else if Ascii.eqb c "[" then Some "]"%char
        else None in
      match closing with
      | Some close =>
          match Js.uptoLast close s' with
          | Some body => Some (String c body)
          | None => matchObjectOrArray s'
          end
      | None => matchObjectOrArray s'
      end
  end.

Definition parseJSONResponse (response : string) : Outcome value :=
  let cleaned := Js.trim response in
  let cleaned := stripClosingFence (stripOpeningFence cleaned) in
  let cleaned := default cleaned (matchObjectOrArray cleaned) in
  catch (JSON.parse cleaned)
    (fun error =>
       Throw (StructuredOutputError
                ("Failed to parse JSON response: " +:+ message error +:+
                 ". Response: " +:+ Js.prefix 200 cleaned) None)).

(** The body of [try] once the response is there: parse, then validate with
    Zod where the schema is a Zod type. *)
Definition validated (schema : Schema) (response : string) : Outcome value :=
  (let? parsed := parseJSONResponse response in
   match schema with
   | Zod _ parse => parse parsed
   | Plain _ => Normal parsed
   end)%outcome.

Definition errorFeedback (lastError : JsError) : string :=
  "The previous response was invalid. Error: " +:+ message lastError +:+
  ". Please try again with valid JSON.".

Definition fullPromptOf (jsonSchema : SchemaDefinition) (prompt : string) : string :=
  createSchemaPrompt jsonSchema +:+ Text.newline +:+ Text.newline +:+
  "User Request: " +:+ prompt.

Definition exhaustedRetries (maxRetries : nat) (lastError : option JsError)
  : JsError :=
  StructuredOutputError
    ("Failed to get valid structured output after " +:+ Js.ofNat maxRetries +:+
     " attempts") lastError.

(** ['parse' in schema ? generateSchema(schema) : schema] *)
Definition jsonSchemaOf (schema : Schema) : M SchemaDefinition :=
  match schema with
  | Zod zodSchema _ => generateSchema zodSchema
  | Plain definition => ret definition
  end.

Section PromptWithStructure.

Variable env : Environment.

(** [for (let attempt = 0; attempt < maxRetries; attempt++)], entered with
    [remaining = maxRetries - attempt] rounds to go. *)
Fixpoint attemptLoop (schema : Schema) (fullPrompt : string)
    (maxRetries remaining : nat) (lastError : option JsError)
  : Session.Method value :=
  match remaining with
  | O => throw (exhaustedRetries maxRetries lastError)
  | S remaining' =>
      let attempt := maxRetries - remaining in
      tryCatch
        (response <- Session.prompt env fullPrompt ;;
         lift (validated schema response))
        (fun error =>
           (if S attempt <? maxRetries
            then Session.prompt env (errorFeedback error) ;;; ret tt
            else ret tt) ;;;
           attemptLoop schema fullPrompt maxRetries remaining' (Some error))
  end.

(** The block [if (systemPrompt) { ... }] reads the session and does
    nothing with it. *)
Definition promptWithStructure (prompt : string)
    (options : StructuredPromptOptions) : Session.Method value :=
  let maxRetries := default 3 (maxRetries options) in
  jsonSchema <- inWorld (jsonSchemaOf (schema options)) ;;
  attemptLoop (schema options) (fullPromptOf jsonSchema prompt)
    maxRetries maxRetries None.

End PromptWithStructure.

(** ** Agents (src/agents/basic-agent.ts, src/agents/advanced-agent.ts) *)

Inductive TaskStatus : Type := idle | running | completed | failed | stopped.

(** A property not yet assigned is [Undefined], or [None]. *)
Record AgentStep : Type := {
  iteration : nat;
  timestamp : Z;
  thought : value;
  action : value;
  observation : option ToolResult
}.

Module AgentResult.
Record t : Type := {
  status : TaskStatus;
  steps : list AgentStep;
  finalAnswer : value;
  error : option JsError;
  iterations : nat
}.
End AgentResult.

(** [systemPrompt], which only reaches the browser, is left out. *)
Record AgentConfig : Type := {
  maxIterations : nat;
  functions : list FunctionDefinition;
  onStep : option (AgentStep -> Outcome unit);
  stopCondition : option (list AgentStep -> Outcome bool)
}.

Record AdvancedAgentConfig : Type := {
  agentConfig : AgentConfig;
  planningPrompt : option string;
  reflectionPrompt : option string;
  maxReflections : option nat;
  enablePlanning : option bool
}.

Definition isEmpty (s : string) : bool := String.eqb s "".

(** [BasicAgent.isTaskComplete] *)
Definition completionIndicators : list string :=
  [ "task is complete"; "task complete"; "finished"; "done"; "completed";
    "final answer" ]%string.

Definition isTaskComplete (response : string) : bool :=
  let lowerResponse := Js.toLowerCase response in
  existsb (fun indicator => Js.includes lowerResponse indicator)
    completionIndicators.

Module BasicAgent.

(** The fields of the object; [config] is given to every method. *)
Record t : Type := {
  session : option SessionManager;
  registry : FunctionRegistry.t;
  status : TaskStatus;
  steps : list AgentStep;
  shouldStop : bool
}.

Abbreviation Method := (St (t * World)).

Definition setSession (m : option SessionManager) : Method unit :=
  modify (fun '(a, w) =>
    ({| session := m; registry := registry a; status := status a;
        steps := steps a; shouldStop := shouldStop a |}, w)).

Definition setStatus (s : TaskStatus) : Method unit :=
  modify (fun '(a, w) =>
    ({| session := session a; registry := registry a; status := s;
        steps := steps a; shouldStop := shouldStop a |}, w)).

Definition setSteps (l : list AgentStep) : Method unit :=
  modify (fun '(a, w) =>
    ({| session := session a; registry := registry a; status := status a;
        steps := l; shouldStop := shouldStop a |}, w)).

Definition setShouldStop (b : bool) : Method unit :=
  modify (fun '(a, w) =>
    ({| session := session a; registry := registry a; status := status a;
        steps := steps a; shouldStop := b |}, w)).

Definition this : Method t := fun s => (Normal (fst s), s).

(** [this.steps.push(step)] *)
Definition push (step : AgentStep) : Method unit :=
  a <- this ;; setSteps (steps a ++ [step]).

(** [new BasicAgent(config)] *)
Definition new (config : AgentConfig) : M t :=
  r <- FunctionRegistry.registerMultiple (functions config) ∅ ;;
  ret {| session := None; registry := r; status := idle; steps := [];
         shouldStop := false |}.

(** [stop()] *)
Definition stop : Method unit := setShouldStop true.

(** A call of a method of [this.session]. *)
Definition withSession {A} (c : Session.Method A) : Method A :=
  fun '(a, w) =>
    match session a with
    | Some m =>
        let '(r, (m', w')) := c (m, w) in
        (r, ({| session := Some m'; registry := registry a; status := status a;
                steps := steps a; shouldStop := shouldStop a |}, w'))
    | None =>
        (Throw (TypeError "Cannot read properties of null"), (a, w))
    end.

Section WithEnvironment.

Variable env : Environment.
Variable config : AgentConfig.

(** The native session most lately created: the one of the current run. *)
Definition current (w : World) : nat := pred (sessions w).

(** [await c]: control is given up until [c] settles, and the caller may
    signal [stop()] meanwhile.  The oracle [stopSignal] tells, for each run
    and each iteration of its loop (0 stands for the creation of the
    session), whether it does; [shouldStop] being read at the head of the
    loop only, a signal that comes at any other moment of the iteration,
    from a handler or from [onStep], has the same effect. *)
Definition awaiting {A} (iteration : nat) (c : Method A) : Method A :=
  fun s =>
    let '(r, (a, w)) := c s in
    (r, (if stopSignal env (current w) iteration
         then {| session := session a; registry := registry a;
                 status := status a; steps := steps a; shouldStop := true |}
         else a, w)).

(** [Date.now()] *)
Definition dateNow (iteration : nat) : Method Z :=
  fun s => (Normal (clock env (current (snd s)) iteration), s).

Definition callOnStep (step : AgentStep) : Method unit :=
  match onStep config with
  | Some f => lift (f step)
  | None => ret tt
  end.

Definition lastThought (l : list AgentStep) : value :=
  match last l with
  | Some step => thought step
  | None => Undefined
  end.

(** The statements after the loop. *)
Definition maxIterationsReached (iteration : nat) : Method AgentResult.t :=
  a <- this ;;
  let s := if shouldStop a then stopped else completed in
  setStatus s ;;;
  ret {| AgentResult.status := s;
         AgentResult.steps := steps a;
         AgentResult.finalAnswer := lastThought (steps a);
         AgentResult.error := None;
         AgentResult.iterations := iteration |}.

Definition continuePrompt (formattedResult : string) : string :=
  formattedResult +:+ Text.newline +:+ Text.newline +:+
  "Continue with the task. If the task is complete, respond with your final answer without calling any functions.".

(** [while (iteration < maxIterations && !this.shouldStop)], entered with
    [remaining = maxIterations - iteration] rounds to go. *)
Fixpoint loop (remaining : nat) (currentPrompt : string)
  : Method AgentResult.t :=
  let iteration := maxIterations config - remaining in
  a <- this ;;
  match remaining with
  | O => maxIterationsReached iteration
  | S remaining' =>
      if shouldStop a then maxIterationsReached iteration else
      let iteration := S iteration in
      timestamp <- dateNow iteration ;;
      response <- awaiting iteration (withSession (Session.prompt env currentPrompt)) ;;
      parsed <- lift (parseFunctionCall response) ;;
      if truthy (functionCall parsed) then
        a <- this ;;
        outcome <- inWorld (executeFunctionCall (functionCall parsed) (registry a)) ;;
        let step :=
          {| iteration := iteration; timestamp := timestamp;
             thought := reasoning parsed; action := functionCall parsed;
             observation := Some outcome |} in
        formattedResult <-
          lift (formatFunctionResult
                  (getProperty (functionCall parsed) "name")
                  (if truthy (result outcome) then result outcome
                   else match error outcome with
                        | Some text => Str text
                        | None => Undefined
                        end)
                  (success outcome)) ;;
        push step ;;;
        callOnStep step ;;;
        loop remaining' (continuePrompt formattedResult)
      else
        let step :=
          {| iteration := iteration; timestamp := timestamp;
             thought := match regularResponse parsed with
                        | Some text => Str text
                        | None => Undefined
                        end;
             action := Undefined; observation := None |} in
        a <- this ;;
        complete <-
          match stopCondition config with
          | Some condition => lift (condition (steps a))
          | None => ret (isTaskComplete (default "" (regularResponse parsed)))
          end ;;
        if (complete : bool) then
          push step ;;;
          setStatus completed ;;;
          callOnStep step ;;;
          a <- this ;;
          ret {| AgentResult.status := completed;
                 AgentResult.steps := steps a;
                 AgentResult.finalAnswer :=
                   match regularResponse parsed with
                   | Some text => Str text
                   | None => Undefined
                   end;
                 AgentResult.error := None;
                 AgentResult.iterations := iteration |}
        else
          push step ;;;
          callOnStep step ;;;
          loop remaining' "Continue with the task."
  end.


Definition reset : Method unit :=
  modify (fun '(a, w) =>
    ({| session := session a; registry := registry a; status := running;
        steps := []; shouldStop := false |}, w)).

(** The [catch] clause of [run] and of [runWithPlanning]. *)
Definition failedResult (error : JsError) : Method AgentResult.t :=
  setStatus failed ;;;
  a <- this ;;
  ret {| AgentResult.status := failed;
         AgentResult.steps := steps a;
         AgentResult.finalAnswer := Undefined;
         AgentResult.error := Some error;
         AgentResult.iterations := length (steps a) |}.

(** The [finally] clause of [run] and of [runWithPlanning]:
    [if (this.session) { this.session.destroy(); this.session = null; }] *)
Definition releaseSession (s : t * World) : t * World :=
  let '(a, w) := s in
  match session a with
  | Some m =>
      ({| session := None; registry := registry a; status := status a;
          steps := steps a; shouldStop := shouldStop a |},
       snd (snd (Session.destroy (m, w))))
  | None => (a, w)
  end.

Definition run (task : string) : Method AgentResult.t :=
  reset ;;;
  finally
    (tryCatch
       (setSession (Some (Session.new None)) ;;;
        awaiting 0 (withSession (Session.create env)) ;;;
        loop (maxIterations config) task)
       failedResult)
    releaseSession.

End WithEnvironment.

End BasicAgent.

Module AdvancedAgent.

(** An [AdvancedAgent] is a [BasicAgent] with a count of reflections;
    [currentPlan], which is written by the planning phase and read by
    [getCurrentPlan] only, is left out. *)
Record t : Type := {
  super : BasicAgent.t;
  reflectionCount : nat
}.

Abbreviation Method := (St (t * World)).

(** A method of the base class, on this object. *)
Definition inherited {A} (c : BasicAgent.Method A) : Method A :=
  fun '(a, w) =>
    let '(r, (b, w')) := c (super a, w) in
    (r, ({| super := b; reflectionCount := reflectionCount a |}, w')).

Definition this : Method t := fun s => (Normal (fst s), s).

Definition new (config : AdvancedAgentConfig) : M t :=
  b <- BasicAgent.new (agentConfig config) ;;
  ret {| super := b; reflectionCount := 0 |}.

Definition stepForReflection (step : AgentStep) : Outcome string :=
  (let? thoughtLine :=
     if truthy (thought step) then
       let? shown := Text.toString (thought step) in
       Normal (Text.newline +:+ "  Thought: " +:+ shown)
     else Normal "" in
   let? actionLine :=
     if truthy (action step) then
       let? shown := Text.toString (getProperty (action step) "name") in
       Normal (Text.newline +:+ "  Action: " +:+ shown)
     else Normal "" in
   let resultLine :=
     match observation step with
     | Some o =>
         Text.newline +:+ "  Result: " +:+
         (if success o then "Success" else "Failed")
     | None => ""
     end in
   Normal ("Step " +:+ Js.ofNat (iteration step) +:+ ":" +:+
           thoughtLine +:+ actionLine +:+ resultLine))%outcome.

Fixpoint mapSteps (l : list AgentStep) : Outcome (list string) :=
  match l with
  | [] => Normal []
  | step :: l' =>
      (let? s := stepForReflection step in
       let? r := mapSteps l' in
       Normal (s :: r))%outcome
  end.

Definition formatStepsForReflection (l : list AgentStep) : Outcome string :=
  (let? parts := mapSteps l in
   Normal (Text.join (Text.newline +:+ Text.newline) parts))%outcome.

Definition defaultReflectionPrompt (formatted : string) : string :=
  "Review the steps taken so far and provide:" +:+ Text.newline +:+
  "1. What has been accomplished" +:+ Text.newline +:+
  "2. What challenges were encountered" +:+ Text.newline +:+
  "3. What should be done differently" +:+ Text.newline +:+
  "4. Next recommended actions" +:+ Text.newline +:+ Text.newline +:+
  "Steps taken:" +:+ Text.newline +:+ formatted.

Definition defaultPlanningPrompt (task : string) : string :=
  Js.q "Create a detailed step-by-step plan to accomplish this task: '" +:+
  task +:+ Js.q "'" +:+ Text.newline +:+ Text.newline +:+
  "Break it down into clear, actionable steps. For each step, specify:" +:+
  Text.newline +:+
  "1. What needs to be done" +:+ Text.newline +:+
  "2. What resources or functions might be needed" +:+ Text.newline +:+
  "3. Dependencies on other steps".

Definition continuationPromptOf (reflection task : string) : string :=
  "Previous attempt was not fully successful. " +:+ Text.newline +:+
  Text.newline +:+ "Reflection:" +:+ Text.newline +:+ reflection +:+
  Text.newline +:+ Text.newline +:+
  Js.q "Please continue with the task: '" +:+ task +:+ Js.q "'".

(** [x || fallback] for an optional text. *)
Definition orElse (x : option string) (fallback : Outcome string)
  : Outcome string :=
  match x with
  | Some text => if isEmpty text then fallback else Normal text
  | None => fallback
  end.

Section WithEnvironment.

Variable env : Environment.
Variable config : AdvancedAgentConfig.

Definition run (task : string) : Method AgentResult.t :=
  inherited (BasicAgent.run env (agentConfig config) task).

Definition reflect : Method string :=
  a <- this ;;
  match BasicAgent.session (super a), BasicAgent.steps (super a) with
  | None, _ | _, [] => ret "No steps to reflect on"
  | Some _, _ :: _ =>
      reflectionPrompt <-
        lift (orElse (reflectionPrompt config)
                (let? formatted :=
                   formatStepsForReflection (BasicAgent.steps (super a)) in
                 Normal (defaultReflectionPrompt formatted))%outcome) ;;
      reflection <-
        inherited (BasicAgent.withSession (Session.prompt env reflectionPrompt)) ;;
      modify (fun '(a, w) =>
        ({| super := super a; reflectionCount := S (reflectionCount a) |}, w)) ;;;
      ret reflection
  end.

(** [createPlanningSession], and its assignment to [this.session]. *)
Definition createPlanningSession : Method unit :=
  fun '(a, w) =>
    let '(r, (manager, w')) := Session.create env (Session.new None, w) in
    match r with
    | Normal _ =>
        inherited (BasicAgent.setSession (Some manager)) (a, w')
    | Throw e => (Throw e, (a, w'))
    end.

Definition createPlan (task : string) : Method unit :=
  a <- this ;;
  match BasicAgent.session (super a) with
  | None => throw (MkError "Error" "No active session" None)
  | Some _ =>
      planningPrompt <-
        lift (orElse (planningPrompt config) (Normal (defaultPlanningPrompt task))) ;;
      inherited (BasicAgent.withSession (Session.prompt env planningPrompt)) ;;;
      ret tt
  end.

(** [this.config.maxReflections || 2] *)
Definition reflectionBudget : nat :=
  match maxReflections config with
  | Some 0 | None => 2
  | Some n => n
  end.

Definition isCompleted (s : TaskStatus) : bool :=
  match s with
  | completed => true
  | _ => false
  end.

(** The loop of [executeWithReflection].  Nothing bounds the number of its
    rounds beforehand: [None] is a loop that is still running after
    [fuel] rounds. *)
Fixpoint reflectionLoop (fuel : nat) (task : string) (result : AgentResult.t)
  : Method (option AgentResult.t) :=
  a <- this ;;
  if negb (isCompleted (AgentResult.status result)) &&
     (reflectionCount a <? reflectionBudget) &&
     negb (BasicAgent.shouldStop (super a))
  then
    match fuel with
    | O => ret None
    | S fuel' =>
        reflection <- reflect ;;
        result' <- run (continuationPromptOf reflection task) ;;
        reflectionLoop fuel' task result'
    end
  else ret (Some result).

Definition executeWithReflection (fuel : nat) (task : string)
  : Method (option AgentResult.t) :=
  result <- run task ;;
  reflectionLoop fuel task result.

Definition runWithPlanning (fuel : nat) (task : string)
  : Method (option AgentResult.t) :=
  if negb (default false (enablePlanning config)) then
    result <- run task ;; ret (Some result)
  else
    inherited BasicAgent.reset ;;;
    finally
      (tryCatch
         (createPlanningSession ;;;
          createPlan task ;;;
          executeWithReflection fuel task)
         (fun error =>
            result <- inherited (BasicAgent.failedResult error) ;;
            ret (Some result)))
      (fun '(a, w) =>
         let '(b, w') := BasicAgent.releaseSession (super a, w) in
         ({| super := b; reflectionCount := reflectionCount a |}, w')).

End WithEnvironment.

End AdvancedAgent.

(** ** Observations and examples

    What the statements below read off a trace, and the concrete inputs of
    their examples. *)

Definition isPromptOf (text : string) (e : Event) : bool :=
  match e with
  | Prompted _ input => String.eqb input text
  | _ => false
  end.

(** How many times [text] has been sent to a native session. *)
Definition promptsSent (text : string) (w : World) : nat :=
  length (List.filter (isPromptOf text) (events w)).

Definition isInvoked (e : Event) : bool :=
  match e with
  | Invoked _ _ => true
  | _ => false
  end.

(** How many times a handler has been called. *)
Definition invocations (w : World) : nat :=
  length (List.filter isInvoked (events w)).

(** The names the generated schema of an object is expected to require:
    those of the entries that are not optional, in their order; no list at
    all when there is none. *)
Definition requiredNames (shape : list (string * ZodType)) : option (list string) :=
  match map fst (List.filter (fun entry => negb (isZodOptional (snd entry))) shape) with
  | [] => None
  | names => Some names
  end.

(** The error of the attempt that reads the reply number [turn] of the
    session [h], when that attempt fails. *)
Definition failureAt (env : Environment) (schema : Schema) (h turn : nat)
  : option JsError :=
  match reply env h turn with
  | Normal text =>
      match validated schema text with
      | Throw e => Some e
      | Normal _ => None
      end
  | Throw e => Some (SessionError "Failed to prompt session" (Some e))
  end.

(** A browser whose sessions answer with the texts of [replies], one after
    the other, and reject the prompts that come after the last. *)
Definition canned (replies : list string) (stop : nat -> nat -> bool)
  : Environment :=
  {| creation := fun _ => Available;
     reply := fun _ n =>
       match nth_error replies n with
       | Some text => Normal text
       | None => Throw (MkError "Error" "no more responses" None)
       end;
     quotaExhausted := fun _ _ => false;
     clock := fun _ _ => 0%Z;
     stopSignal := stop |}.

Definition never : nat -> nat -> bool := fun _ _ => false.

(** A manager whose session has just been created, in an empty world. *)
Definition freshSession : SessionManager * World :=
  ({| session := Some {| handle := 0; turns := 0 |}; quotaTracker := Some 0;
      enablePersistence := true |},
   {| events := [Created 0]; sessions := 1 |}).

(** A Zod object with an optional and a nullable property, and the schema
    generated for it. *)
Definition profileShape : list (string * ZodType) :=
  [("id", ZodNumber); ("nick", ZodOptional ZodString);
   ("tag", ZodNullable (ZodUnion [ZodString; ZodNumber]))].

Definition profileSchema : SchemaDefinition :=
  {| type := "object";
     properties := Some [("id", scalar "number"); ("nick", scalar "string");
                         ("tag", scalar "string")];
     items := None; required := Some ["id"; "tag"]; enum := None;
     description := None |}.

(** The warnings [validateArguments] prints for the arguments that the
    declared [properties] do not name. *)
Definition unexpectedWarnings (props : list (string * FunctionParameter))
    (args : object) : list Event :=
  map (fun key => Warned ("Unexpected parameter: " +:+ key))
    (List.filter (fun key => negb (Object.has props key)) (Object.keys args)).

(** What [executeFunctionCall] returns once the handler has been called. *)
Definition handled (definition : FunctionDefinition) (args : value) : ToolResult :=
  match handler definition args with
  | Normal r => {| success := true; result := r; error := None |}
  | Throw e => failure (message e)
  end.

(** A function that requires a [city], declared with its properties, and
    the same function declared without them. *)
Definition getWeather : FunctionDefinition :=
  {| name := "getWeather"; fdescription := "The weather of a city";
     parameters :=
       {| type := "object"; properties := Some [("city", scalar "string")];
          items := None; required := Some ["city"]; enum := None;
          description := None |};
     handler := fun _ => Normal (Str "sunny") |}.

Definition looseWeather : FunctionDefinition :=
  {| name := "getWeather"; fdescription := "The weather of a city";
     parameters :=
       {| type := "object"; properties := None; items := None;
          required := Some ["city"]; enum := None; description := None |};
     handler := fun _ => Normal (Str "sunny") |}.

Definition registryOf (definition : FunctionDefinition) : gmap string FunctionDefinition :=
  {[ name definition := definition ]}.

Definition callWithoutCity : FunctionCall :=
  {| callName := "getWeather"; arguments := [("units", Str "C")] |}.

Definition callWithCity : FunctionCall :=
  {| callName := "getWeather";
     arguments := [("city", Str "Paris"); ("verbose", Bool true)] |}.

(** The text of the function call of the specification's round trip. *)
Definition callOfF : string :=
  Js.q "{'functionCall':{'name':'f','arguments':{'a':1}}}".

(** The parts of a text: the prefixes of its suffixes. *)
Fixpoint prefixes (s : string) : list string :=
  EmptyString ::
  match s with
  | EmptyString => []
  | String c s' => map (String c) (prefixes s')
  end.

Fixpoint suffixes (s : string) : list string :=
  s ::
  match s with
  | EmptyString => []
  | String _ s' => suffixes s'
  end.

Definition parts (s : string) : list string := flat_map prefixes (suffixes s).

Definition isObjectText (part : string) : bool :=
  match JSON.parse part with
  | Normal (Obj _) => true
  | _ => false
  end.

(** Whether some part of the text is a JSON object. *)
Definition containsObject (text : string) : bool :=
  existsb isObjectText (parts text).

(** The manager [m], its session being the native session [h] after [t]
    prompts. *)
Definition atTurn (m : SessionManager) (h t : nat) : SessionManager :=
  {| session := Some {| handle := h; turns := t |};
     quotaTracker := quotaTracker m;
     enablePersistence := enablePersistence m |}.

(** The scenario B of the specification. *)
Definition nameSchema : SchemaDefinition :=
  {| type := "object"; properties := Some [("name", scalar "string")];
     items := None; required := Some ["name"]; enum := None;
     description := None |}.

Definition annReplies : Environment :=
  canned ["not json"; "not json again"; Js.q "{'name':'Ann'}"] never.

Definition annOptions : StructuredPromptOptions :=
  {| schema := Plain nameSchema; maxRetries := Some 3; systemPrompt := None |}.

(** A browser whose sessions answer [not json] to every prompt. *)
Definition stubborn : Environment :=
  {| creation := fun _ => Available;
     reply := fun _ _ => Normal "not json";
     quotaExhausted := fun _ _ => false;
     clock := fun _ _ => 0%Z;
     stopSignal := never |}.

Definition twoAttempts : StructuredPromptOptions :=
  {| schema := Plain nameSchema; maxRetries := Some 2; systemPrompt := None |}.

(** The step that iteration [i] of a run on the native session [h] records
    when nothing fails in it: the iteration reads the reply number [i - 1]
    of the session, and executes the function call it finds in it.  What a
    call returns does not depend on the world it is executed in
    ([executeFunctionCall_anywhere]); the empty world stands for any. *)
Definition stepAt (env : Environment) (registry : FunctionRegistry.t) (h i : nat)
  : option AgentStep :=
  match reply env h (pred i) with
  | Normal text =>
      match parseFunctionCall text with
      | Normal parsed =>
          if truthy (functionCall parsed) then
            match fst (executeFunctionCall (functionCall parsed) registry genesis) with
            | Normal outcome =>
                Some {| iteration := i; timestamp := clock env h i;
                        thought := reasoning parsed;
                        action := functionCall parsed;
                        observation := Some outcome |}
            | Throw _ => None
            end
          else
            Some {| iteration := i; timestamp := clock env h i;
                    thought := match regularResponse parsed with
                               | Some response => Str response
                               | None => Undefined
                               end;
                    action := Undefined; observation := None |}
      | Throw _ => None
      end
  | Throw _ => None
  end.

(** The steps of the first [n] iterations of that run: [this.steps] when
    iteration [n + 1] begins. *)
Fixpoint history (env : Environment) (registry : FunctionRegistry.t) (h n : nat)
  : list AgentStep :=
  match n with
  | O => []
  | S n' =>
      history env registry h n' ++
      match stepAt env registry h (S n') with
      | Some step => [step]
      | None => []
      end
  end.

(** The run on the native session [h] reads the reply number [n] of the
    session: it makes iteration [n + 1], [stop()] not having been signalled
    before that iteration begins. *)
Definition reads (env : Environment) (config : AgentConfig) (h n : nat) : Prop :=
  n < maxIterations config /\ forall j, j <= n -> stopSignal env h j = false.

(** A reply that does not end the run, read as the reply number [n]: either
    it is a function call, whose name can be printed, or it is a regular
    response and the stop condition of [config], given the steps made when
    the reply is read, rejects it. *)
Definition keepsGoing (env : Environment) (config : AgentConfig)
    (registry : FunctionRegistry.t) (h n : nat) (text : string) : Prop :=
  forall parsed,
    parseFunctionCall text = Normal parsed ->
    if truthy (functionCall parsed) then
      exists shown,
        Text.toString (getProperty (functionCall parsed) "name") = Normal shown
    else
      match stopCondition config with
      | Some condition => condition (history env registry h n) = Normal false
      | None => isTaskComplete (default "" (regularResponse parsed)) = false
      end.

(** A run on the native session [h], by an agent whose functions are those
    of [registry], in which nothing fails and no reply satisfies the stop
    condition: the session is created and, for every reply the run reads,
    the quota is not exhausted, the session answers, the reply does not end
    the run, and the observer [onStep] does not throw on the step made of
    it.  Nothing is asked of the replies the run does not read, nor of the
    stop condition and the observer on steps the run does not make. *)
Record SteadyRun (env : Environment) (config : AgentConfig)
    (registry : FunctionRegistry.t) (h : nat) : Prop := {
  steady_creation : creation env h = Available;
  steady_quota :
    forall n, reads env config h n -> quotaExhausted env h n = false;
  steady_replies :
    forall n,
      reads env config h n ->
      exists text,
        reply env h n = Normal text /\ keepsGoing env config registry h n text;
  steady_observer :
    forall observer n step,
      reads env config h n ->
      onStep config = Some observer ->
      stepAt env registry h (S n) = Some step ->
      observer step = Normal tt
}.

(** The agent of a run in progress on the native session [h]. *)
Definition inProgress (registry : FunctionRegistry.t) (h t : nat)
    (status : TaskStatus) (made : list AgentStep) (stop : bool) : BasicAgent.t :=
  {| BasicAgent.session :=
       Some {| session := Some {| handle := h; turns := t |};
               quotaTracker := Some h; enablePersistence := true |};
     BasicAgent.registry := registry;
     BasicAgent.status := status;
     BasicAgent.steps := made;
     BasicAgent.shouldStop := stop |}.

(** Code that asks for no native session. *)
Definition quiet {A} (c : M A) : Prop :=
  forall w r w', c w = (r, w') -> sessions w' = sessions w.

(** An agent as [new BasicAgent(config)] makes it when [config] names no
    function, and the advanced agent on top of it. *)
Definition idleAgent : BasicAgent.t :=
  {| BasicAgent.session := None; BasicAgent.registry := ∅;
     BasicAgent.status := idle; BasicAgent.steps := [];
     BasicAgent.shouldStop := false |}.

Definition idleAdvancedAgent : AdvancedAgent.t :=
  {| AdvancedAgent.super := idleAgent; AdvancedAgent.reflectionCount := 0 |}.

Definition threeRounds : AgentConfig :=
  {| maxIterations := 3; functions := []; onStep := None; stopCondition := None |}.

(** A browser whose sessions answer every prompt with the same prose, which
    holds none of the completion indicators; [stop] tells when the caller
    signals [stop()]. *)
Definition chatty (stop : nat -> nat -> bool) : Environment :=
  {| creation := fun _ => Available;
     reply := fun _ _ => Normal "Still working on it.";
     quotaExhausted := fun _ _ => false;
     clock := fun _ _ => 0%Z;
     stopSignal := stop |}.

(** [stop()] is signalled during the first iteration of the first run. *)
Definition duringFirstIteration : nat -> nat -> bool :=
  fun h i => (h =? 0) && (i =? 1).

(** A browser that grants one session, the one of the planning phase, and
    rejects every later [LanguageModel.create]. *)
Definition modelGone : JsError :=
  MkError "NotSupportedError" "The model is no longer available" None.

Definition outage : Environment :=
  {| creation := fun k => if k =? 0 then Available else Rejected modelGone;
     reply := fun _ _ => Normal "1. Look it up";
     quotaExhausted := fun _ _ => false;
     clock := fun _ _ => 0%Z;
     stopSignal := never |}.

Definition planning : AdvancedAgentConfig :=
  {| agentConfig := threeRounds; planningPrompt := None;
     reflectionPrompt := None; maxReflections := Some 2;
     enablePlanning := Some true |}.

(** What a run leaves and returns when the browser rejects the creation of
    its session. *)
Definition afterOutage (registry : FunctionRegistry.t) : BasicAgent.t :=
  {| BasicAgent.session := None; BasicAgent.registry := registry;
     BasicAgent.status := failed; BasicAgent.steps := [];
     BasicAgent.shouldStop := false |}.

Definition outageResult : AgentResult.t :=
  {| AgentResult.status := failed; AgentResult.steps := [];
     AgentResult.finalAnswer := Undefined;
     AgentResult.error := Some (Session.failedToCreate (Some modelGone));
     AgentResult.iterations := 0 |}.

(** The scenarios A, C and D of the specification: a registry with the one
    function [getTime], which answers [12:00]; the two replies of scenario
    A; one iteration allowed, for scenario C. *)
Definition getTime : FunctionDefinition :=
  {| name := "getTime"; fdescription := "The time of day";
     parameters :=
       {| type := "object"; properties := Some []; items := None;
          required := None; enum := None; description := None |};
     handler := fun _ => Normal (Str "12:00") |}.

Definition withGetTime : AgentConfig :=
  {| maxIterations := 5; functions := [getTime]; onStep := None;
     stopCondition := None |}.

Definition timeReplies : Environment :=
  canned [Js.q "{'functionCall':{'name':'getTime','arguments':{}}}";
          "The time is 12:00. Task complete."] never.

Definition timeAgent : BasicAgent.t :=
  {| BasicAgent.session := None; BasicAgent.registry := registryOf getTime;
     BasicAgent.status := idle; BasicAgent.steps := [];
     BasicAgent.shouldStop := false |}.

Definition oneRound : AgentConfig :=
  {| maxIterations := 1; functions := []; onStep := None; stopCondition := None |}.

(** ** Arrays *)

Module Array.

(** [l.slice(start)] for an integer [start]: a negative one counts from the
    end, and either is clamped to the array. *)
Definition slice {A} (start : Z) (l : list A) : list A :=
  let len := Z.of_nat (length l) in
  let k := if (start <? 0)%Z then Z.max (len + start) 0 else Z.min start len in
  skipn (Z.to_nat k) l.

End Array.

(** ** The helpers of the agents (src/agents/agent-utils.ts) *)

Module AgentUtils.

(** [step?.thought && !step.action] *)
Definition answers (step : AgentStep) : bool :=
  truthy (thought step) && negb (truthy (action step)).

(** [step.observation?.success === false] *)
Definition observedFailure (step : AgentStep) : bool :=
  match observation step with
  | Some o => negb (success o)
  | None => false
  end.

Definition isTaskComplete (steps : list AgentStep) : bool :=
  match last steps with
  | None => false
  | Some lastStep =>
      if answers lastStep then true
      else
        match observation lastStep with
        | Some o => success o
        | None => false
        end
  end.

(** [for (let i = steps.length - 1; i >= 0; i--)], on the steps from the
    last to the first. *)
Fixpoint lastAnswer (backwards : list AgentStep) : value :=
  match backwards with
  | [] => Undefined
  | step :: earlier =>
      if answers step then thought step else lastAnswer earlier
  end.

Definition extractFinalAnswer (steps : list AgentStep) : value :=
  lastAnswer (rev steps).

Definition isUndefined (v : value) : bool :=
  match v with
  | Undefined => true
  | _ => false
  end.

Definition countFunctionCalls (steps : list AgentStep) : nat :=
  length (List.filter (fun step => negb (isUndefined (action step))) steps).

Definition getSuccessfulSteps (steps : list AgentStep) : list AgentStep :=
  List.filter (fun step => negb (observedFailure step)) steps.

Definition getFailedSteps (steps : list AgentStep) : list AgentStep :=
  List.filter observedFailure steps.

Definition hasErrors (steps : list AgentStep) : bool :=
  existsb observedFailure steps.

Module StoppingConditions.

Definition maxFunctionCalls (max : Z) (steps : list AgentStep) : bool :=
  (max <=? Z.of_nat (countFunctionCalls steps))%Z.

(** A thought that is there and is not a string has no [toLowerCase]. *)
Definition keywordDetected (keywords : list string) (steps : list AgentStep)
  : Outcome bool :=
  match last steps with
  | None => Normal false
  | Some lastStep =>
      if negb (truthy (thought lastStep)) then Normal false
      else
        match thought lastStep with
        | Str text =>
            let thought := Js.toLowerCase text in
            Normal (existsb
                      (fun keyword => Js.includes thought (Js.toLowerCase keyword))
                      keywords)
        | _ => Throw (TypeError "lastStep.thought.toLowerCase is not a function")
        end
  end.

Definition noProgressAfter (iterations : Z) (steps : list AgentStep) : bool :=
  if (Z.of_nat (length steps) <? iterations)%Z then false
  else forallb observedFailure (Array.slice (- iterations) steps).

Definition answerProvided (steps : list AgentStep) : bool :=
  isTaskComplete steps.

End StoppingConditions.

Definition maxRetriesReached : string :=
  "Max retries reached. Please provide your best answer based on the information available.".

(** [createRetryStrategy(maxRetries)] returns a function that shares the
    counter [retries] between its calls: the state of the computation. *)
Definition createRetryStrategy (maxRetries : option nat) (step : AgentStep)
  : St nat (option string) :=
  let maxRetries := default 3 maxRetries in
  fun retries =>
    if observedFailure step && (retries <? maxRetries) then
      let retries := S retries in
      (Normal
         (Some ("The previous action failed. Error: " +:+
                default "undefined" (o ← observation step; error o) +:+
                ". Please try a different approach (attempt " +:+
                Js.ofNat retries +:+ "/" +:+ Js.ofNat maxRetries +:+ ").")),
       retries)
    else if maxRetries <=? retries then (Normal (Some maxRetriesReached), retries)
    else (Normal None, 0).

(** The answers of one strategy to the steps it is given, one after the
    other. *)
Fixpoint consult (strategy : AgentStep -> St nat (option string))
    (steps : list AgentStep) : St nat (list (option string)) :=
  match steps with
  | [] => ret []
  | step :: steps' =>
      answer <- strategy step ;;
      others <- consult strategy steps' ;;
      ret (answer :: others)
  end.

End AgentUtils.

(** ** The stored history (src/utils/session-storage.ts) *)

Module SessionStorage.

Inductive Role : Type := system | user | assistant.

Record InitialPrompt : Type := { role : Role; content : string }.

Definition isSystem (p : InitialPrompt) : bool :=
  match role p with
  | system => true
  | _ => false
  end.

Definition compressHistory (prompts : list InitialPrompt) (maxLength : option Z)
  : list InitialPrompt :=
  let maxLength := default 10%Z maxLength in
  if (Z.of_nat (length prompts) <=? maxLength)%Z then prompts
  else
    let systemPrompts := List.filter isSystem prompts in
    let otherPrompts := List.filter (fun p => negb (isSystem p)) prompts in
    let recentPrompts :=
      Array.slice (- maxLength + Z.of_nat (length systemPrompts)) otherPrompts in
    systemPrompts ++ recentPrompts.

End SessionStorage.

(** A step that calls a function, which fails, and a step that answers. *)
Definition searched : AgentStep :=
  {| iteration := 1; timestamp := 0%Z; thought := Str "Look it up";
     action := Obj [("name", Str "search"); ("arguments", Obj [])];
     observation := Some (failure "offline") |}.

Definition answered : AgentStep :=
  {| iteration := 2; timestamp := 0%Z; thought := Str "It is 42";
     action := Undefined; observation := None |}.

(** A step that concludes with [text], and a step whose thought is the
    number the model gave as its reasoning. *)
Definition concluded (text : string) : AgentStep :=
  {| iteration := 3; timestamp := 0%Z; thought := Str text;
     action := Undefined; observation := None |}.

Definition reckoned : AgentStep :=
  {| iteration := 3; timestamp := 0%Z; thought := int 5;
     action := Obj [("name", Str "search"); ("arguments", Obj [])];
     observation := Some (failure "offline") |}.

(** An agent that stops once ten functions have been called, with three
    iterations to go, and a browser whose session asks for the time and
    then goes on in prose. *)
Definition cautious : AgentConfig :=
  {| maxIterations := 3; functions := [getTime]; onStep := None;
     stopCondition :=
       Some (fun steps =>
               Normal (AgentUtils.StoppingConditions.maxFunctionCalls 10 steps)) |}.

Definition askingTheTime : Environment :=
  canned [Js.q "{'functionCall':{'name':'getTime','arguments':{}}}";
          "Let me see."; "It is noon."] never.

(** A history of five prompts, two of them system prompts. *)
Definition chat : list SessionStorage.InitialPrompt :=
  [ {| SessionStorage.role := SessionStorage.system;
       SessionStorage.content := "Be brief." |};
    {| SessionStorage.role := SessionStorage.user;
       SessionStorage.content := "Hello" |};
    {| SessionStorage.role := SessionStorage.assistant;
       SessionStorage.content := "Hi." |};
    {| SessionStorage.role := SessionStorage.system;
       SessionStorage.content := "Answer in French." |};
    {| SessionStorage.role := SessionStorage.user;
       SessionStorage.content := "What is the time?" |} ].

(** ** The registry and the executor, continued *)

(** The other methods of [FunctionRegistry] that read or change the map. *)
Module Registry.

Definition unregister (name : string) (functions : FunctionRegistry.t)
  : FunctionRegistry.t :=
  delete name functions.

Definition has (functions : FunctionRegistry.t) (name : string) : bool :=
  bool_decide (is_Some (functions !! name)).

Definition clear (functions : FunctionRegistry.t) : FunctionRegistry.t := ∅.

End Registry.



(** [for (const call of calls) results.push(await executeFunctionCall(...))] *)
Fixpoint executeEach (calls : list value) (registry : FunctionRegistry.t)
    (results : list ToolResult) : M (list ToolResult) :=
  match calls with
  | [] => ret results
  | call :: calls' =>
      outcome <- executeFunctionCall call registry ;;
      executeEach calls' registry (results ++ [outcome])
  end.

Definition executeFunctionCalls (calls : list value) (registry : FunctionRegistry.t)
  : M (list ToolResult) :=
  executeEach calls registry [].

Definition notFound (name : string) : ToolResult :=
  failure (Js.q "Function '" +:+ name +:+ Js.q "' not found in registry").


Definition callWithoutArguments : value := Obj [("name", Str "getTime")].

(** ** Runs in general

    What the statements about every run, whatever the browser, the handlers
    and the observers do, are written with. *)

(** The events a run on the native session [h] may add between the creation
    of its session and its release. *)
Definition bodyEvent (h : nat) (e : Event) : bool :=
  match e with
  | Warned _ | Invoked _ _ => true
  | Prompted h' _ => h' =? h
  | Created _ | Destroyed _ => false
  end.

Definition isPrompted (e : Event) : bool :=
  match e with
  | Prompted _ _ => true
  | _ => false
  end.

Definition promptsIn (l : list Event) : nat := length (List.filter isPrompted l).

Definition invokedIn (l : list Event) : nat := length (List.filter isInvoked l).

(** The steps are numbered from one, without a gap. *)
Definition numbered (made : list AgentStep) : Prop :=
  map iteration made = seq 1 (length made).

(** The agent holds a manager whose native session is [h]. *)
Definition Holds (h : nat) (a : BasicAgent.t) : Prop :=
  exists m lm,
    BasicAgent.session a = Some m /\ session m = Some lm /\ handle lm = h.

(** From [w] to [w'] only events of the body of a run on [h] were added,
    among them at most [p] prompts and [i] calls of a handler, and no native
    session was asked for. *)
Definition Grows (h p i : nat) (w w' : World) : Prop :=
  exists more,
    events w' = events w ++ more /\
    forallb (bodyEvent h) more = true /\
    promptsIn more <= p /\ invokedIn more <= i /\
    sessions w' = sessions w.

(** What the loop of a run leaves: the agent and the world it stops in, and
    the result it returns when it does not throw. *)
Definition loopLeaves (config : AgentConfig) (h rounds : nat) (w : World)
    (out : Outcome AgentResult.t * (BasicAgent.t * World)) : Prop :=
  let '(r, (a', w')) := out in
  Holds h a' /\ Grows h rounds rounds w w' /\
  numbered (BasicAgent.steps a') /\
  length (BasicAgent.steps a') <= maxIterations config /\
  match r with
  | Normal res =>
      AgentResult.steps res = BasicAgent.steps a' /\
      AgentResult.iterations res = length (BasicAgent.steps a') /\
      BasicAgent.status a' = AgentResult.status res /\
      AgentResult.error res = None /\
      (AgentResult.status res = completed \/ AgentResult.status res = stopped)
  | Throw _ => True
  end.

(** The event that ends a run: the release of the session, when there is
    one. *)
Definition closing (env : Environment) (h : nat) : list Event :=
  match creation env h with
  | Available => [Destroyed h]
  | _ => []
  end.

(** What a run leaves. *)
Definition runLeaves (env : Environment) (config : AgentConfig) (w : World)
    (out : Outcome AgentResult.t * (BasicAgent.t * World)) : Prop :=
  let h := sessions w in
  exists res a' body,
    out =
      (Normal res,
       (a', {| events := events w ++ [Created h] ++ body ++ closing env h;
               sessions := S h |})) /\
    forallb (bodyEvent h) body = true /\
    promptsIn body <= maxIterations config /\
    invokedIn body <= maxIterations config /\
    BasicAgent.session a' = None /\
    BasicAgent.status a' = AgentResult.status res /\
    BasicAgent.steps a' = AgentResult.steps res /\
    numbered (AgentResult.steps res) /\
    length (AgentResult.steps res) <= maxIterations config /\
    AgentResult.iterations res = length (AgentResult.steps res) /\
    match AgentResult.error res with
    | Some _ => AgentResult.status res = failed
    | None => AgentResult.status res = completed \/ AgentResult.status res = stopped
    end.

(** The operations on native sessions, among the events of a trace. *)
Definition onNativeSession (e : Event) : bool :=
  match e with
  | Created _ | Prompted _ _ | Destroyed _ => true
  | Warned _ | Invoked _ _ => false
  end.

Definition sessionTrace (l : list Event) : list Event :=
  List.filter onNativeSession l.

(** From [w] to [w'] events were added, none of them the destruction of the
    native session [k], and no name of a session was given back. *)
Definition Spares (k : nat) (w w' : World) : Prop :=
  exists added,
    events w' = events w ++ added /\
    ~ In (Destroyed k) added /\
    sessions w <= sessions w'.

(** A reply in which a function call and a JSON object stand in prose and
    between code fences. *)
Definition callInProse : string :=
  Js.q "I will look it up. {'functionCall':{'name':'f','arguments':{'a':1}}} Done.".

Definition fencedObject : string :=
  "Here you are:" +:+ Text.newline +:+ "```json" +:+ Text.newline +:+
  Js.q "{'name':'Ann'}" +:+ Text.newline +:+ "```" +:+ Text.newline.

(** A browser whose sessions have used up their quota, and a browser that
    has no model. *)
Definition spent : Environment :=
  {| creation := fun _ => Available;
     reply := fun _ _ => Normal "not json";
     quotaExhausted := fun _ _ => true;
     clock := fun _ _ => 0%Z;
     stopSignal := never |}.

Definition noModel : Environment :=
  {| creation := fun _ => Unavailable;
     reply := fun _ _ => Normal "not json";
     quotaExhausted := fun _ _ => false;
     clock := fun _ _ => 0%Z;
     stopSignal := never |}.

Definition oneAttempt : StructuredPromptOptions :=
  {| schema := Plain nameSchema; maxRetries := Some 1; systemPrompt := None |}.

Definition noActiveSession : JsError :=
  SessionError "No active session. Call create() first." None.

Definition failedToPrompt (error : JsError) : JsError :=
  SessionError "Failed to prompt session" (Some error).

(** The Zod types the generator has a case for, as far as it visits them:
    of a union it visits the first option only. *)
Fixpoint supported (z : ZodType) : bool :=
  match z with
  | ZodString | ZodNumber | ZodBoolean | ZodEnum _ => true
  | ZodArray type => supported type
  | ZodObject shape =>
      (fix each (l : list (string * ZodType)) : bool :=
         match l with
         | [] => true
         | (_, value) :: l' => supported value && each l'
         end) shape
  | ZodOptional innerType | ZodNullable innerType => supported innerType
  | ZodUnion options =>
      match options with
      | first :: _ => supported first
      | [] => false
      end
  | ZodOther _ => false
  end.

(** A union whose first option is supported and whose second is not. *)
Definition looseUnion : ZodType :=
  ZodUnion [ZodArray ZodNumber; ZodOther "ZodDate"].

(** ** Plans (src/agents/advanced-agent.ts) *)

Module AgentPlan.
(** [dependencies] is an object whose keys are the numbers of the steps;
    its properties are listed by ascending key. *)
Record t : Type := {
  steps : list string;
  dependencies : list (nat * list nat)
}.
End AgentPlan.

(** [\d] *)
Definition isDigit (c : ascii) : bool :=
  let n := Js.code c in (48 <=? n) && (n <=? 57).

Definition isLineFeed (c : ascii) : bool := Js.code c =? 10.

(** [(\d+)] at the start of a text: what follows the longest run of
    digits.  A shorter run is followed by a digit, where [\.] fails. *)
Fixpoint afterDigits (s : string) : string :=
  match s with
  | String c s' => if isDigit c then afterDigits s' else s
  | EmptyString => EmptyString
  end.

(** [\s*], greedy: the longest run of white space and what follows it. *)
Fixpoint whiteSpaceRun (s : string) : string * string :=
  match s with
  | String c s' =>
      if Js.isWhiteSpace c then
        let '(run, rest) := whiteSpaceRun s' in (String c run, rest)
      else (EmptyString, s)
  | EmptyString => (EmptyString, EmptyString)
  end.

(** [[^\n]+], greedy, where the text does not start with a line feed: the
    text up to the next line feed, and what follows it. *)
Fixpoint restOfLine (s : string) : string * string :=
  match s with
  | String c s' =>
      if isLineFeed c then (EmptyString, s)
      else let '(group, rest) := restOfLine s' in (String c group, rest)
  | EmptyString => (EmptyString, EmptyString)
  end.

(** Where the white space goes up to the end of the text, [\s*] gives back
    one character after the other until [[^\n]+] finds one that is no line
    feed: the last such character of the run, after which there are line
    feeds only. *)
Fixpoint lastOnLine (run : string) : option (string * string) :=
  match run with
  | EmptyString => None
  | String c run' =>
      match lastOnLine run' with
      | Some found => Some found
      | None => if isLineFeed c then None else Some (String c EmptyString, run')
      end
  end.

(** A match of [/(\d+)\.\s*([^\n]+)/] at the start of a text that starts
    with a digit: the second group and what follows the match. *)
Definition matchStep (s : string) : option (string * string) :=
  match afterDigits s with
  | String "."%char r =>
      let '(run, r') := whiteSpaceRun r in
      match r' with
      | String _ _ => Some (restOfLine r')
      | EmptyString => lastOnLine run
      end
  | _ => None
  end.

(** [while ((match = stepRegex.exec(planText)) !== null)]: the matches from
    left to right, each sought from the end of the one before.  A match
    takes three characters at least, so that as many rounds as the text has
    characters are enough. *)
Fixpoint stepsFrom (fuel : nat) (s : string) : list string :=
  match fuel with
  | O => []
  | S fuel' =>
      match s with
      | EmptyString => []
      | String c s' =>
          if isDigit c then
            match matchStep s with
            | Some (group, rest) => Js.trim group :: stepsFrom fuel' rest
            | None => stepsFrom fuel' s'
            end
          else stepsFrom fuel' s'
      end
  end.

Definition parsePlan (planText : string) : AgentPlan.t :=
  let steps := stepsFrom (String.length planText) planText in
  {| AgentPlan.steps := steps;
     AgentPlan.dependencies :=
       map (fun i => (i, [i - 1])) (seq 1 (length steps - 1)) |}.

Definition replanPrompt (task formatted : string) : string :=
  Js.q "Based on the reflection and current progress, create a new plan to complete the task: '" +:+
  task +:+ Js.q "'" +:+ Text.newline +:+ Text.newline +:+
  "Current progress:" +:+ Text.newline +:+ formatted +:+ Text.newline +:+
  Text.newline +:+ "Create a revised step-by-step plan.".

Definition noSessionForReplanning : JsError :=
  MkError "Error" "No active session for replanning" None.

(** [replan(task)]; the plan it stores in [currentPlan] is the plan it
    returns. *)
Definition replan (env : Environment) (task : string)
  : AdvancedAgent.Method AgentPlan.t :=
  a <- AdvancedAgent.this ;;
  match BasicAgent.session (AdvancedAgent.super a) with
  | None => throw noSessionForReplanning
  | Some _ =>
      formatted <-
        lift (AdvancedAgent.formatStepsForReflection
                (BasicAgent.steps (AdvancedAgent.super a))) ;;
      planResponse <-
        AdvancedAgent.inherited
          (BasicAgent.withSession (Session.prompt env (replanPrompt task formatted))) ;;
      ret (parsePlan planResponse)
  end.

(** A numbered list: each item on a line of its own, after its number, a
    full stop and a space. *)
Fixpoint numberedLines (lines : list (string * string)) : string :=
  match lines with
  | [] => EmptyString
  | (label, text) :: lines' =>
      label +:+ ". " +:+ text +:+ Text.newline +:+ numberedLines lines'
  end.

Fixpoint allDigits (s : string) : bool :=
  match s with
  | EmptyString => true
  | String c s' => isDigit c && allDigits s'
  end.

(** An item of a numbered list: a number, and a text that has no line feed
    and starts with a character that is no white space. *)
Definition isItem (item : string * string) : bool :=
  negb (isEmpty (fst item)) && allDigits (fst item) &&
  negb (Js.includes (snd item) Text.newline) &&
  match snd item with
  | String c _ => negb (Js.isWhiteSpace c)
  | EmptyString => false
  end.

Definition tripPlan : list (string * string) :=
  [("1", "Book the flight  "); ("2", "Reserve 2 rooms. Then pack."); ("10", "Go")].

(** ** Retrying (src/utils/error-handling.ts) *)

Module ErrorHandling.

(** The options of [withRetry]; [maxAttempts] is a count.  [shouldRetry] is
    taken to return: were it to throw, the promise would never settle. *)
Record RetryOptions : Type := {
  maxAttempts : option nat;
  delay : option Z;
  backoff : option bool;
  shouldRetry : option (JsError -> bool)
}.

Section WithRetry.

Context {A : Type}.

(** What the call number [n] of [fn] gives, the first being number 0. *)
Variable fn : nat -> Outcome A.
Variable options : RetryOptions.

Definition retryable (error : JsError) : bool :=
  match shouldRetry options with
  | Some f => f error
  | None => true
  end.

(** [backoff ? delay * Math.pow(2, attempt - 1) : delay] *)
Definition waitTime (attempt : nat) : Z :=
  let delay := default 1000%Z (delay options) in
  if default true (backoff options)
  then (delay * 2 ^ Z.of_nat (attempt - 1))%Z
  else delay.

(** [execute], entered with [remaining = maxAttempts - attempt] when
    [attempt] is less than [maxAttempts].  The state is the list of the
    times [setTimeout] was asked to wait, in milliseconds. *)
Fixpoint execute (maxAttempts remaining : nat) : St (list Z) A :=
  let attempt := maxAttempts - remaining in
  match fn attempt with
  | Normal result => ret result
  | Throw error =>
      let attempt := S attempt in
      match remaining with
      | S (S _ as remaining') =>
          if negb (retryable error) then throw error
          else
            modify (fun timers => timers ++ [waitTime attempt]) ;;;
            execute maxAttempts remaining'
      | _ => throw error
      end
  end.

Definition withRetry : St (list Z) A :=
  let maxAttempts := default 3 (maxAttempts options) in
  execute maxAttempts maxAttempts.

End WithRetry.

End ErrorHandling.

(** An operation that fails twice with an error worth a retry and then
    succeeds, and the default options. *)
Definition busy : JsError := MkError "Error" "The model is busy" None.

Definition thirdTimeLucky (n : nat) : Outcome string :=
  if n <? 2 then Throw busy else Normal "ready".

Definition defaults : ErrorHandling.RetryOptions :=
  {| ErrorHandling.maxAttempts := None; ErrorHandling.delay := None;
     ErrorHandling.backoff := None; ErrorHandling.shouldRetry := None |}.

(** A browser whose model names the function to call by an object that
    cannot be converted to a text. *)
Definition unprintableCall : string :=
  Js.q "{'functionCall':{'name':{'toString':1},'arguments':{}}}".

Definition confused : Environment := canned [unprintableCall] never.

(** ** Structured output from a stream (src/structured/structured-prompt.ts) *)

(** What the reader of a native [promptStreaming] is given: the chunks,
    each of them the text so far, and the error with which [read] rejects
    after them, if the stream does not end well. *)
Record Stream : Type := { chunks : list string; broken : option JsError }.

Module Streaming.

(** [(cleaned.match(/\{/g) || []).length] *)
Fixpoint count (c : ascii) (s : string) : nat :=
  match s with
  | EmptyString => O
  | String x s' => (if Ascii.eqb x c then 1 else 0) + count c s'
  end.

(** [parsePartialJSON]: [Null] is the [null] it returns for a text that
    [JSON.parse] refuses. *)
Definition parsePartialJSON (text : string) : value :=
  let cleaned := stripOpeningFence (Js.trim text) in
  let openBraces := count "{" cleaned in
  let closeBraces := count "}" cleaned in
  let cleaned :=
    if closeBraces <? openBraces
    then cleaned +:+ Text.repeat "}" (openBraces - closeBraces)
    else cleaned in
  match JSON.parse cleaned with
  | Normal partial => partial
  | Throw _ => Null
  end.

(** The state of a structured prompt on a stream: the manager and the
    world, and the partial results [onPartial] has been given so far. *)
Abbreviation Method := (St ((SessionManager * World) * list value)).

Definition onSession {A} (c : Session.Method A) : Method A :=
  fun '(s, given) => let '(r, s') := c s in (r, (s', given)).

Section WithEnvironment.

Variable env : Environment.

(** The streams of the browser: the one each native session gives to each
    of its prompts. *)
Variable streamOf : nat -> nat -> Stream.

(** [SessionManager.promptStreaming(input, options)]; the request is
    recorded as a prompt of the native session. *)
Definition promptStreaming (input : string) : Session.Method Stream :=
  fun '(m, w) =>
    match session m with
    | None =>
        (Throw (SessionError "No active session. Call create() first." None),
         (m, w))
    | Some lm =>
        let spent :=
          match quotaTracker m with
          | Some t => quotaExhausted env t (turns lm)
          | None => false
          end in
        if spent then (Throw (Session.quotaError), (m, w))
        else
          (Normal (streamOf (handle lm) (turns lm)),
           ({| session := Some {| handle := handle lm; turns := S (turns lm) |};
               quotaTracker := quotaTracker m;
               enablePersistence := enablePersistence m |},
            record (Prompted (handle lm) input) w))
    end.

(** [if (onPartial) { try { ... } catch { } }] *)
Definition notify (onPartial : option (value -> Outcome unit))
    (accumulated : string) : Method unit :=
  match onPartial with
  | Some callback =>
      tryCatch
        (let partial := parsePartialJSON accumulated in
         if truthy partial then
           modify (fun '(s, given) => (s, given ++ [partial])) ;;;
           lift (callback partial)
         else ret tt)
        (fun _ => ret tt)
  | None => ret tt
  end.

(** [while (true)], on the chunks that are left to read; the reader and
    its lock are not part of the state. *)
Fixpoint readAll (onPartial : option (value -> Outcome unit))
    (left : list string) (accumulated : string) : Method string :=
  match left with
  | [] => ret accumulated
  | value :: left' =>
      notify onPartial value ;;;
      readAll onPartial left' value
  end.

Definition promptWithStructureStreaming (prompt : string) (schema : Schema)
    (onPartial : option (value -> Outcome unit)) : Method value :=
  jsonSchema <- onSession (inWorld (jsonSchemaOf schema)) ;;
  stream <- onSession (promptStreaming (fullPromptOf jsonSchema prompt)) ;;
  accumulated <- readAll onPartial (chunks stream) "" ;;
  match broken stream with
  | Some error => throw error
  | None => lift (validated schema accumulated)
  end.

End WithEnvironment.

End Streaming.

(** A browser that streams an object in three chunks, and a callback that
    throws whatever it is given. *)
Definition growing : nat -> nat -> Stream :=
  fun _ _ =>
    {| chunks := [Js.q "{'name"; Js.q "{'name':'An"; Js.q "{'name':'Ann'}"];
       broken := None |}.

Definition grumpy : value -> Outcome unit :=
  fun _ => Throw (MkError "Error" "not now" None).

(** * Properties *)

(** ** JSON.parse

    Every parser consumes what it reads, and the fuel of [JSON.parseText] is
    enough. *)

Lemma skip_le (s : string) : String.length (JSON.skip s) <= String.length s.
Proof.
  induction s as [|c s IH]; simpl; [lia|].
  destruct (JSON.isJsonSpace c); simpl; lia.
Qed.

Lemma skip_cons (s r : string) (c : ascii) :
  JSON.skip s = String c r -> String.length r < String.length s.
Proof. intros H. pose proof (skip_le s). rewrite H in *. simpl in *. lia. Qed.

Lemma chars_lt :
  forall n s t r,
    String.length s <= n ->
    JSON.chars s = Some (t, r) ->
    String.length r < String.length s.
Proof.
  induction n as [|n IH]; intros s t r Hn H.
  - destruct s; [discriminate|simpl in Hn; lia].
  - destruct s as [|c s]; [discriminate|]. simpl in Hn.
    cbn [JSON.chars] in H.
    destruct (Ascii.eqb c Js.dq).
    { inversion H; subst. simpl. lia. }
    destruct (Ascii.eqb c "\").
    + destruct s as [|e s]; [discriminate|]. simpl in Hn.
      assert (Hcont : forall d rest,
                 match rest with
                 | Some (t0, r0) => Some (d +:+ t0, r0)
                 | None => None
                 end = Some (t, r) ->
                 exists t0, rest = Some (t0, r)).
      { intros d [[t0 r0]|] Hx; [|discriminate]. inversion Hx; subst. eauto. }
      repeat match type of H with
             | (if ?b then _ else _) = _ => destruct b
             end;
        try (apply Hcont in H; destruct H as [t0 H]; apply IH in H; simpl in *; lia);
        try discriminate.
      destruct s as [|h1 [|h2 [|h3 [|h4 s]]]]; try discriminate.
      destruct (JSON.hexDigit h1), (JSON.hexDigit h2), (JSON.hexDigit h3), (JSON.hexDigit h4);
        try discriminate.
      apply Hcont in H; destruct H as [t0 H]; apply IH in H; simpl in *; lia.
    + destruct (Js.code c <? 32); [discriminate|].
      destruct (JSON.chars s) as [[t0 r0]|] eqn:E; [|discriminate].
      inversion H; subst. apply IH in E; simpl in *; lia.
Qed.

Lemma digits_length : forall s acc count v count' r,
  JSON.digits acc count s = (v, count', r) ->
  String.length r + count' = String.length s + count.
Proof.
  induction s as [|c s IH]; intros acc count v count' r H; simpl in H.
  - inversion H; subst. reflexivity.
  - destruct (JSON.digit c).
    + apply IH in H. simpl. lia.
    + inversion H; subst. reflexivity.
Qed.

Lemma fraction_le (i : Z) (s2 : string) (m : Z) (nf : nat) (s3 : string) :
  match s2 with
  | String "."%char r0 =>
      let '(m, nf, s3) := JSON.digits i 0 r0 in
      if nf =? 0 then None else Some (m, nf, s3)
  | _ => Some (i, 0, s2)
  end = Some (m, nf, s3) -> String.length s3 <= String.length s2.
Proof.
  intros H. destruct s2 as [|c s2]; [inversion H; subst; lia|].
  destruct (Ascii.eqb c ".") eqn:Ec.
  - apply Ascii.eqb_eq in Ec; subst c.
    destruct (JSON.digits i 0 s2) as [[m' nf'] s3'] eqn:E2.
    apply digits_length in E2. destruct (nf' =? 0); [discriminate|].
    inversion H; subst. simpl. lia.
  - assert (H' : Some (i, 0, String c s2) = Some (m, nf, s3)).
    { destruct c as [[] [] [] [] [] [] [] []]; try exact H; discriminate Ec. }
    inversion H'; subst. lia.
Qed.

Lemma numberLiteral_lt (s : string) (n : number) (r : string) :
  JSON.numberLiteral s = Some (n, r) -> String.length r < String.length s.
Proof.
  unfold JSON.numberLiteral.
  set (sign := match s with String "-"%char r0 => (true, r0) | _ => (false, s) end).
  assert (Hsign : String.length (snd sign) <= String.length s).
  { subst sign. destruct s as [|c s]; simpl; [lia|].
    destruct c as [[] [] [] [] [] [] [] []]; simpl; lia. }
  destruct sign as [negative s1]. simpl in Hsign.
  destruct (JSON.digits 0 0 s1) as [[i ni] s2] eqn:E1.
  apply digits_length in E1.
  destruct ((ni =? 0) || _) eqn:Ezero; [discriminate|].
  apply orb_false_iff in Ezero. destruct Ezero as [Ezero _].
  apply Nat.eqb_neq in Ezero.
  match goal with
  | |- match ?F with _ => _ end = _ -> _ => remember F as fraction eqn:EF
  end.
  symmetry in EF. destruct fraction as [[[m nf] s3]|]; [|discriminate].
  apply fraction_le in EF.
  destruct s3 as [|c s3].
  { intros H; inversion H; subst. simpl in *. lia. }
  destruct (Ascii.eqb c "e" || Ascii.eqb c "E").
  - set (esign := match s3 with
                  | String "-"%char r' => (true, r')
                  | String "+"%char r' => (false, r')
                  | _ => (false, s3)
                  end).
    assert (Hes : String.length (snd esign) <= String.length s3).
    { subst esign. destruct s3 as [|d s3]; simpl; [lia|].
      destruct d as [[] [] [] [] [] [] [] []]; simpl; lia. }
    destruct esign as [minus r1]. simpl in Hes.
    destruct (JSON.digits 0 0 r1) as [[x nx] s4] eqn:E3.
    apply digits_length in E3. destruct (nx =? 0); [discriminate|].
    intros H; inversion H; subst. simpl in *. lia.
  - intros H; inversion H; subst. simpl in *. lia.
Qed.

Lemma drop_length : forall n s, String.length (Js.drop n s) = String.length s - n.
Proof.
  induction n as [|n IH]; intros [|c s]; simpl; try lia. apply IH.
Qed.

Lemma literal_lt (word : string) (v x : value) (s r : string) :
  0 < String.length word -> String.length s > 0 ->
  JSON.literal word v s = Some (x, r) -> String.length r < String.length s.
Proof.
  intros Hw Hs. unfold JSON.literal. destruct (Js.startsWith word s); [|discriminate].
  intros H; inversion H; subst. rewrite drop_length. lia.
Qed.

Lemma consumes : forall fuel,
  (forall s v r, JSON.parseValue fuel s = Some (v, r) -> String.length r < String.length s) /\
  (forall first acc s o r,
      JSON.parseMembers fuel first acc s = Some (o, r) -> String.length r < String.length s) /\
  (forall first acc s l r,
      JSON.parseElements fuel first acc s = Some (l, r) -> String.length r < String.length s).
Proof.
  induction fuel as [|fuel (IHv & IHm & IHe)]; [repeat split; discriminate|].
  repeat split.
  - intros s v r. cbn [JSON.parseValue].
    destruct (JSON.skip s) as [|c s1] eqn:Es; [discriminate|].
    apply skip_cons in Es.
    destruct (Ascii.eqb c "{").
    { destruct (JSON.parseMembers fuel true [] s1) as [[o r']|] eqn:E; [|discriminate].
      intros H; inversion H; subst. apply IHm in E. lia. }
    destruct (Ascii.eqb c "[").
    { destruct (JSON.parseElements fuel true [] s1) as [[l r']|] eqn:E; [|discriminate].
      intros H; inversion H; subst. apply IHe in E. lia. }
    destruct (Ascii.eqb c Js.dq).
    { destruct (JSON.chars s1) as [[t r']|] eqn:E; [|discriminate].
      intros H; inversion H; subst. apply (chars_lt _ _ _ _ (le_n _)) in E. lia. }
    destruct (Ascii.eqb c "t").
    { intros H. apply literal_lt in H; simpl in *; lia. }
    destruct (Ascii.eqb c "f").
    { intros H. apply literal_lt in H; simpl in *; lia. }
    destruct (Ascii.eqb c "n").
    { intros H. apply literal_lt in H; simpl in *; lia. }
    destruct (JSON.numberLiteral (String c s1)) as [[n r']|] eqn:E; [|discriminate].
    intros H; inversion H; subst. apply numberLiteral_lt in E. simpl in *. lia.
  - intros first acc s o r. cbn [JSON.parseMembers].
    destruct (JSON.skip s) as [|c s1] eqn:Es; [discriminate|].
    apply skip_cons in Es.
    destruct (first && Ascii.eqb c "}").
    { intros H; inversion H; subst. lia. }
    destruct (Ascii.eqb c Js.dq); [|discriminate].
    destruct (JSON.chars s1) as [[key r1]|] eqn:Ek; [|discriminate].
    apply (chars_lt _ _ _ _ (le_n _)) in Ek.
    destruct (JSON.skip r1) as [|c2 r2] eqn:Es2; [discriminate|].
    apply skip_cons in Es2.
    destruct (Ascii.eqb c2 ":") eqn:Ec2;
      [apply Ascii.eqb_eq in Ec2; subst c2
      | destruct c2 as [[] [] [] [] [] [] [] []]; try discriminate; discriminate Ec2].
    destruct (JSON.parseValue fuel r2) as [[v r3]|] eqn:Ev; [|discriminate].
    apply IHv in Ev.
    destruct (JSON.skip r3) as [|c4 r4] eqn:Es4; [discriminate|].
    apply skip_cons in Es4.
    destruct (Ascii.eqb c4 ",") eqn:Ecomma.
    { apply Ascii.eqb_eq in Ecomma; subst c4. intros H. apply IHm in H. lia. }
    destruct (Ascii.eqb c4 "}") eqn:Eclose.
    { apply Ascii.eqb_eq in Eclose; subst c4. intros H; inversion H; subst. lia. }
    destruct c4 as [[] [] [] [] [] [] [] []]; try discriminate;
      try discriminate Ecomma; discriminate Eclose.
  - intros first acc s l r. cbn [JSON.parseElements].
    destruct (JSON.skip s) as [|c s1] eqn:Es; [discriminate|].
    pose proof (skip_le s) as Hle. rewrite Es in Hle.
    destruct (first && Ascii.eqb c "]").
    { intros H; inversion H; subst. simpl in Hle. lia. }
    destruct (JSON.parseValue fuel (String c s1)) as [[v r1]|] eqn:Ev; [|discriminate].
    apply IHv in Ev.
    destruct (JSON.skip r1) as [|c2 r2] eqn:Es2; [discriminate|].
    apply skip_cons in Es2.
    destruct (Ascii.eqb c2 ",") eqn:Ecomma.
    { apply Ascii.eqb_eq in Ecomma; subst c2. intros H. apply IHe in H. lia. }
    destruct (Ascii.eqb c2 "]") eqn:Eclose.
    { apply Ascii.eqb_eq in Eclose; subst c2. intros H; inversion H; subst. lia. }
    destruct c2 as [[] [] [] [] [] [] [] []]; try discriminate;
      try discriminate Ecomma; discriminate Eclose.
Qed.

Lemma more_fuel : forall fuel,
  (forall more s, fuel <= more -> 2 * String.length s + 1 <= fuel ->
      JSON.parseValue more s = JSON.parseValue fuel s) /\
  (forall more first acc s, fuel <= more -> 2 * String.length s + 2 <= fuel ->
      JSON.parseMembers more first acc s = JSON.parseMembers fuel first acc s) /\
  (forall more first acc s, fuel <= more -> 2 * String.length s + 2 <= fuel ->
      JSON.parseElements more first acc s = JSON.parseElements fuel first acc s).
Proof.
  induction fuel as [|fuel (IHv & IHm & IHe)]; [repeat split; intros; lia|].
  repeat split.
  - intros [|more] s Hle Hb; [lia|]. cbn [JSON.parseValue].
    destruct (JSON.skip s) as [|c s1] eqn:Es; [reflexivity|].
    apply skip_cons in Es.
    rewrite (IHm more true [] s1) by lia.
    rewrite (IHe more true [] s1) by lia.
    reflexivity.
  - intros [|more] first acc s Hle Hb; [lia|]. cbn [JSON.parseMembers].
    destruct (JSON.skip s) as [|c s1] eqn:Es; [reflexivity|].
    apply skip_cons in Es.
    destruct (first && Ascii.eqb c "}"); [reflexivity|].
    destruct (Ascii.eqb c Js.dq); [|reflexivity].
    destruct (JSON.chars s1) as [[key r1]|] eqn:Ek; [|reflexivity].
    apply (chars_lt _ _ _ _ (le_n _)) in Ek.
    destruct (JSON.skip r1) as [|c2 r2] eqn:Es2; [reflexivity|].
    apply skip_cons in Es2.
    rewrite (IHv more r2) by lia.
    destruct (JSON.parseValue fuel r2) as [[v r3]|] eqn:Ev;
      [|destruct c2 as [[] [] [] [] [] [] [] []]; reflexivity].
    apply (proj1 (consumes fuel)) in Ev.
    destruct (JSON.skip r3) as [|c4 r4] eqn:Es4;
      [destruct c2 as [[] [] [] [] [] [] [] []]; reflexivity|].
    apply skip_cons in Es4.
    rewrite (IHm more false (Object.set acc key v) r4) by lia.
    reflexivity.
  - intros [|more] first acc s Hle Hb; [lia|]. cbn [JSON.parseElements].
    destruct (JSON.skip s) as [|c s1] eqn:Es; [reflexivity|].
    pose proof (skip_le s) as Hs. rewrite Es in Hs.
    destruct (first && Ascii.eqb c "]"); [reflexivity|].
    rewrite (IHv more (String c s1)) by lia.
    destruct (JSON.parseValue fuel (String c s1)) as [[v r1]|] eqn:Ev; [|reflexivity].
    apply (proj1 (consumes fuel)) in Ev.
    destruct (JSON.skip r1) as [|c2 r2] eqn:Es2; [reflexivity|].
    apply skip_cons in Es2.
    rewrite (IHe more false (acc ++ [v]) r2) by (simpl in *; lia).
    reflexivity.
Qed.

(** The fuel [JSON.parseText] gives is enough: what it answers is what any
    larger fuel answers, so that [None] is a text that is not JSON, never a
    parse cut short. *)
Theorem parseText_fuel (text : string) (more : nat) :
  2 * String.length text + 2 <= more ->
  JSON.parseValue more text = JSON.parseValue (2 * String.length text + 2) text.
Proof.
  intros H. apply (proj1 (more_fuel (2 * String.length text + 2))); lia.
Qed.

(** ** The schema coercer *)

Lemma convertEntries_required convert shape :
  forall props req w pr w',
    convertEntries convert shape props req w = (Normal pr, w') ->
    snd pr =
      req ++ map fst (List.filter (fun entry => negb (isZodOptional (snd entry))) shape).
Proof.
  induction shape as [|[key value] shape IH]; intros props req w pr w' H; simpl in H.
  - inversion H; subst; simpl. now rewrite app_nil_r.
  - unfold bind in H. destruct (convert value w) as [[p|e] w1]; [|discriminate].
    apply IH in H. rewrite H. simpl.
    destruct (isZodOptional value); simpl.
    + reflexivity.
    + now rewrite <- app_assoc.
Qed.

(** C8. The coercer gives a union the wire description of its first
    alternative, and an optional or nullable wrapper the one of its inner
    schema; whether a property of an object is optional shows in the
    [required] list of the object only, which holds the names of the
    properties that are not optional, and is absent when there is none. *)
Theorem C8_unions_and_wrappers_collapse :
  (forall first rest,
      generateSchema (ZodUnion (first :: rest)) = generateSchema first) /\
  (forall inner, generateSchema (ZodOptional inner) = generateSchema inner) /\
  (forall inner, generateSchema (ZodNullable inner) = generateSchema inner) /\
  (forall shape w s w',
      generateSchema (ZodObject shape) w = (Normal s, w') ->
      required s = requiredNames shape).
Proof.
  repeat split; try reflexivity.
  intros shape w s w' H. unfold generateSchema in H. simpl in H.
  unfold bind in H.
  destruct (convertEntries zodSchemaToJsonSchema shape [] [] w) as [[pr|e] w1] eqn:E;
    [|discriminate].
  apply convertEntries_required in E. simpl in E.
  unfold ret in H. inversion H; subst; simpl. rewrite E. reflexivity.
Qed.

Lemma C8_witness :
  generateSchema (ZodObject profileShape) genesis = (Normal profileSchema, genesis) /\
  requiredNames profileShape = Some ["id"; "tag"].
Proof.
  split; [reflexivity|].
  symmetry.
  exact (proj2 (proj2 (proj2 C8_unions_and_wrappers_collapse))
           profileShape genesis profileSchema genesis eq_refl).
Defined.

(** ** Sessions *)

(** C9. Destroying a session manager twice leaves the manager and the world
    as destroying it once does, and neither call throws: the second one
    finds no session and does nothing. *)
Theorem C9_destroy_idempotent :
  forall (m : SessionManager) (w : World),
    fst (Session.destroy (m, w)) = Normal tt /\
    Session.destroy (snd (Session.destroy (m, w))) =
      (Normal tt, snd (Session.destroy (m, w))).
Proof.
  intros m w. unfold Session.destroy.
  destruct (session m) as [lm|] eqn:E; simpl.
  - split; reflexivity.
  - rewrite E. split; reflexivity.
Qed.

(** ** The function execution controller *)

Lemma call_name (c : FunctionCall) :
  getProperty (callValue c) "name" = Str (callName c).
Proof. reflexivity. Qed.

Lemma call_arguments (c : FunctionCall) :
  getProperty (callValue c) "arguments" = Obj (arguments c).
Proof. reflexivity. Qed.

Lemma checkRequired_missing (args : object) (field : string) :
  forall req,
    In field req ->
    Object.has args field = false ->
    exists text, checkRequired (Obj args) req = Normal (Some text).
Proof.
  induction req as [|f req IH]; intros Hin Hno; [contradiction|].
  simpl. destruct (Object.has args f) eqn:E.
  - destruct Hin as [->|Hin]; [congruence|]. now apply IH.
  - eauto.
Qed.

Lemma checkRequired_present (args : object) :
  forall req,
    (forall field, In field req -> Object.has args field = true) ->
    checkRequired (Obj args) req = Normal None.
Proof.
  induction req as [|f req IH]; intros H; [reflexivity|].
  simpl. rewrite (H f (or_introl eq_refl)). apply IH.
  intros field Hin. apply H. now right.
Qed.

Lemma warnUnexpected_trace props :
  forall keys w,
    warnUnexpected keys props w =
      (Normal tt,
       {| events :=
            events w ++
            map (fun key => Warned ("Unexpected parameter: " +:+ key))
              (List.filter (fun key => negb (Object.has props key)) keys);
          sessions := sessions w |}).
Proof.
  induction keys as [|key keys IH]; intros [ev n]; simpl.
  - unfold ret. now rewrite app_nil_r.
  - unfold bind. destruct (Object.has props key); simpl.
    + apply IH.
    + unfold warn, emit, modify, record; simpl. rewrite IH; simpl.
      now rewrite <- app_assoc.
Qed.

Lemma has_own_inherited {A} (o : list (string * A)) (key : string) :
  Object.own o key = None ->
  Object.mem key Object.prototype = false ->
  Object.has o key = false.
Proof. intros H1 H2. unfold Object.has. now rewrite H1. Qed.

(** C7, as amended.  Where the parameter schema of the registered
    definition declares its [properties] (or is not of type [object]), a
    call whose arguments omit a required name, other than the names every
    object inherits, is answered [{success: false}] and nothing else
    happens: the handler is not called.  A call that gives every required
    name is passed to the handler, each argument that [properties] does not
    name being warned about and no more. *)
Theorem C7_missing_required_short_circuits
    (registry : gmap string FunctionDefinition) (c : FunctionCall)
    (def : FunctionDefinition) (w : World) :
  registry !! callName c = Some def ->
  (type (parameters def) = "object" -> is_Some (properties (parameters def))) ->
  (forall field,
      In field (default [] (required (parameters def))) ->
      Object.own (arguments c) field = None ->
      Object.mem field Object.prototype = false ->
      exists text,
        executeFunctionCall (callValue c) registry w = (Normal (failure text), w)) /\
  (forall props,
      type (parameters def) = "object" ->
      properties (parameters def) = Some props ->
      (forall field,
          In field (default [] (required (parameters def))) ->
          Object.has (arguments c) field = true) ->
      executeFunctionCall (callValue c) registry w =
        (Normal (handled def (Obj (arguments c))),
         {| events :=
              events w ++ unexpectedWarnings props (arguments c) ++
              [Invoked (name def) (Obj (arguments c))];
            sessions := sessions w |})).
Proof.
  intros Hreg Hprops. split.
  - intros field Hin Hown Hproto.
    unfold executeFunctionCall. rewrite call_name, call_arguments. simpl.
    rewrite Hreg. unfold tryCatch, bind, validateArguments.
    destruct (String.eqb (type (parameters def)) "object") eqn:Etype; simpl.
    + apply String.eqb_eq in Etype. destruct (Hprops Etype) as [props Eprops].
      rewrite Eprops. unfold bind, lift.
      destruct (checkRequired_missing (arguments c) field _ Hin
                  (has_own_inherited _ _ Hown Hproto)) as [text Htext].
      rewrite Htext. simpl. eauto.
    + eauto.
  - intros props Etype Eprops Hall.
    unfold executeFunctionCall. rewrite call_name, call_arguments. simpl.
    rewrite Hreg. unfold tryCatch, bind, validateArguments.
    rewrite Etype, Eprops. simpl. unfold bind, lift.
    rewrite (checkRequired_present _ _ Hall). simpl.
    rewrite warnUnexpected_trace. simpl.
    unfold handled, unexpectedWarnings, Object.keys.
    destruct (handler def (Obj (arguments c))); simpl;
      unfold ret, record; simpl; now rewrite <- app_assoc.
Qed.

Lemma C7_witness :
  (exists text,
      executeFunctionCall (callValue callWithoutCity) (registryOf getWeather) genesis =
        (Normal (failure text), genesis)) /\
  executeFunctionCall (callValue callWithCity) (registryOf getWeather) genesis =
    (Normal {| success := true; result := Str "sunny"; error := None |},
     {| events := [Warned "Unexpected parameter: verbose";
                   Invoked "getWeather" (Obj (arguments callWithCity))];
        sessions := 0 |}).
Proof.
  assert (Hreg : registryOf getWeather !! "getWeather" = Some getWeather)
    by apply lookup_singleton_eq.
  assert (Hprops : type (parameters getWeather) = "object" ->
                   is_Some (properties (parameters getWeather)))
    by (intros _; eexists; reflexivity).
  split.
  - apply (proj1 (C7_missing_required_short_circuits
                    (registryOf getWeather) callWithoutCity getWeather genesis
                    Hreg Hprops) "city").
    + simpl. now left.
    + reflexivity.
    + reflexivity.
  - apply (proj2 (C7_missing_required_short_circuits
                    (registryOf getWeather) callWithCity getWeather genesis
                    Hreg Hprops) [("city", scalar "string")]).
    + reflexivity.
    + reflexivity.
    + intros field [<-|[]]. reflexivity.
Defined.

(** The claim C7 as the specification states it fails where the schema
    declares no [properties]: the call omits the required [city], and yet
    the handler is called and the result is a success. *)
Lemma C7_counterexample :
  In "city" (default [] (required (parameters looseWeather))) /\
  Object.own (arguments callWithoutCity) "city" = None /\
  executeFunctionCall (callValue callWithoutCity) (registryOf looseWeather) genesis =
    (Normal {| success := true; result := Str "sunny"; error := None |},
     {| events := [Invoked "getWeather" (Obj (arguments callWithoutCity))];
        sessions := 0 |}).
Proof.
  split; [simpl; now left|]. split; [reflexivity|].
  unfold executeFunctionCall. rewrite call_name, call_arguments. simpl.
  unfold registryOf. simpl. rewrite lookup_singleton_eq. reflexivity.
Qed.

(** C10. Where the parameter schema has type [object] and no [properties],
    the names of [required] are not looked at: whatever the arguments of the
    call, the handler is called with them, once, and its outcome is the
    result. *)
Theorem C10_no_properties_no_check
    (registry : gmap string FunctionDefinition) (c : FunctionCall)
    (def : FunctionDefinition) (w : World) :
  registry !! callName c = Some def ->
  type (parameters def) = "object" ->
  properties (parameters def) = None ->
  executeFunctionCall (callValue c) registry w =
    (Normal (handled def (Obj (arguments c))),
     record (Invoked (name def) (Obj (arguments c))) w).
Proof.
  intros Hreg Etype Eprops.
  unfold executeFunctionCall. rewrite call_name, call_arguments. simpl.
  rewrite Hreg. unfold tryCatch, bind, validateArguments.
  rewrite Etype, Eprops. simpl.
  unfold handled, lift. destruct (handler def (Obj (arguments c))); reflexivity.
Qed.

Lemma C10_witness :
  In "city" (default [] (required (parameters looseWeather))) /\
  Object.has (arguments callWithoutCity) "city" = false /\
  executeFunctionCall (callValue callWithoutCity) (registryOf looseWeather) genesis =
    (Normal {| success := true; result := Str "sunny"; error := None |},
     {| events := [Invoked "getWeather" (Obj (arguments callWithoutCity))];
        sessions := 0 |}).
Proof.
  split; [simpl; now left|]. split; [reflexivity|].
  apply (C10_no_properties_no_check (registryOf looseWeather) callWithoutCity
           looseWeather genesis).
  - apply lookup_singleton_eq.
  - reflexivity.
  - reflexivity.
Defined.

(** ** The protocol codec *)

Lemma uptoLast_prefix (close : ascii) :
  forall s p, Js.uptoLast close s = Some p -> exists after, s = p +:+ after.
Proof.
  induction s as [|c s IH]; intros p H; simpl in H; [discriminate|].
  destruct (Js.uptoLast close s) as [p'|] eqn:E.
  - inversion H; subst. destruct (IH p' eq_refl) as [after ->].
    now exists after.
  - destruct (Ascii.eqb c close); [|discriminate].
    inversion H; subst. now exists s.
Qed.

(** What the regular expression matches is a part of the text, and starts
    with an opening brace. *)
Lemma matchObject_substring :
  forall s m,
    matchObject s = Some m ->
    exists before body after,
      m = String "{" body /\ s = before +:+ m +:+ after.
Proof.
  induction s as [|c s IH]; intros m H; simpl in H; [discriminate|].
  destruct (Ascii.eqb c "{") eqn:Ec.
  - apply Ascii.eqb_eq in Ec; subst c.
    destruct (Js.uptoLast "}" s) as [body|] eqn:E.
    + inversion H; subst. destruct (uptoLast_prefix _ _ _ E) as [after ->].
      exists "", body, after. split; reflexivity.
    + destruct (IH m H) as (before & body & after & -> & ->).
      exists (String "{" before), body, after. split; reflexivity.
  - destruct (IH m H) as (before & body & after & -> & ->).
    exists (String c before), body, after. split; reflexivity.
Qed.

(** A text that starts with an opening brace is parsed to an object, or
    not parsed. *)
Lemma parseValue_brace (fuel : nat) (body : string) (v : value) (rest : string) :
  JSON.parseValue fuel (String "{" body) = Some (v, rest) ->
  exists fields, v = Obj fields.
Proof.
  destruct fuel as [|fuel]; simpl; [discriminate|].
  destruct (JSON.parseMembers fuel true [] body) as [[o r]|]; [|discriminate].
  intros H; inversion H. eauto.
Qed.

Lemma parse_brace_object (body : string) (v : value) :
  JSON.parse (String "{" body) = Normal v -> exists fields, v = Obj fields.
Proof.
  unfold JSON.parse, JSON.parseText.
  destruct (JSON.parseValue _ (String "{" body)) as [[v0 rest]|] eqn:E;
    [|discriminate].
  apply parseValue_brace in E. destruct E as [fields ->].
  destruct (JSON.skip rest); [|discriminate].
  intros H; inversion H. eauto.
Qed.

Lemma parseFunctionCall_regular_or_call (response : string) :
  parseFunctionCall response = Normal (regular response) \/
  exists m parsed,
    matchObject response = Some m /\ JSON.parse m = Normal parsed /\
    truthy (getProperty parsed "functionCall") = true /\
    parseFunctionCall response =
      Normal {| functionCall := getProperty parsed "functionCall";
                reasoning := getProperty parsed "reasoning";
                regularResponse := None |}.
Proof.
  unfold parseFunctionCall.
  destruct (matchObject response) as [m|]; [|now left].
  destruct (JSON.parse m) as [parsed|e] eqn:E; simpl; [|now left].
  destruct (truthy (getProperty parsed "functionCall")) eqn:T; simpl.
  - right. exists m, parsed. repeat split; auto.
  - now left.
Qed.

(** C5. The envelope of the specification is read as a call of [f] with the
    arguments [{a: 1}], and without a [regularResponse]; and a text none of
    whose parts is a JSON object is returned whole as [regularResponse],
    without a [functionCall] and without a [reasoning]. *)
Theorem C5_function_call_round_trip :
  (exists call thinking,
      parseFunctionCall callOfF =
        Normal {| functionCall := call; reasoning := thinking;
                  regularResponse := None |} /\
      getProperty call "name" = Str "f" /\
      getProperty call "arguments" = Obj [("a", int 1)]) /\
  (forall text,
      (forall before part after fields,
          text = before +:+ part +:+ after ->
          JSON.parse part <> Normal (Obj fields)) ->
      parseFunctionCall text =
        Normal {| functionCall := Undefined; reasoning := Undefined;
                  regularResponse := Some text |}).
Proof.
  split.
  - eexists _, _. split; [vm_compute; reflexivity|]. split; reflexivity.
  - intros text Hnone.
    destruct (parseFunctionCall_regular_or_call text)
      as [H|(m & parsed & Hm & Hp & _ & _)]; [exact H|].
    destruct (matchObject_substring _ _ Hm) as (before & body & after & -> & ->).
    destruct (parse_brace_object _ _ Hp) as [fields ->].
    now destruct (Hnone before (String "{" body) after fields eq_refl).
Qed.


Lemma prefixes_complete (part after : string) :
  In part (prefixes (part +:+ after)).
Proof.
  induction part as [|c part IH]; simpl.
  - destruct after; simpl; now left.
  - right. now apply in_map.
Qed.

Lemma suffixes_complete (before rest : string) :
  In rest (suffixes (before +:+ rest)).
Proof.
  induction before as [|c before IH]; simpl.
  - destruct rest; simpl; now left.
  - now right.
Qed.

Lemma parts_complete (before part after : string) :
  In part (parts (before +:+ part +:+ after)).
Proof.
  unfold parts. apply in_flat_map. exists (part +:+ after).
  split; [apply suffixes_complete | apply prefixes_complete].
Qed.

Lemma containsObject_false (text : string) :
  containsObject text = false ->
  forall before part after fields,
    text = before +:+ part +:+ after ->
    JSON.parse part <> Normal (Obj fields).
Proof.
  intros H before part after fields -> Hparse.
  unfold containsObject in H.
  assert (Hin := parts_complete before part after).
  assert (Hex : existsb isObjectText (parts (before +:+ part +:+ after)) = true).
  { apply existsb_exists. exists part. split; [exact Hin|].
    unfold isObjectText. now rewrite Hparse. }
  congruence.
Qed.

Lemma C5_witness :
  parseFunctionCall "The weather is fine today." =
    Normal {| functionCall := Undefined; reasoning := Undefined;
              regularResponse := Some "The weather is fine today." |}.
Proof.
  apply (proj2 C5_function_call_round_trip).
  apply containsObject_false. vm_compute. reflexivity.
Defined.

(** C6. [parseFunctionCall] returns for every text, and never throws.  Where
    the text has no braces to extract, where what is extracted is not JSON,
    and where the object that is parsed has no [functionCall] property, what
    it returns has the whole text as its [regularResponse], and neither a
    [functionCall] nor a [reasoning]. *)
Theorem C6_parse_never_throws (response : string) :
  (exists parsed, parseFunctionCall response = Normal parsed) /\
  (matchObject response = None ->
   parseFunctionCall response =
     Normal {| functionCall := Undefined; reasoning := Undefined;
               regularResponse := Some response |}) /\
  (forall m e,
      matchObject response = Some m -> JSON.parse m = Throw e ->
      parseFunctionCall response =
        Normal {| functionCall := Undefined; reasoning := Undefined;
                  regularResponse := Some response |}) /\
  (forall m fields,
      matchObject response = Some m -> JSON.parse m = Normal (Obj fields) ->
      Object.own fields "functionCall" = None ->
      parseFunctionCall response =
        Normal {| functionCall := Undefined; reasoning := Undefined;
                  regularResponse := Some response |}).
Proof.
  repeat split.
  - destruct (parseFunctionCall_regular_or_call response)
      as [H|(m & parsed & _ & _ & _ & H)]; eauto.
  - intros H. unfold parseFunctionCall. now rewrite H.
  - intros m e Hm He. unfold parseFunctionCall. now rewrite Hm, He.
  - intros m fields Hm Hp Hown. unfold parseFunctionCall.
    rewrite Hm, Hp. simpl. now rewrite Hown.
Qed.

Lemma C6_witness :
  parseFunctionCall "a } then { b" =
    Normal {| functionCall := Undefined; reasoning := Undefined;
              regularResponse := Some "a } then { b" |} /\
  parseFunctionCall "call {getTime} now" =
    Normal {| functionCall := Undefined; reasoning := Undefined;
              regularResponse := Some "call {getTime} now" |} /\
  parseFunctionCall (Js.q "{'answer': 42}") =
    Normal {| functionCall := Undefined; reasoning := Undefined;
              regularResponse := Some (Js.q "{'answer': 42}") |}.
Proof.
  split; [|split].
  - apply (proj1 (proj2 (C6_parse_never_throws "a } then { b"))).
    reflexivity.
  - apply (proj1 (proj2 (proj2 (C6_parse_never_throws "call {getTime} now")))
             "{getTime}" (SyntaxError "Unexpected token in JSON")).
    + reflexivity.
    + vm_compute. reflexivity.
  - apply (proj2 (proj2 (proj2 (C6_parse_never_throws (Js.q "{'answer': 42}"))))
             (Js.q "{'answer': 42}") [("answer", int 42)]).
    + reflexivity.
    + vm_compute. reflexivity.
    + reflexivity.
Defined.

(** ** The structured output controller *)

Section Retry.

Variable env : Environment.





Variable schema : Schema.
Variable full : string.
Variable maxR : nat.
Variable m : SessionManager.
Variable h : nat.

Hypothesis quota :
  forall tracked n, quotaTracker m = Some tracked -> quotaExhausted env tracked n = false.
Hypothesis malformed :
  forall n, exists text e,
    reply env h n = Normal text /\ validated schema text = Throw e.
Hypothesis distinct : forall e, String.eqb (errorFeedback e) full = false.


End Retry.




(** C4, as amended.  With the schema and the three replies of the
    scenario, [promptWithStructure] returns [{name: "Ann"}] from its second
    attempt: the first attempt reads [not json] and fails; the feedback
    prompt that follows it is a prompt of its own, whose reply,
    [not json again], is dropped; the second attempt sends the
    schema-annotated prompt again and reads the third reply. *)
Theorem C4_succeeds_on_the_second_attempt :
  exists firstError,
    validated (Plain nameSchema) "not json" = Throw firstError /\
    promptWithStructure annReplies "Who is it?" annOptions freshSession =
      (Normal (Obj [("name", Str "Ann")]),
       (atTurn (fst freshSession) 0 3,
        {| events :=
             [Created 0;
              Prompted 0 (fullPromptOf nameSchema "Who is it?");
              Prompted 0 (errorFeedback firstError);
              Prompted 0 (fullPromptOf nameSchema "Who is it?")];
           sessions := 1 |})).
Proof.
  eexists. split; vm_compute; reflexivity.
Qed.

(** The claim C4 as the specification states it, a success on the third
    attempt, fails: when the call returns, the schema-annotated prompt has
    been sent twice. *)
Lemma C4_counterexample :
  fst (promptWithStructure annReplies "Who is it?" annOptions freshSession) =
    Normal (Obj [("name", Str "Ann")]) /\
  promptsSent (fullPromptOf nameSchema "Who is it?")
    (snd (snd (promptWithStructure annReplies "Who is it?" annOptions freshSession)))
    = 2 /\
  promptsSent (fullPromptOf nameSchema "Who is it?")
    (snd (snd (promptWithStructure annReplies "Who is it?" annOptions freshSession)))
    <> 3.
Proof.
  split; [vm_compute; reflexivity|].
  split; [vm_compute; reflexivity|].
  vm_compute. discriminate.
Qed.

(** ** The agent state machine *)

Lemma quiet_ret {A} (a : A) : quiet (ret a).
Proof. intros w r w' H. inversion H; reflexivity. Qed.

Lemma quiet_lift {A} (o : Outcome A) : quiet (lift o).
Proof. intros w r w' H. inversion H; reflexivity. Qed.

Lemma quiet_emit (e : Event) : quiet (emit e).
Proof. intros w r w' H. inversion H; reflexivity. Qed.

Lemma quiet_bind {A B} (c : M A) (k : A -> M B) :
  quiet c -> (forall a, quiet (k a)) -> quiet (bind c k).
Proof.
  intros Hc Hk w r w' H. unfold bind in H.
  destruct (c w) as [[a|e] w1] eqn:E.
  - apply Hk in H. apply Hc in E. congruence.
  - inversion H; subst. now apply Hc in E.
Qed.

Lemma quiet_tryCatch {A} (c : M A) (k : JsError -> M A) :
  quiet c -> (forall e, quiet (k e)) -> quiet (tryCatch c k).
Proof.
  intros Hc Hk w r w' H. unfold tryCatch in H.
  destruct (c w) as [[a|e] w1] eqn:E.
  - inversion H; subst. now apply Hc in E.
  - apply Hk in H. apply Hc in E. congruence.
Qed.

Lemma quiet_warnUnexpected props keys : quiet (warnUnexpected keys props).
Proof.
  induction keys as [|key keys IH]; simpl.
  - apply quiet_ret.
  - apply quiet_bind; [|intros _; exact IH].
    destruct (Object.has props key); [apply quiet_ret | apply quiet_emit].
Qed.

Lemma quiet_validateArguments args parameters :
  quiet (validateArguments args parameters).
Proof.
  unfold validateArguments.
  destruct (negb _); [apply quiet_ret|].
  destruct (properties parameters); [|apply quiet_ret].
  apply quiet_bind; [apply quiet_lift|]. intros [text|]; [apply quiet_ret|].
  apply quiet_bind; [apply quiet_lift|]. intros keys.
  apply quiet_bind; [apply quiet_warnUnexpected|]. intros _. apply quiet_ret.
Qed.

Lemma quiet_executeFunctionCall call registry :
  quiet (executeFunctionCall call registry).
Proof.
  unfold executeFunctionCall.
  destruct (FunctionRegistry.get _ _).
  - apply quiet_tryCatch; [|intros e; apply quiet_ret].
    apply quiet_bind; [apply quiet_validateArguments|].
    intros [text|]; [apply quiet_ret|].
    apply quiet_bind; [apply quiet_emit|]. intros _.
    apply quiet_bind; [apply quiet_lift|]. intros r. apply quiet_ret.
  - apply quiet_bind; [apply quiet_lift|]. intros s. apply quiet_ret.
Qed.

(** Once the name of the callee can be printed, the execution of a call
    returns a result, and a result that is not a success carries no value. *)
Lemma executeFunctionCall_returns call registry w shown :
  Text.toString (getProperty call "name") = Normal shown ->
  exists r w',
    executeFunctionCall call registry w = (Normal r, w') /\
    (success r = false -> result r = Undefined).
Proof.
  intros Hshown. unfold executeFunctionCall.
  destruct (FunctionRegistry.get _ _) as [def|].
  - unfold tryCatch, bind.
    destruct (validateArguments _ _ w) as [[[text|]|e] w1].
    + eexists _, _. split; [reflexivity|]. reflexivity.
    + unfold emit, modify, lift, ret.
      destruct (handler def _) as [r|e].
      * eexists _, _. split; [reflexivity|]. discriminate.
      * eexists _, _. split; [reflexivity|]. reflexivity.
    + eexists _, _. split; [reflexivity|]. reflexivity.
  - unfold bind, lift. rewrite Hshown. eexists _, _. split; reflexivity.
Qed.

(** What a call returns does not depend on the world it is executed in. *)
Lemma validateArguments_anywhere args parameters (w w' : World) :
  fst (validateArguments args parameters w) =
  fst (validateArguments args parameters w').
Proof.
  unfold validateArguments.
  destruct (negb _); [reflexivity|].
  destruct (properties parameters) as [props|]; [|reflexivity].
  unfold bind, lift.
  destruct (checkRequired args _) as [[text|]|e]; try reflexivity.
  destruct (objectKeys args) as [keys|e]; [|reflexivity].
  now rewrite !warnUnexpected_trace.
Qed.

Lemma executeFunctionCall_anywhere call registry (w w' : World) :
  fst (executeFunctionCall call registry w) =
  fst (executeFunctionCall call registry w').
Proof.
  unfold executeFunctionCall.
  destruct (FunctionRegistry.get _ _) as [def|].
  - unfold tryCatch, bind.
    pose proof (validateArguments_anywhere (getProperty call "arguments")
                  (parameters def) w w') as Hv.
    destruct (validateArguments _ _ w) as [[[text|]|e] w1];
      destruct (validateArguments _ _ w') as [[[text'|]|e'] w1'];
      cbn [fst] in Hv; try discriminate Hv.
    + inversion Hv; subst. reflexivity.
    + unfold emit, modify, lift, ret. destruct (handler def _); reflexivity.
    + inversion Hv; subst. reflexivity.
  - unfold bind, lift, ret. destruct (Text.toString _); reflexivity.
Qed.

Section Loop.

Variable env : Environment.
Variable config : AgentConfig.
Variable registry : FunctionRegistry.t.
Variable h : nat.
Hypothesis run_is_steady : SteadyRun env config registry h.

Lemma loop_stopped (remaining : nat) (prompt : string) (a : BasicAgent.t) (w : World) :
  BasicAgent.shouldStop a = true ->
  BasicAgent.loop env config remaining prompt (a, w) =
  BasicAgent.maxIterationsReached (maxIterations config - remaining) (a, w).
Proof.
  intros H. destruct remaining; cbn [BasicAgent.loop]; unfold bind at 1;
    unfold BasicAgent.this; cbn [fst]; [reflexivity|]. now rewrite H.
Qed.

Lemma prompt_in_progress t st made stop input w :
  reads env config h t ->
  BasicAgent.withSession (Session.prompt env input) (inProgress registry h t st made stop, w) =
    (match reply env h t with
     | Normal text => Normal text
     | Throw e => Throw (SessionError "Failed to prompt session" (Some e))
     end,
     (inProgress registry h (S t) st made stop, record (Prompted h input) w)).
Proof.
  intros Hreads.
  unfold BasicAgent.withSession, inProgress. cbn [BasicAgent.session].
  unfold Session.prompt, tryCatch. cbn.
  rewrite (steady_quota _ _ _ _ run_is_steady t Hreads).
  destruct (reply env h t); reflexivity.
Qed.

Lemma signalled t st made (b : bool) :
  (if b then
     {| BasicAgent.session := BasicAgent.session (inProgress registry h t st made false);
        BasicAgent.registry := BasicAgent.registry (inProgress registry h t st made false);
        BasicAgent.status := BasicAgent.status (inProgress registry h t st made false);
        BasicAgent.steps := BasicAgent.steps (inProgress registry h t st made false);
        BasicAgent.shouldStop := true |}
   else inProgress registry h t st made false) =
  inProgress registry h t st made b.
Proof. destruct b; reflexivity. Qed.

Lemma parse_returns (text : string) :
  exists parsed, parseFunctionCall text = Normal parsed.
Proof.
  unfold parseFunctionCall. destruct (matchObject text); [|simpl; eauto].
  destruct (JSON.parse s); simpl; [|eauto].
  destruct (truthy _); eauto.
Qed.

Lemma formatFunctionResult_returns (callee : value) (o : ToolResult) (shown : string) :
  Text.toString callee = Normal shown ->
  (success o = false -> result o = Undefined) ->
  exists text,
    formatFunctionResult callee
      (if truthy (result o) then result o
       else match error o with Some text => Str text | None => Undefined end)
      (success o) = Normal text.
Proof.
  intros Hshown Hfail. unfold formatFunctionResult. rewrite Hshown. simpl.
  destruct (success o); [eauto|].
  rewrite (Hfail eq_refl). simpl. destruct (error o); simpl; eauto.
Qed.

Lemma observer_returns (n : nat) (step : AgentStep) (s : BasicAgent.t * World) :
  reads env config h n ->
  stepAt env registry h (S n) = Some step ->
  BasicAgent.callOnStep config step s = (Normal tt, s).
Proof.
  intros Hreads Hstep. unfold BasicAgent.callOnStep.
  destruct (onStep config) as [observer|] eqn:E; [|reflexivity].
  unfold lift.
  now rewrite (steady_observer _ _ _ _ run_is_steady observer n step Hreads E Hstep).
Qed.

(** One iteration of a steady run: it reads the reply that its number
    names, and adds to the steps the step that [history] tells. *)
Lemma one_round r prompt st w :
  S r <= maxIterations config ->
  sessions w = S h ->
  (forall j, j <= maxIterations config - S r -> stopSignal env h j = false) ->
  exists prompt' step w',
    BasicAgent.loop env config (S r) prompt
      (inProgress registry h (maxIterations config - S r) st
         (history env registry h (maxIterations config - S r)) false, w) =
    BasicAgent.loop env config r prompt'
      (inProgress registry h (S (maxIterations config - S r)) st
         (history env registry h (S (maxIterations config - S r)))
         (stopSignal env h (S (maxIterations config - S r))), w') /\
    sessions w' = S h /\
    history env registry h (S (maxIterations config - S r)) =
      history env registry h (maxIterations config - S r) ++ [step].
Proof.
  intros Hle Hw Hquiet.
  assert (reads env config h (maxIterations config - S r)) as Hreads
    by (split; [lia | exact Hquiet]).
  destruct (steady_replies _ _ _ _ run_is_steady _ Hreads) as (text & Hreply & Hgo).
  destruct (parse_returns text) as [parsed Hparsed].
  specialize (Hgo parsed Hparsed).
  cbn [BasicAgent.loop]. unfold bind at 1. unfold BasicAgent.this at 1. cbn [fst].
  unfold inProgress at 1. cbn [BasicAgent.shouldStop].
  fold (inProgress registry h (maxIterations config - S r) st
          (history env registry h (maxIterations config - S r)) false).
  unfold bind at 1. unfold BasicAgent.dateNow at 1.
  unfold bind at 1. unfold BasicAgent.awaiting at 1.
  rewrite (prompt_in_progress _ _ _ _ _ _ Hreads), Hreply.
  assert (Hcur : BasicAgent.current (record (Prompted h prompt) w) = h)
    by (unfold BasicAgent.current, record; simpl; now rewrite Hw).
  assert (Hnow : BasicAgent.current w = h)
    by (unfold BasicAgent.current; now rewrite Hw).
  cbn [snd]. rewrite Hcur, Hnow, signalled.
  unfold bind at 1. unfold lift at 1. rewrite Hparsed.
  destruct (truthy (functionCall parsed)) eqn:Hcall.
  - destruct Hgo as [shown Hshown].
    unfold bind at 1. unfold BasicAgent.this at 1. cbn [fst].
    unfold bind at 1. unfold inWorld at 1. cbn [snd fst].
    destruct (executeFunctionCall_returns (functionCall parsed) registry
                (record (Prompted h prompt) w) shown Hshown)
      as (o & w1 & Hexec & Hfail).
    unfold inProgress at 1. cbn [BasicAgent.registry].
    rewrite Hexec.
    destruct (formatFunctionResult_returns _ o shown Hshown Hfail) as [formatted Hformat].
    unfold bind at 1. unfold lift at 1. rewrite Hformat.
    unfold bind at 1. unfold BasicAgent.push at 1. unfold bind at 1.
    unfold BasicAgent.this at 1. cbn [fst].
    unfold BasicAgent.setSteps, modify.
    assert (stepAt env registry h (S (maxIterations config - S r)) =
              Some {| iteration := S (maxIterations config - S r);
                      timestamp := clock env h (S (maxIterations config - S r));
                      thought := reasoning parsed;
                      action := functionCall parsed;
                      observation := Some o |}) as Hstep.
    { unfold stepAt. cbn [pred]. rewrite Hreply, Hparsed, Hcall.
      rewrite (executeFunctionCall_anywhere _ _ genesis (record (Prompted h prompt) w)).
      now rewrite Hexec. }
    unfold bind at 1. rewrite (observer_returns _ _ _ Hreads Hstep).
    eexists _, _, w1. split; [|split].
    + cbn [history]. rewrite Hstep. reflexivity.
    + apply quiet_executeFunctionCall in Hexec. rewrite Hexec.
      unfold record; simpl. exact Hw.
    + cbn [history]. rewrite Hstep. reflexivity.
  - unfold bind at 1. unfold BasicAgent.this at 1. cbn [fst].
    assert (Hcomplete :
      forall s : BasicAgent.t * World,
        match stopCondition config return BasicAgent.Method bool with
        | Some condition =>
            lift (condition (BasicAgent.steps
                    (inProgress registry h (S (maxIterations config - S r)) st
                       (history env registry h (maxIterations config - S r))
                       (stopSignal env h (S (maxIterations config - S r))))))
        | None => ret (isTaskComplete (default "" (regularResponse parsed)))
        end s = (Normal false, s)).
    { intros s. destruct (stopCondition config) as [condition|].
      - unfold lift. cbn [inProgress BasicAgent.steps]. now rewrite Hgo.
      - unfold ret. now rewrite Hgo. }
    unfold bind at 1. rewrite Hcomplete.
    unfold bind at 1. unfold BasicAgent.push at 1. unfold bind at 1.
    unfold BasicAgent.this at 1. cbn [fst].
    unfold BasicAgent.setSteps, modify.
    assert (stepAt env registry h (S (maxIterations config - S r)) =
              Some {| iteration := S (maxIterations config - S r);
                      timestamp := clock env h (S (maxIterations config - S r));
                      thought := match regularResponse parsed with
                                 | Some response => Str response
                                 | None => Undefined
                                 end;
                      action := Undefined; observation := None |}) as Hstep.
    { unfold stepAt. cbn [pred]. now rewrite Hreply, Hparsed, Hcall. }
    unfold bind at 1. rewrite (observer_returns _ _ _ Hreads Hstep).
    eexists _, _, _. split; [|split].
    + cbn [history]. rewrite Hstep. reflexivity.
    + unfold record; simpl. exact Hw.
    + cbn [history]. rewrite Hstep. reflexivity.
Qed.

Lemma reached t st made (b : bool) (i : nat) (w : World) :
  BasicAgent.maxIterationsReached i (inProgress registry h t st made b, w) =
    (Normal {| AgentResult.status := if b then stopped else completed;
               AgentResult.steps := made;
               AgentResult.finalAnswer := BasicAgent.lastThought made;
               AgentResult.error := None;
               AgentResult.iterations := i |},
     (inProgress registry h t (if b then stopped else completed) made b, w)).
Proof. reflexivity. Qed.

Lemma loop_runs :
  forall r prompt st w,
    r <= maxIterations config ->
    sessions w = S h ->
    (forall j, j <= maxIterations config - r -> stopSignal env h j = false) ->
    length (history env registry h (maxIterations config - r)) =
      maxIterations config - r ->
    exists res a' w',
      BasicAgent.loop env config r prompt
        (inProgress registry h (maxIterations config - r) st
           (history env registry h (maxIterations config - r)) false, w) =
        (Normal res, (a', w')) /\
      (exists t' b,
          a' = inProgress registry h t' (AgentResult.status res)
                 (AgentResult.steps res) b) /\
      AgentResult.iterations res = length (AgentResult.steps res) /\
      AgentResult.finalAnswer res = BasicAgent.lastThought (AgentResult.steps res) /\
      ((forall i, maxIterations config - r < i <= maxIterations config ->
                  stopSignal env h i = false) ->
       AgentResult.iterations res = maxIterations config /\
       AgentResult.status res = completed) /\
      (forall k,
          maxIterations config - r < k <= maxIterations config ->
          stopSignal env h k = true ->
          (forall i, maxIterations config - r < i < k -> stopSignal env h i = false) ->
          AgentResult.iterations res = k /\ AgentResult.status res = stopped).
Proof.
  induction r as [|r IH]; intros prompt st w Hle Hw Hquiet Hlen.
  - cbn [BasicAgent.loop]. unfold bind, BasicAgent.this. cbn [fst].
    rewrite reached. eexists _, _, _. split; [reflexivity|].
    split; [eexists _, _; reflexivity|]. cbn.
    repeat split; try lia.
  - destruct (one_round r prompt st w Hle Hw Hquiet)
      as (prompt' & step & w' & Hround & Hw' & Hmade).
    rewrite Hround.
    assert (S (maxIterations config - S r) = maxIterations config - r) as Hnext
      by lia.
    rewrite Hnext in *.
    assert (length (history env registry h (maxIterations config - r)) =
              maxIterations config - r) as Hlen'.
    { rewrite Hmade, length_app, Hlen. simpl. lia. }
    destruct (stopSignal env h (maxIterations config - r)) eqn:Hsignal.
    + rewrite loop_stopped by reflexivity. rewrite reached.
      eexists _, _, _. split; [reflexivity|].
      split; [eexists _, _; reflexivity|]. cbn.
      split; [lia|]. split; [reflexivity|]. split.
      * intros Hnone. rewrite Hnone in Hsignal by lia. discriminate.
      * intros k Hk Hk1 Hk2. split; [|reflexivity].
        destruct (Nat.lt_trichotomy k (maxIterations config - r)) as [Hlt|[Heq|Hgt]];
          [lia| now symmetry |].
        rewrite Hk2 in Hsignal by lia. discriminate.
    + destruct (IH prompt' st w')
        as (res & a' & w'' & Hloop & Hshape & Hcount & Hanswer & Hnone & Hsome);
        [lia | exact Hw' | | exact Hlen' |].
      { intros j Hj.
        destruct (Nat.eq_dec j (maxIterations config - r)) as [->|Hne];
          [exact Hsignal | apply Hquiet; lia]. }
      exists res, a', w''. split; [exact Hloop|]. split; [exact Hshape|].
      split; [exact Hcount|]. split; [exact Hanswer|]. split.
      * intros H. apply Hnone. intros i Hi. apply H. lia.
      * intros k Hk Hk1 Hk2.
        assert (k <> maxIterations config - r) by (intros ->; congruence).
        apply Hsome; [lia | exact Hk1 |]. intros i Hi. apply Hk2. lia.
Qed.

End Loop.

Lemma create_in_progress (env : Environment) registry st made (w : World) :
  creation env (sessions w) = Available ->
  BasicAgent.awaiting env 0 (BasicAgent.withSession (Session.create env))
    ({| BasicAgent.session := Some (Session.new None);
        BasicAgent.registry := registry; BasicAgent.status := st;
        BasicAgent.steps := made; BasicAgent.shouldStop := false |}, w) =
  (Normal tt,
   (inProgress registry (sessions w) 0 st made (stopSignal env (sessions w) 0),
    {| events := events w ++ [Created (sessions w)];
       sessions := S (sessions w) |})).
Proof.
  intros Hcreate.
  unfold BasicAgent.awaiting, BasicAgent.withSession, Session.create, Session.new.
  cbn [BasicAgent.session]. rewrite Hcreate.
  cbn. destruct (stopSignal env (sessions w) 0); reflexivity.
Qed.

Lemma release_in_progress registry h t st made b (w : World) :
  BasicAgent.releaseSession (inProgress registry h t st made b, w) =
    ({| BasicAgent.session := None; BasicAgent.registry := registry;
        BasicAgent.status := st; BasicAgent.steps := made;
        BasicAgent.shouldStop := b |},
     record (Destroyed h) w).
Proof. reflexivity. Qed.

(** C1, as amended.  Take a run in which nothing fails and no reply
    satisfies the stop condition: the stop condition may be any function,
    as long as it answers [false] on the steps of the run each time the run
    asks it.  The run returns; the count of its iterations is the count of
    its steps, and [finalAnswer] is the thought of the last step.  Where
    [stop()] is never signalled, it makes exactly [maxIterations] iterations
    and is [completed].  Where [stop()] is first signalled during iteration
    [k] (0 being the creation of the session), the loop is left at the head
    of the next iteration: the run makes exactly [k] iterations and is
    [stopped]. *)
Theorem C1_bounded_iteration
    (env : Environment) (config : AgentConfig) (task : string)
    (a : BasicAgent.t) (w : World) :
  SteadyRun env config (BasicAgent.registry a) (sessions w) ->
  exists res a' w',
    BasicAgent.run env config task (a, w) = (Normal res, (a', w')) /\
    BasicAgent.status a' = AgentResult.status res /\
    AgentResult.iterations res = length (AgentResult.steps res) /\
    AgentResult.finalAnswer res = BasicAgent.lastThought (AgentResult.steps res) /\
    ((forall i, i <= maxIterations config -> stopSignal env (sessions w) i = false) ->
     AgentResult.iterations res = maxIterations config /\
     AgentResult.status res = completed) /\
    (forall k,
        k <= maxIterations config ->
        stopSignal env (sessions w) k = true ->
        (forall i, i < k -> stopSignal env (sessions w) i = false) ->
        AgentResult.iterations res = k /\ AgentResult.status res = stopped).
Proof.
  intros Hsteady.
  unfold BasicAgent.run. unfold bind at 1. unfold BasicAgent.reset, modify.
  unfold finally, tryCatch.
  unfold bind at 1. unfold BasicAgent.setSession at 1, modify.
  cbn [BasicAgent.registry BasicAgent.status BasicAgent.steps BasicAgent.shouldStop].
  unfold bind at 1.
  rewrite (create_in_progress env _ _ _ w (steady_creation _ _ _ _ Hsteady)).
  destruct (stopSignal env (sessions w) 0) eqn:Hzero.
  - rewrite loop_stopped by reflexivity. rewrite reached. rewrite release_in_progress.
    eexists _, _, _. split; [reflexivity|]. cbn.
    split; [reflexivity|]. split; [lia|]. split; [reflexivity|]. split.
    + intros Hnone. rewrite Hnone in Hzero by lia. discriminate.
    + intros k Hk Hk1 Hk2. split; [|reflexivity].
      destruct k as [|k]; [lia|]. rewrite Hk2 in Hzero by lia. discriminate.
  - pose proof (loop_runs env config (BasicAgent.registry a) (sessions w) Hsteady
                  (maxIterations config) task running
                  {| events := events w ++ [Created (sessions w)];
                     sessions := S (sessions w) |}) as Hruns.
    rewrite Nat.sub_diag in Hruns. cbn [history length] in Hruns.
    destruct Hruns
      as (res & a' & w' & Hloop & (t' & b & ->) & Hcount & Hanswer & Hnone & Hsome);
      [lia | reflexivity | | reflexivity |].
    { intros j Hj. assert (j = 0) as -> by lia. exact Hzero. }
    rewrite Hloop. rewrite release_in_progress.
    eexists _, _, _. split; [reflexivity|]. cbn.
    split; [reflexivity|]. split; [exact Hcount|]. split; [exact Hanswer|]. split.
    + intros H. apply Hnone. intros i Hi. apply H. lia.
    + intros k Hk Hk1 Hk2.
      assert (k <> 0) by (intros ->; congruence).
      apply Hsome; [lia | exact Hk1 |]. intros i Hi. apply Hk2. lia.
Qed.

Lemma chatty_is_steady (stop : nat -> nat -> bool) (h : nat) :
  SteadyRun (chatty stop) threeRounds ∅ h.
Proof.
  split.
  - reflexivity.
  - reflexivity.
  - intros n _. exists "Still working on it.". split; [reflexivity|].
    intros parsed Hparsed. vm_compute in Hparsed.
    inversion Hparsed; subst. reflexivity.
  - intros observer n step _ H. discriminate H.
Qed.

(** The stop condition of [cautious] is not the constant [false]; on the
    steps of this run it answers [false]. *)
Lemma asking_the_time_is_steady :
  SteadyRun askingTheTime cautious (registryOf getTime) 0.
Proof.
  split.
  - reflexivity.
  - reflexivity.
  - intros n [Hn _]. change (maxIterations cautious) with 3 in Hn.
    destruct n as [|[|[|n]]]; [| | |lia].
    + eexists. split; [reflexivity|].
      intros parsed Hparsed. vm_compute in Hparsed.
      inversion Hparsed; subst. cbn [functionCall truthy].
      eexists. reflexivity.
    + eexists. split; [reflexivity|].
      intros parsed Hparsed. vm_compute in Hparsed.
      inversion Hparsed; subst. vm_compute. reflexivity.
    + eexists. split; [reflexivity|].
      intros parsed Hparsed. vm_compute in Hparsed.
      inversion Hparsed; subst. vm_compute. reflexivity.
  - intros observer n step _ H. discriminate H.
Qed.

Lemma C1_witness :
  (exists res s,
      BasicAgent.run (chatty never) threeRounds "Tidy the notes" (idleAgent, genesis) =
        (Normal res, s) /\
      AgentResult.iterations res = 3 /\ AgentResult.status res = completed) /\
  (exists res s,
      BasicAgent.run (chatty duringFirstIteration) threeRounds "Tidy the notes"
        (idleAgent, genesis) = (Normal res, s) /\
      AgentResult.iterations res = 1 /\ AgentResult.status res = stopped) /\
  (exists res s,
      BasicAgent.run askingTheTime cautious "What time is it?" (timeAgent, genesis) =
        (Normal res, s) /\
      AgentResult.iterations res = 3 /\ AgentResult.status res = completed).
Proof.
  split; [|split].
  - destruct (C1_bounded_iteration (chatty never) threeRounds "Tidy the notes"
                idleAgent genesis (chatty_is_steady never 0))
      as (res & a' & w' & Hrun & _ & _ & _ & Hnone & _).
    exists res, (a', w'). split; [exact Hrun|]. apply Hnone. reflexivity.
  - destruct (C1_bounded_iteration (chatty duringFirstIteration) threeRounds
                "Tidy the notes" idleAgent genesis
                (chatty_is_steady duringFirstIteration 0))
      as (res & a' & w' & Hrun & _ & _ & _ & _ & Hsome).
    exists res, (a', w'). split; [exact Hrun|].
    apply (Hsome 1); [simpl; lia | reflexivity |].
    intros i Hi. assert (i = 0) by lia. subst i. reflexivity.
  - destruct (C1_bounded_iteration askingTheTime cautious "What time is it?"
                timeAgent genesis asking_the_time_is_steady)
      as (res & a' & w' & Hrun & _ & _ & _ & Hnone & _).
    exists res, (a', w'). split; [exact Hrun|]. apply Hnone. reflexivity.
Defined.

(** The claim C1 as the specification states it, exactly [maxIterations]
    iterations whether or not [stop()] is signalled, fails: with three
    iterations allowed, replies that never satisfy the stop condition, and
    [stop()] signalled during the first iteration, the run is [stopped]
    after one iteration. *)
Lemma C1_counterexample :
  (forall n,
      exists text,
        reply (chatty duringFirstIteration) 0 n = Normal text /\
        parseFunctionCall text =
          Normal {| functionCall := Undefined; reasoning := Undefined;
                    regularResponse := Some text |} /\
        isTaskComplete text = false) /\
  exists res s,
    BasicAgent.run (chatty duringFirstIteration) threeRounds "Tidy the notes"
      (idleAgent, genesis) = (Normal res, s) /\
    AgentResult.status res = stopped /\
    AgentResult.iterations res = 1 /\
    AgentResult.iterations res <> maxIterations threeRounds.
Proof.
  split.
  - intros n. exists "Still working on it.".
    split; [reflexivity|]. split; vm_compute; reflexivity.
  - eexists _, _. split; [vm_compute; reflexivity|].
    split; [reflexivity|]. split; [reflexivity|]. discriminate.
Qed.

(** The scenarios of the specification, run on the embedding.  A: a call of
    [getTime], then an answer that says the task is complete.  C: one
    iteration allowed and a reply in plain prose.  D: [stop()] before the
    second iteration. *)
Example scenario_A :
  exists res first second s,
    BasicAgent.run timeReplies withGetTime "What time is it?" (timeAgent, genesis) =
      (Normal res, s) /\
    AgentResult.status res = completed /\
    AgentResult.steps res = [first; second] /\
    observation first =
      Some {| success := true; result := Str "12:00"; error := None |} /\
    AgentResult.finalAnswer res = Str "The time is 12:00. Task complete.".
Proof.
  eexists _, _, _, _. split; [vm_compute; reflexivity|].
  repeat split; reflexivity.
Qed.

Example scenario_C :
  exists res s,
    BasicAgent.run (chatty never) oneRound "Tidy the notes" (idleAgent, genesis) =
      (Normal res, s) /\
    AgentResult.status res = completed /\
    AgentResult.iterations res = 1 /\
    AgentResult.finalAnswer res = Str "Still working on it.".
Proof.
  eexists _, _. split; [vm_compute; reflexivity|].
  repeat split; reflexivity.
Qed.

Example scenario_D :
  exists res s,
    BasicAgent.run (chatty duringFirstIteration) threeRounds "Tidy the notes"
      (idleAgent, genesis) = (Normal res, s) /\
    AgentResult.status res = stopped /\
    length (AgentResult.steps res) = 1.
Proof.
  eexists _, _. split; [vm_compute; reflexivity|].
  split; reflexivity.
Qed.

(** ** The planning and reflection controller *)

(** Whatever happens in it, a run leaves no session behind: its [finally]
    clause sets [this.session] to [null]. *)
Lemma run_releases_session env config task (s : BasicAgent.t * World) :
  BasicAgent.session (fst (snd (BasicAgent.run env config task s))) = None.
Proof.
  unfold BasicAgent.run, bind at 1, BasicAgent.reset, modify, finally.
  match goal with
  | |- context [tryCatch ?body ?handler ?state] =>
      destruct (tryCatch body handler state) as [r [a w]]
  end.
  unfold BasicAgent.releaseSession. cbn [snd fst].
  destruct (BasicAgent.session a) eqn:E; [reflexivity | exact E].
Qed.

(** Without a session, [reflect] asks nothing and counts nothing. *)
Lemma reflect_without_session env config (a : AdvancedAgent.t) (w : World) :
  BasicAgent.session (AdvancedAgent.super a) = None ->
  AdvancedAgent.reflect env config (a, w) =
    (Normal "No steps to reflect on", (a, w)).
Proof.
  intros H. unfold AdvancedAgent.reflect, bind, AdvancedAgent.this. cbn [fst].
  now rewrite H.
Qed.

Lemma run_during_outage config task (a : BasicAgent.t) (w : World) :
  BasicAgent.session a = None ->
  1 <= sessions w ->
  BasicAgent.run outage config task (a, w) =
    (Normal outageResult,
     (afterOutage (BasicAgent.registry a),
      {| events := events w ++ [Created (sessions w)];
         sessions := S (sessions w) |})).
Proof.
  intros Hnone Hw.
  unfold BasicAgent.run, bind at 1, BasicAgent.reset, modify, finally, tryCatch.
  unfold bind at 1. unfold BasicAgent.setSession at 1, modify.
  unfold bind at 1. unfold BasicAgent.awaiting, BasicAgent.withSession.
  cbn [BasicAgent.session]. unfold Session.create, Session.new. cbn [default].
  destruct (sessions w) as [|k] eqn:E; [lia|].
  cbn. reflexivity.
Qed.

Lemma reflectionLoop_during_outage :
  forall fuel task res registry w,
    AgentResult.status res = failed ->
    1 <= sessions w ->
    exists s,
      AdvancedAgent.reflectionLoop outage planning fuel task res
        ({| AdvancedAgent.super := afterOutage registry;
            AdvancedAgent.reflectionCount := 0 |}, w) = (Normal None, s).
Proof.
  induction fuel as [|fuel IH]; intros task res registry w Hfailed Hw.
  - cbn [AdvancedAgent.reflectionLoop]. unfold bind, AdvancedAgent.this. cbn [fst].
    rewrite Hfailed. cbn. eauto.
  - cbn [AdvancedAgent.reflectionLoop]. unfold bind at 1, AdvancedAgent.this. cbn [fst].
    rewrite Hfailed.
    cbn [AdvancedAgent.isCompleted negb AdvancedAgent.reflectionCount
         AdvancedAgent.super afterOutage BasicAgent.shouldStop andb].
    change (0 <? AdvancedAgent.reflectionBudget planning) with true.
    cbn [andb]. unfold bind at 1.
    rewrite reflect_without_session by reflexivity.
    unfold bind at 1. unfold AdvancedAgent.run, AdvancedAgent.inherited.
    cbn [AdvancedAgent.super AdvancedAgent.reflectionCount].
    rewrite run_during_outage by (try reflexivity; exact Hw).
    apply IH; [reflexivity | simpl; lia].
Qed.

(** C2: what the code does where the claim fails.  The browser grants the
    session of the planning phase and rejects every later one; the budget is
    two reflections.  Each inner run fails; [run] has set [this.session] to
    [null] before [reflect] is called, so that [reflect] returns at once and
    does not count; the guard of the loop stays true, and the loop is still
    running after any number of rounds. *)
Theorem C2_reflection_loop_never_ends :
  forall fuel,
    fst (AdvancedAgent.runWithPlanning outage planning fuel "Plan the trip"
           (idleAdvancedAgent, genesis)) = Normal None.
Proof.
  intros fuel.
  unfold AdvancedAgent.runWithPlanning. cbn [planning enablePlanning default negb].
  unfold bind at 1. unfold AdvancedAgent.inherited at 1, BasicAgent.reset, modify.
  unfold finally, tryCatch.
  unfold bind at 1. unfold AdvancedAgent.createPlanningSession.
  cbn.
  destruct (reflectionLoop_during_outage fuel "Plan the trip" outageResult ∅
              {| events :=
                   [Created 0;
                    Prompted 0 (AdvancedAgent.defaultPlanningPrompt "Plan the trip");
                    Created 1];
                 sessions := 2 |} eq_refl) as [[a w] Hloop]; [simpl; lia|].
  unfold afterOutage, outageResult in Hloop. rewrite Hloop. reflexivity.
Qed.

(** ** The helpers of the agents *)

Lemma filter_complement_length {A} (f : A -> bool) (l : list A) :
  length (List.filter (fun x => negb (f x)) l) + length (List.filter f l) = length l.
Proof.
  induction l as [|x l IH]; [reflexivity|].
  simpl. destruct (f x); simpl; lia.
Qed.

(** X1. The successful and the failed steps split a history: every step is
    in exactly one of the two lists, a step without an observation counts as
    successful, and [hasErrors] holds exactly when a step has failed. *)
Theorem successful_and_failed_steps_split (steps : list AgentStep) :
  length (AgentUtils.getSuccessfulSteps steps) +
  length (AgentUtils.getFailedSteps steps) = length steps /\
  (forall step,
      In step steps ->
      (In step (AgentUtils.getSuccessfulSteps steps) <->
       ~ In step (AgentUtils.getFailedSteps steps))) /\
  (forall step,
      In step steps -> observation step = None ->
      In step (AgentUtils.getSuccessfulSteps steps)) /\
  (AgentUtils.hasErrors steps = true <-> AgentUtils.getFailedSteps steps <> []).
Proof.
  unfold AgentUtils.getSuccessfulSteps, AgentUtils.getFailedSteps, AgentUtils.hasErrors.
  split; [apply filter_complement_length|]. split; [|split].
  - intros step Hin. rewrite !filter_In.
    destruct (AgentUtils.observedFailure step); simpl; split; intros H.
    + destruct H as [_ H]. discriminate.
    + exfalso. apply H. auto.
    + intros [_ H']. discriminate.
    + auto.
  - intros step Hin Hnone. apply filter_In. split; [exact Hin|].
    unfold AgentUtils.observedFailure. now rewrite Hnone.
  - rewrite existsb_exists. split.
    + intros (step & Hin & Hf) Hempty.
      assert (In step (List.filter AgentUtils.observedFailure steps)) as H
        by (apply filter_In; auto).
      rewrite Hempty in H. destruct H.
    + intros H.
      destruct (List.filter AgentUtils.observedFailure steps) as [|step l] eqn:E;
        [congruence|].
      exists step. apply filter_In. rewrite E. now left.
Qed.

Lemma successful_and_failed_steps_split_witness :
  In answered (AgentUtils.getSuccessfulSteps [searched; answered]) /\
  AgentUtils.hasErrors [searched; answered] = true.
Proof.
  destruct (successful_and_failed_steps_split [searched; answered])
    as (_ & _ & Hnone & Herrors).
  split.
  - apply Hnone; [right; left; reflexivity | reflexivity].
  - apply Herrors. discriminate.
Defined.

Lemma lastAnswer_app (later earlier : list AgentStep) :
  Forall (fun step => AgentUtils.answers step = false) later ->
  AgentUtils.lastAnswer (later ++ earlier) = AgentUtils.lastAnswer earlier.
Proof.
  induction 1 as [|step later Hstep _ IH]; [reflexivity|].
  simpl. now rewrite Hstep.
Qed.

(** X2. [extractFinalAnswer] returns the thought of the latest step that has
    a thought and no action, whatever comes before it and however many
    function calls come after it; it returns [undefined] exactly when no
    step is of that kind.  When the last step is of that kind, the stopping
    condition [answerProvided] holds. *)
Theorem extractFinalAnswer_is_the_latest_answer :
  (forall before step after,
      AgentUtils.answers step = true ->
      Forall (fun later => AgentUtils.answers later = false) after ->
      AgentUtils.extractFinalAnswer (before ++ step :: after) = thought step) /\
  (forall steps,
      AgentUtils.extractFinalAnswer steps = Undefined <->
      Forall (fun step => AgentUtils.answers step = false) steps) /\
  (forall before step,
      AgentUtils.answers step = true ->
      AgentUtils.StoppingConditions.answerProvided (before ++ [step]) = true).
Proof.
  split; [|split].
  3:{ intros before step Hstep.
      unfold AgentUtils.StoppingConditions.answerProvided, AgentUtils.isTaskComplete.
      now rewrite last_snoc, Hstep. }
  - intros before step after Hstep Hafter. unfold AgentUtils.extractFinalAnswer.
    rewrite rev_app_distr. simpl. rewrite <- !app_assoc.
    rewrite lastAnswer_app.
    + simpl. now rewrite Hstep.
    + apply List.Forall_forall. intros x Hx. rewrite <- in_rev in Hx.
      rewrite List.Forall_forall in Hafter. auto.
  - intros steps. unfold AgentUtils.extractFinalAnswer.
    assert (forall l, AgentUtils.lastAnswer l = Undefined <->
                      Forall (fun step => AgentUtils.answers step = false) l) as H.
    { induction l as [|step l IH]; simpl.
      - split; auto.
      - destruct (AgentUtils.answers step) eqn:E.
        + split.
          * intros Hu. unfold AgentUtils.answers in E. rewrite Hu in E. discriminate.
          * intros Hall. inversion Hall; congruence.
        + rewrite IH. split; [auto|]. intros Hall. now inversion Hall. }
    rewrite H. rewrite !List.Forall_forall. split; intros Hall x Hx; apply Hall.
    + now apply in_rev in Hx.
    + now apply in_rev.
Qed.

Lemma extractFinalAnswer_is_the_latest_answer_witness :
  AgentUtils.extractFinalAnswer ([searched] ++ answered :: [searched]) =
    Str "It is 42" /\
  AgentUtils.extractFinalAnswer [searched] = Undefined.
Proof.
  split.
  - apply (proj1 extractFinalAnswer_is_the_latest_answer
             [searched] answered [searched]).
    + reflexivity.
    + repeat constructor.
  - apply (proj1 (proj2 extractFinalAnswer_is_the_latest_answer) [searched]).
    repeat constructor.
Defined.

Lemma countFunctionCalls_app (steps more : list AgentStep) :
  AgentUtils.countFunctionCalls (steps ++ more) =
  AgentUtils.countFunctionCalls steps + AgentUtils.countFunctionCalls more.
Proof.
  unfold AgentUtils.countFunctionCalls. rewrite List.filter_app. apply length_app.
Qed.

(** The stopping condition [maxFunctionCalls] latches: once a history has
    reached the limit, every history that extends it has reached it too; a
    limit of zero or less is reached by every history. *)
Lemma maxFunctionCalls_latches (max : Z) (steps more : list AgentStep) :
  (AgentUtils.StoppingConditions.maxFunctionCalls max steps = true ->
   AgentUtils.StoppingConditions.maxFunctionCalls max (steps ++ more) = true) /\
  ((max <= 0)%Z -> AgentUtils.StoppingConditions.maxFunctionCalls max steps = true).
Proof.
  unfold AgentUtils.StoppingConditions.maxFunctionCalls. rewrite countFunctionCalls_app.
  split; intros H.
  - apply Z.leb_le in H. apply Z.leb_le. lia.
  - apply Z.leb_le. lia.
Qed.

Lemma slice_last {A} (front recent : list A) :
  Array.slice (- Z.of_nat (length recent)) (front ++ recent) =
  if length recent =? 0 then front ++ recent else recent.
Proof.
  unfold Array.slice. rewrite length_app.
  destruct (length recent) as [|n] eqn:E.
  - simpl. rewrite Z.min_l by lia. reflexivity.
  - replace (- Z.of_nat (S n) <? 0)%Z with true by (symmetry; apply Z.ltb_lt; lia).
    rewrite Z.max_l by lia.
    replace (Z.to_nat (Z.of_nat (length front + S n) + - Z.of_nat (S n)))
      with (length front) by lia.
    simpl. rewrite skipn_app, skipn_all, Nat.sub_diag. reflexivity.
Qed.

(** X3. For [n >= 1], [noProgressAfter(n)] reads the last [n] steps and
    nothing else, and is false on a shorter history; [noProgressAfter(0)]
    reads the whole history, [slice(-0)] being [slice(0)]. *)
Theorem noProgressAfter_reads_the_last_steps :
  (forall front recent,
      0 < length recent ->
      AgentUtils.StoppingConditions.noProgressAfter
        (Z.of_nat (length recent)) (front ++ recent) =
      forallb AgentUtils.observedFailure recent) /\
  (forall n steps,
      length steps < n ->
      AgentUtils.StoppingConditions.noProgressAfter (Z.of_nat n) steps = false) /\
  (forall steps,
      AgentUtils.StoppingConditions.noProgressAfter 0 steps =
      forallb AgentUtils.observedFailure steps).
Proof.
  unfold AgentUtils.StoppingConditions.noProgressAfter. split; [|split].
  - intros front recent Hn. rewrite slice_last.
    rewrite length_app.
    replace (Z.of_nat (length front + length recent) <? Z.of_nat (length recent))%Z
      with false by (symmetry; apply Z.ltb_ge; lia).
    destruct (length recent); [lia | reflexivity].
  - intros n steps Hn.
    replace (Z.of_nat (length steps) <? Z.of_nat n)%Z with true
      by (symmetry; apply Z.ltb_lt; lia).
    reflexivity.
  - intros steps.
    replace (Z.of_nat (length steps) <? 0)%Z with false
      by (symmetry; apply Z.ltb_ge; lia).
    unfold Array.slice. simpl. rewrite Z.min_l by lia. reflexivity.
Qed.

Lemma noProgressAfter_reads_the_last_steps_witness :
  AgentUtils.StoppingConditions.noProgressAfter 1 ([answered] ++ [searched]) = true /\
  AgentUtils.StoppingConditions.noProgressAfter 2 [searched] = false.
Proof.
  split.
  - apply (proj1 noProgressAfter_reads_the_last_steps [answered] [searched]).
    simpl. lia.
  - apply (proj1 (proj2 noProgressAfter_reads_the_last_steps) 2 [searched]).
    simpl. lia.
Defined.

Lemma existsb_map {A B} (f : B -> bool) (g : A -> B) (l : list A) :
  existsb f (map g l) = existsb (fun x => f (g x)) l.
Proof.
  induction l as [|x l IH]; [reflexivity|]. simpl. now rewrite IH.
Qed.

Lemma last_snoc_step (front : list AgentStep) (step : AgentStep) :
  last (front ++ [step]) = Some step.
Proof. apply last_snoc. Qed.

(** X4. [keywordDetected] reads the thought of the last step only, and
    without regard to the case of its letters or of the keywords'; a last
    thought that is there and is not a string makes it throw a TypeError. *)
Theorem keywordDetected_reads_the_last_thought :
  (forall keywords keywords' front front' step step' text text',
      thought step = Str text ->
      thought step' = Str text' ->
      Js.toLowerCase text = Js.toLowerCase text' ->
      map Js.toLowerCase keywords = map Js.toLowerCase keywords' ->
      AgentUtils.StoppingConditions.keywordDetected keywords (front ++ [step]) =
      AgentUtils.StoppingConditions.keywordDetected keywords' (front' ++ [step'])) /\
  (forall keywords front step,
      truthy (thought step) = true ->
      (forall text, thought step <> Str text) ->
      AgentUtils.StoppingConditions.keywordDetected keywords (front ++ [step]) =
      Throw (TypeError "lastStep.thought.toLowerCase is not a function")).
Proof.
  unfold AgentUtils.StoppingConditions.keywordDetected. split.
  - intros keywords keywords' front front' step step' text text' Hs Hs' Ht Hk.
    rewrite !last_snoc_step, Hs, Hs'.
    assert (truthy (Str text) = truthy (Str text')) as Htruthy.
    { simpl. destruct text, text'; simpl in *; congruence. }
    rewrite Htruthy. destruct (truthy (Str text')); simpl; [|reflexivity].
    rewrite Ht.
    rewrite <- (existsb_map (fun k => Js.includes (Js.toLowerCase text') k)
                  Js.toLowerCase keywords).
    rewrite <- (existsb_map (fun k => Js.includes (Js.toLowerCase text') k)
                  Js.toLowerCase keywords').
    now rewrite Hk.
  - intros keywords front step Ht Hs. rewrite last_snoc_step, Ht. simpl.
    destruct (thought step) eqn:E; try reflexivity.
    exfalso. now apply (Hs s).
Qed.

Lemma keywordDetected_reads_the_last_thought_witness :
  AgentUtils.StoppingConditions.keywordDetected ["DONE"]
    ([searched] ++ [concluded "All done."]) =
  AgentUtils.StoppingConditions.keywordDetected ["done"]
    ([] ++ [concluded "ALL DONE."]) /\
  AgentUtils.StoppingConditions.keywordDetected ["done"] ([searched] ++ [reckoned]) =
  Throw (TypeError "lastStep.thought.toLowerCase is not a function").
Proof.
  split.
  - apply (proj1 keywordDetected_reads_the_last_thought ["DONE"] ["done"]
             [searched] [] (concluded "All done.") (concluded "ALL DONE.")
             "All done." "ALL DONE."); reflexivity.
  - apply (proj2 keywordDetected_reads_the_last_thought ["done"] [searched] reckoned).
    + reflexivity.
    + intros text H. discriminate H.
Defined.

Lemma consult_app (strategy : AgentStep -> St nat (option string))
    (steps more : list AgentStep) (retries : nat) :
  (forall step r, exists answer r', strategy step r = (Normal answer, r')) ->
  AgentUtils.consult strategy (steps ++ more) retries =
  match AgentUtils.consult strategy steps retries with
  | (Normal advice, r) =>
      match AgentUtils.consult strategy more r with
      | (Normal advice', r') => (Normal (advice ++ advice'), r')
      | (Throw e, r') => (Throw e, r')
      end
  | (Throw e, r) => (Throw e, r)
  end.
Proof.
  intros Htotal. revert retries.
  induction steps as [|step steps IH]; intros retries.
  - simpl. unfold ret.
    destruct (AgentUtils.consult strategy more retries) as [[l|e] r]; reflexivity.
  - simpl. unfold bind, ret.
    destruct (Htotal step retries) as (answer & r' & ->).
    rewrite IH.
    destruct (AgentUtils.consult strategy steps r') as [[l|e] r1]; [|reflexivity].
    destruct (AgentUtils.consult strategy more r1) as [[l'|e] r2]; reflexivity.
Qed.

Lemma createRetryStrategy_returns (maxRetries : option nat) (step : AgentStep)
    (retries : nat) :
  exists answer r',
    AgentUtils.createRetryStrategy maxRetries step retries = (Normal answer, r').
Proof.
  unfold AgentUtils.createRetryStrategy.
  destruct (AgentUtils.observedFailure step && (retries <? default 3 maxRetries));
    [eauto|].
  destruct (default 3 maxRetries <=? retries); eauto.
Qed.

Lemma consult_failures (maxRetries : option nat) :
  forall failures retries,
    Forall (fun step => AgentUtils.observedFailure step = true) failures ->
    retries + length failures <= default 3 maxRetries ->
    exists advice,
      AgentUtils.consult (AgentUtils.createRetryStrategy maxRetries) failures retries =
        (Normal advice, retries + length failures) /\
      length advice = length failures.
Proof.
  induction failures as [|step failures IH]; intros retries Hall Hle.
  - exists []. simpl. rewrite Nat.add_0_r. split; reflexivity.
  - inversion Hall as [|? ? Hstep Hrest]; subst. simpl in Hle.
    destruct (IH (S retries) Hrest) as (advice & Hrun & Hlen); [lia|].
    simpl. unfold bind at 1. unfold AgentUtils.createRetryStrategy at 1.
    rewrite Hstep.
    replace (retries <? default 3 maxRetries) with true
      by (symmetry; apply Nat.ltb_lt; lia).
    cbn [andb]. unfold bind at 1. rewrite Hrun. unfold ret.
    replace (retries + S (length failures)) with (S retries + length failures) by lia.
    eexists. split; [reflexivity|]. simpl. now rewrite Hlen.
Qed.

Lemma consult_spent (maxRetries : option nat) :
  forall later retries,
    default 3 maxRetries <= retries ->
    AgentUtils.consult (AgentUtils.createRetryStrategy maxRetries) later retries =
      (Normal (map (fun _ => Some AgentUtils.maxRetriesReached) later), retries).
Proof.
  induction later as [|step later IH]; intros retries Hle; [reflexivity|].
  simpl. unfold bind at 1. unfold AgentUtils.createRetryStrategy at 1.
  replace (retries <? default 3 maxRetries) with false
    by (symmetry; apply Nat.ltb_ge; lia).
  rewrite andb_false_r.
  replace (default 3 maxRetries <=? retries) with true
    by (symmetry; apply Nat.leb_le; lia).
  unfold bind at 1. rewrite IH by exact Hle. reflexivity.
Qed.

(** X5. A retry strategy never starts over once its limit is reached: after
    [maxRetries] failed steps in a row it answers every later step, failed
    or not, with the advice to give the best answer, and its counter stays
    at the limit.  Before the limit, a step that did not fail sets the
    counter back to zero and gets no advice. *)
Theorem retry_strategy_latches_at_the_limit (maxRetries : option nat) :
  (forall failures later,
      length failures = default 3 maxRetries ->
      Forall (fun step => AgentUtils.observedFailure step = true) failures ->
      exists advice,
        length advice = length failures /\
        AgentUtils.consult (AgentUtils.createRetryStrategy maxRetries)
          (failures ++ later) 0 =
          (Normal (advice ++ map (fun _ => Some AgentUtils.maxRetriesReached) later),
           default 3 maxRetries)) /\
  (forall step retries,
      retries < default 3 maxRetries ->
      AgentUtils.observedFailure step = false ->
      AgentUtils.createRetryStrategy maxRetries step retries = (Normal None, 0)).
Proof.
  split.
  - intros failures later Hlen Hall.
    destruct (consult_failures maxRetries failures 0 Hall) as (advice & Hrun & Hl);
      [simpl; lia|].
    exists advice. split; [exact Hl|].
    rewrite consult_app by (intros; apply createRetryStrategy_returns).
    rewrite Hrun. simpl. rewrite consult_spent by lia.
    now rewrite Hlen.
  - intros step retries Hlt Hok. unfold AgentUtils.createRetryStrategy.
    rewrite Hok. simpl.
    replace (default 3 maxRetries <=? retries) with false
      by (symmetry; apply Nat.leb_gt; lia).
    reflexivity.
Qed.

Lemma retry_strategy_latches_at_the_limit_witness :
  (exists advice,
      length advice = 1 /\
      AgentUtils.consult (AgentUtils.createRetryStrategy (Some 1))
        ([searched] ++ [answered; searched]) 0 =
        (Normal (advice ++ [Some AgentUtils.maxRetriesReached;
                            Some AgentUtils.maxRetriesReached]), 1)) /\
  AgentUtils.createRetryStrategy None answered 2 = (Normal None, 0).
Proof.
  split.
  - apply (proj1 (retry_strategy_latches_at_the_limit (Some 1))
             [searched] [answered; searched]).
    + reflexivity.
    + repeat constructor.
  - apply (proj2 (retry_strategy_latches_at_the_limit None) answered 2).
    + simpl. lia.
    + reflexivity.
Defined.

(** ** The stored history *)

Lemma filter_of_filter_out {A} (f : A -> bool) (l : list A) :
  List.filter f (List.filter (fun x => negb (f x)) l) = [].
Proof.
  induction l as [|x l IH]; [reflexivity|].
  simpl. destruct (f x) eqn:E; simpl; [exact IH|]. now rewrite E.
Qed.

Lemma filter_skipn_nil {A} (f : A -> bool) (n : nat) :
  forall l, List.filter f l = [] -> List.filter f (skipn n l) = [].
Proof.
  induction n as [|n IH]; intros l H; [exact H|].
  destruct l as [|x l]; [reflexivity|].
  simpl in *. destruct (f x); [discriminate|]. now apply IH.
Qed.

Lemma filter_idempotent {A} (f : A -> bool) (l : list A) :
  List.filter f (List.filter f l) = List.filter f l.
Proof.
  induction l as [|x l IH]; [reflexivity|].
  simpl. destruct (f x) eqn:E; simpl; [|exact IH]. now rewrite E, IH.
Qed.

(** X6. [compressHistory] never drops a system prompt: whatever the bound,
    the result holds every system prompt of the history, in their order,
    and what it drops is a run of the oldest other prompts. *)
Theorem compressHistory_keeps_the_system_prompts
    (prompts : list SessionStorage.InitialPrompt) (maxLength : option Z) :
  List.filter SessionStorage.isSystem
    (SessionStorage.compressHistory prompts maxLength) =
    List.filter SessionStorage.isSystem prompts /\
  exists dropped,
    List.filter (fun p => negb (SessionStorage.isSystem p)) prompts =
      dropped ++
      List.filter (fun p => negb (SessionStorage.isSystem p))
        (SessionStorage.compressHistory prompts maxLength).
Proof.
  unfold SessionStorage.compressHistory.
  destruct (Z.of_nat (length prompts) <=? default 10%Z maxLength)%Z.
  - split; [reflexivity|]. exists []. reflexivity.
  - unfold Array.slice.
    set (k := Z.to_nat _).
    set (others := List.filter (fun p => negb (SessionStorage.isSystem p)) prompts).
    split.
    + rewrite List.filter_app, filter_idempotent.
      rewrite filter_skipn_nil by apply filter_of_filter_out.
      apply app_nil_r.
    + exists (firstn k others).
      rewrite List.filter_app.
      assert (List.filter (fun p => negb (SessionStorage.isSystem p))
                (List.filter SessionStorage.isSystem prompts) = []) as ->.
      { clear. induction prompts as [|p l IH]; [reflexivity|].
        simpl. destruct (SessionStorage.isSystem p) eqn:E; simpl; [|exact IH].
        now rewrite E. }
      simpl.
      assert (forall l, Forall (fun p => negb (SessionStorage.isSystem p) = true) l ->
                        List.filter (fun p => negb (SessionStorage.isSystem p)) l = l)
        as Hid.
      { induction 1 as [|p l Hp _ IH]; [reflexivity|]. simpl. now rewrite Hp, IH. }
      rewrite Hid.
      * symmetry. apply firstn_skipn.
      * apply List.Forall_forall. intros p Hp.
        assert (In p others) as Hin.
        { rewrite <- (firstn_skipn k others). apply in_or_app. now right. }
        apply filter_In in Hin. tauto.
Qed.

Lemma compress_length (prompts : list SessionStorage.InitialPrompt) :
  length prompts =
  length (List.filter SessionStorage.isSystem prompts) +
  length (List.filter (fun p => negb (SessionStorage.isSystem p)) prompts).
Proof.
  rewrite <- (filter_complement_length SessionStorage.isSystem prompts). lia.
Qed.

Lemma compressHistory_short_of_system_prompts
    (prompts : list SessionStorage.InitialPrompt) (maxLength : Z) :
  (Z.of_nat (length (List.filter SessionStorage.isSystem prompts)) < maxLength)%Z ->
  Z.of_nat (length (SessionStorage.compressHistory prompts (Some maxLength))) =
    Z.min (Z.of_nat (length prompts)) maxLength.
Proof.
  intros Hsys. unfold SessionStorage.compressHistory. simpl.
  destruct (Z.of_nat (length prompts) <=? maxLength)%Z eqn:E.
  - apply Z.leb_le in E. lia.
  - apply Z.leb_gt in E. rewrite length_app. unfold Array.slice.
    pose proof (compress_length prompts) as Hlen.
    replace (- maxLength +
             Z.of_nat (length (List.filter SessionStorage.isSystem prompts)) <? 0)%Z
      with true by (symmetry; apply Z.ltb_lt; lia).
    rewrite length_skipn. lia.
Qed.

Lemma compressHistory_full_of_system_prompts
    (prompts : list SessionStorage.InitialPrompt) (maxLength : Z) :
  (maxLength <= Z.of_nat (length (List.filter SessionStorage.isSystem prompts)))%Z ->
  (maxLength < Z.of_nat (length prompts))%Z ->
  (maxLength <
   Z.of_nat (length (SessionStorage.compressHistory prompts (Some maxLength))))%Z /\
  (maxLength = Z.of_nat (length (List.filter SessionStorage.isSystem prompts)) ->
   SessionStorage.compressHistory prompts (Some maxLength) =
     List.filter SessionStorage.isSystem prompts ++
     List.filter (fun p => negb (SessionStorage.isSystem p)) prompts).
Proof.
  intros Hsys Hlong. unfold SessionStorage.compressHistory. simpl.
  replace (Z.of_nat (length prompts) <=? maxLength)%Z with false
    by (symmetry; apply Z.leb_gt; lia).
  pose proof (compress_length prompts) as Hlen.
  unfold Array.slice.
  replace (- maxLength +
           Z.of_nat (length (List.filter SessionStorage.isSystem prompts)) <? 0)%Z
    with false by (symmetry; apply Z.ltb_ge; lia).
  split.
  - rewrite length_app, length_skipn. lia.
  - intros ->.
    replace (- Z.of_nat (length (List.filter SessionStorage.isSystem prompts)) +
             Z.of_nat (length (List.filter SessionStorage.isSystem prompts)))%Z
      with 0%Z by lia.
    rewrite Z.min_l by lia. reflexivity.
Qed.

(** X7. Whether [compressHistory] meets its bound depends on the system
    prompts.  When fewer than [maxLength] prompts are system prompts, the
    result is as long as the history or as [maxLength], whichever is less.
    When [maxLength] or more are, a history longer than [maxLength] stays
    longer than [maxLength], and when they are exactly [maxLength] no prompt
    is dropped at all. *)
Theorem compressHistory_meets_the_bound_when_system_prompts_are_few
    (prompts : list SessionStorage.InitialPrompt) (maxLength : Z) :
  ((Z.of_nat (length (List.filter SessionStorage.isSystem prompts)) < maxLength)%Z ->
   Z.of_nat (length (SessionStorage.compressHistory prompts (Some maxLength))) =
     Z.min (Z.of_nat (length prompts)) maxLength) /\
  ((maxLength <= Z.of_nat (length (List.filter SessionStorage.isSystem prompts)))%Z ->
   (maxLength < Z.of_nat (length prompts))%Z ->
   (maxLength <
    Z.of_nat (length (SessionStorage.compressHistory prompts (Some maxLength))))%Z /\
   (maxLength = Z.of_nat (length (List.filter SessionStorage.isSystem prompts)) ->
    SessionStorage.compressHistory prompts (Some maxLength) =
      List.filter SessionStorage.isSystem prompts ++
      List.filter (fun p => negb (SessionStorage.isSystem p)) prompts)).
Proof.
  split.
  - apply compressHistory_short_of_system_prompts.
  - apply compressHistory_full_of_system_prompts.
Qed.

Lemma compressHistory_meets_the_bound_when_system_prompts_are_few_witness :
  Z.of_nat (length (SessionStorage.compressHistory chat (Some 3%Z))) = 3%Z /\
  (2 < Z.of_nat (length (SessionStorage.compressHistory chat (Some 2%Z))))%Z /\
  SessionStorage.compressHistory chat (Some 2%Z) =
    List.filter SessionStorage.isSystem chat ++
    List.filter (fun p => negb (SessionStorage.isSystem p)) chat.
Proof.
  split.
  - apply (proj1 (compressHistory_meets_the_bound_when_system_prompts_are_few chat 3)).
    simpl. lia.
  - destruct (proj2 (compressHistory_meets_the_bound_when_system_prompts_are_few chat 2))
      as [Hlong Hall].
    + simpl. lia.
    + simpl. lia.
    + split; [exact Hlong|]. apply Hall. reflexivity.
Defined.

(** ** The registry and the executor, continued *)

Lemma find_snoc {A} (p : A -> bool) (l : list A) (x : A) :
  List.find p (l ++ [x]) =
  match List.find p l with
  | Some y => Some y
  | None => if p x then Some x else None
  end.
Proof.
  induction l as [|y l IH]; simpl; [reflexivity|].
  destruct (p y); [reflexivity | exact IH].
Qed.

(** X8. [registerMultiple] never throws, and the last definition of a name
    is the one the registry holds; a name that the list does not define
    keeps the definition it had.  It warns once for each definition that
    replaces another. *)
Theorem registerMultiple_last_definition_wins
    (definitions : list FunctionDefinition) :
  forall (functions : FunctionRegistry.t) (w : World),
  exists registry warnings,
    FunctionRegistry.registerMultiple definitions functions w =
      (Normal registry,
       {| events := events w ++ map Warned warnings; sessions := sessions w |}) /\
    (forall n,
        registry !! n =
        match List.find (fun d => String.eqb (name d) n) (rev definitions) with
        | Some d => Some d
        | None => functions !! n
        end) /\
    length warnings + size registry = size functions + length definitions.
Proof.
  induction definitions as [|d definitions IH]; intros functions w.
  - exists functions, []. simpl. unfold ret. rewrite app_nil_r.
    split; [now destruct w|]. split; [reflexivity | lia].
  - simpl. unfold bind at 1. unfold FunctionRegistry.register.
    unfold bind at 1.
    destruct (decide (is_Some (functions !! name d))) as [Hsome|Hnone].
    + unfold warn, emit, modify, ret.
      destruct (IH (<[name d := d]> functions)
                  (record (Warned ("Function " +:+ name d +:+
                                   " already registered, overwriting")) w))
        as (registry & warnings & -> & Hget & Hsize).
      exists registry, (("Function " +:+ name d +:+
                         " already registered, overwriting") :: warnings).
      split; [simpl; now rewrite <- app_assoc|]. split.
      * intros n. rewrite Hget, find_snoc.
        destruct (List.find _ (rev definitions)); [reflexivity|].
        destruct (String.eqb (name d) n) eqn:E.
        -- apply String.eqb_eq in E. subst n. apply lookup_insert_eq.
        -- apply String.eqb_neq in E. now apply lookup_insert_ne.
      * destruct Hsome as [old Hold].
        rewrite map_size_insert_Some in Hsize by eauto. simpl. lia.
    + unfold ret.
      destruct (IH (<[name d := d]> functions) w)
        as (registry & warnings & -> & Hget & Hsize).
      exists registry, warnings.
      split; [reflexivity|]. split.
      * intros n. rewrite Hget, find_snoc.
        destruct (List.find _ (rev definitions)); [reflexivity|].
        destruct (String.eqb (name d) n) eqn:E.
        -- apply String.eqb_eq in E. subst n. apply lookup_insert_eq.
        -- apply String.eqb_neq in E. now apply lookup_insert_ne.
      * rewrite map_size_insert_None in Hsize; [simpl; lia|].
        destruct (functions !! name d) eqn:E; [|reflexivity].
        exfalso. apply Hnone. eauto.
Qed.

Lemma executeFunctionCall_not_found
    (registry : FunctionRegistry.t) (c : FunctionCall) (w : World) :
  registry !! callName c = None ->
  executeFunctionCall (callValue c) registry w = (Normal (notFound (callName c)), w).
Proof.
  intros Hnone. unfold executeFunctionCall. rewrite call_name. simpl.
  rewrite Hnone. reflexivity.
Qed.

(** X9. A function that is not registered, or is no longer, is never
    called: the call is answered by the failure [not found], and nothing is
    invoked or printed, and [has] answers [false] for a name that has been
    unregistered.  Unregistering another name changes nothing for the
    call. *)
Theorem unregistered_function_is_not_called
    (registry : FunctionRegistry.t) (c : FunctionCall) (w : World) :
  (registry !! callName c = None ->
   executeFunctionCall (callValue c) registry w =
     (Normal (notFound (callName c)), w)) /\
  executeFunctionCall (callValue c) (Registry.unregister (callName c) registry) w =
    (Normal (notFound (callName c)), w) /\
  executeFunctionCall (callValue c) (Registry.clear registry) w =
    (Normal (notFound (callName c)), w) /\
  Registry.has (Registry.unregister (callName c) registry) (callName c) = false /\
  (forall other,
      other <> callName c ->
      executeFunctionCall (callValue c) (Registry.unregister other registry) w =
      executeFunctionCall (callValue c) registry w).
Proof.
  split; [apply executeFunctionCall_not_found|]. split; [|split; [|split]].
  - apply executeFunctionCall_not_found. apply lookup_delete_eq.
  - apply executeFunctionCall_not_found. apply lookup_empty.
  - apply bool_decide_eq_false. intros [x Hx].
    unfold Registry.unregister in Hx. rewrite lookup_delete_eq in Hx. discriminate.
  - intros other Hother. unfold executeFunctionCall. rewrite call_name. simpl.
    unfold Registry.unregister. now rewrite lookup_delete_ne.
Qed.

Lemma unregistered_function_is_not_called_witness :
  executeFunctionCall (callValue callWithCity) ∅ genesis =
    (Normal (notFound "getWeather"), genesis) /\
  executeFunctionCall (callValue callWithCity)
    (Registry.unregister "getTime" (registryOf getWeather)) genesis =
  executeFunctionCall (callValue callWithCity) (registryOf getWeather) genesis.
Proof.
  split.
  - apply (proj1 (unregistered_function_is_not_called ∅ callWithCity genesis)).
    reflexivity.
  - apply (proj2 (proj2 (proj2 (proj2 (unregistered_function_is_not_called
                                         (registryOf getWeather) callWithCity
                                         genesis))))).
    discriminate.
Defined.




(** X11. A call that has no [arguments] is never passed to a function whose
    parameters declare their properties, even when none is required: the
    check of the arguments fails on the missing object, the failure is
    returned, and the handler is not called. *)
Theorem call_without_arguments_is_refused
    (registry : FunctionRegistry.t) (callee : string) (def : FunctionDefinition)
    (props : list (string * FunctionParameter)) (w : World) :
  registry !! callee = Some def ->
  properties (parameters def) = Some props ->
  exists text,
    executeFunctionCall (Obj [("name", Str callee)]) registry w =
      (Normal (failure text), w).
Proof.
  intros Hdef Hprops. unfold executeFunctionCall. simpl. rewrite Hdef.
  unfold tryCatch, bind, validateArguments.
  destruct (negb (String.eqb (type (parameters def)) "object"));
    [eexists; reflexivity|].
  rewrite Hprops. unfold bind, lift.
  destruct (default [] (required (parameters def))) as [|field req];
    simpl; eexists; reflexivity.
Qed.

Lemma call_without_arguments_is_refused_witness :
  exists text,
    executeFunctionCall callWithoutArguments (registryOf getTime) genesis =
      (Normal (failure text), genesis).
Proof.
  apply (call_without_arguments_is_refused (registryOf getTime) "getTime" getTime []).
  - reflexivity.
  - reflexivity.
Defined.

Lemma executeFunctionCall_typed (registry : FunctionRegistry.t) (c : FunctionCall)
    (w : World) :
  exists r w', executeFunctionCall (callValue c) registry w = (Normal r, w').
Proof.
  destruct (executeFunctionCall_returns (callValue c) registry w (callName c))
    as (r & w' & H & _).
  - now rewrite call_name.
  - eauto.
Qed.

Lemma executeEach_results (registry : FunctionRegistry.t) :
  forall (calls : list FunctionCall) (results : list ToolResult) (w : World),
  exists more w',
    executeEach (map callValue calls) registry results w =
      (Normal (results ++ more), w') /\
    executeEach (map callValue calls) registry [] w = (Normal more, w') /\
    length more = length calls.
Proof.
  induction calls as [|c calls IH]; intros results w.
  - exists [], w. simpl. unfold ret. rewrite app_nil_r. auto.
  - simpl. unfold bind.
    destruct (executeFunctionCall_typed registry c w) as (r & w1 & ->).
    destruct (IH (results ++ [r]) w1) as (more & w' & H1 & H2 & Hlen).
    destruct (IH [r] w1) as (more' & w'' & H3 & H4 & _).
    simpl. rewrite H1, H3. rewrite H2 in H4. inversion H4; subst more' w''.
    exists (r :: more), w'. rewrite <- app_assoc. simpl.
    split; [reflexivity|]. split; [reflexivity|]. now rewrite Hlen.
Qed.

(** X12. [executeFunctionCalls] runs every call of a batch, in order, and
    returns one result for each: a call that fails does not stop the calls
    after it, and the batch of two lists of calls is the batch of the first
    followed, in the world it leaves, by the batch of the second. *)
Theorem executeFunctionCalls_runs_every_call_in_order
    (registry : FunctionRegistry.t) (first rest : list FunctionCall) (w : World) :
  exists r1 w1 r2 w2,
    executeFunctionCalls (map callValue first) registry w = (Normal r1, w1) /\
    executeFunctionCalls (map callValue rest) registry w1 = (Normal r2, w2) /\
    executeFunctionCalls (map callValue (first ++ rest)) registry w =
      (Normal (r1 ++ r2), w2) /\
    length r1 = length first /\ length r2 = length rest.
Proof.
  unfold executeFunctionCalls. revert w.
  induction first as [|c first IH]; intros w.
  - destruct (executeEach_results registry rest [] w) as (r2 & w2 & _ & H & Hlen).
    exists [], w, r2, w2. simpl. unfold ret at 1. auto.
  - simpl. unfold bind.
    destruct (executeFunctionCall_typed registry c w) as (r & w0 & ->). simpl.
    destruct (IH w0) as (r1 & w1 & r2 & w2 & H1 & H2 & H3 & L1 & L2).
    destruct (executeEach_results registry first [r] w0) as (m1 & w1' & E1 & E1' & _).
    destruct (executeEach_results registry (first ++ rest) [r] w0)
      as (m2 & w2' & E2 & E2' & _).
    rewrite E1' in H1. inversion H1; subst m1 w1'.
    rewrite E2' in H3. inversion H3; subst m2 w2'.
    exists (r :: r1), w1, r2, w2.
    rewrite E1, E2. simpl. rewrite L1. auto.
Qed.

(** ** Runs in general *)

Lemma grows_refl (h : nat) (w : World) : Grows h 0 0 w w.
Proof.
  exists []. rewrite app_nil_r. repeat split; simpl; auto.
Qed.

Lemma grows_trans (h p i p' i' : nat) (w w1 w2 : World) :
  Grows h p i w w1 -> Grows h p' i' w1 w2 -> Grows h (p + p') (i + i') w w2.
Proof.
  intros (m1 & E1 & B1 & P1 & I1 & S1) (m2 & E2 & B2 & P2 & I2 & S2).
  exists (m1 ++ m2). rewrite E2, E1, <- app_assoc.
  split; [reflexivity|]. split; [rewrite forallb_app; now rewrite B1, B2|].
  unfold promptsIn, invokedIn in *. rewrite !List.filter_app, !length_app.
  repeat split; lia.
Qed.

Lemma grows_le (h p i p' i' : nat) (w w' : World) :
  Grows h p i w w' -> p <= p' -> i <= i' -> Grows h p' i' w w'.
Proof.
  intros (m & E & B & P & I & S) Hp Hi. exists m. repeat split; auto; lia.
Qed.

Lemma numbered_push (made : list AgentStep) (step : AgentStep) :
  numbered made -> iteration step = S (length made) -> numbered (made ++ [step]).
Proof.
  unfold numbered. intros H Hi.
  rewrite map_app, length_app, H. simpl. rewrite Nat.add_1_r, seq_S, Hi.
  reflexivity.
Qed.

Section AnyRun.

Variable env : Environment.
Variable config : AgentConfig.
Variable h : nat.

(** A prompt of the session of the run: whether it is answered, rejected or
    refused for want of quota, the agent keeps its session and its steps,
    and the world has one prompt more at most. *)
Lemma prompt_keeps (i : nat) (input : string) (a : BasicAgent.t) (w : World) :
  Holds h a ->
  match BasicAgent.awaiting env i
          (BasicAgent.withSession (Session.prompt env input)) (a, w) with
  | (_, (a', w')) =>
      Holds h a' /\ Grows h 1 0 w w' /\
      BasicAgent.steps a' = BasicAgent.steps a /\
      BasicAgent.status a' = BasicAgent.status a /\
      BasicAgent.registry a' = BasicAgent.registry a
  end.
Proof.
  intros (m & lm & Hm & Hlm & Hh).
  unfold BasicAgent.awaiting, BasicAgent.withSession. rewrite Hm.
  unfold Session.prompt. rewrite Hlm. unfold tryCatch.
  destruct (match quotaTracker m with
            | Some t => quotaExhausted env t (turns lm)
            | None => false
            end) eqn:Hq.
  - unfold throw.
    match goal with
    | |- context [if ?b then _ else _] => destruct b
    end; cbn; (split; [exists m, lm; auto|]);
      (split; [apply (grows_le h 0 0 1 0 w w (grows_refl h w)); lia|]); auto.
  - assert (Grows h 1 0 w (record (Prompted (handle lm) input) w)) as Hg.
    { exists [Prompted (handle lm) input]. unfold record; simpl.
      rewrite Hh, Nat.eqb_refl. repeat split; auto. }
    destruct (reply env (handle lm) (turns lm)); unfold throw;
      match goal with
      | |- context [if ?b then _ else _] => destruct b
      end; cbn; (split; [eexists _, _; cbn; eauto|]); (split; [exact Hg|]); auto.
Qed.

Lemma warnUnexpected_grows props :
  forall keys w, Grows h 0 0 w (snd (warnUnexpected keys props w)).
Proof.
  intros keys w. rewrite warnUnexpected_trace. cbn [snd].
  eexists. cbn [events sessions]. split; [reflexivity|].
  induction (List.filter _ keys) as [|k l IH]; simpl; [repeat split; auto|].
  destruct IH as (B & P & I & _). repeat split; auto.
Qed.

Lemma validateArguments_grows args parameters (w : World) :
  Grows h 0 0 w (snd (validateArguments args parameters w)).
Proof.
  unfold validateArguments.
  destruct (negb _); [apply grows_refl|].
  destruct (properties parameters) as [props|]; [|apply grows_refl].
  unfold bind, lift.
  destruct (checkRequired args _) as [[text|]|e]; try apply grows_refl.
  destruct (objectKeys args) as [keys|e]; [|apply grows_refl].
  pose proof (warnUnexpected_grows props keys w) as H.
  rewrite warnUnexpected_trace in *. exact H.
Qed.

Lemma executeFunctionCall_grows call registry (w : World) :
  Grows h 0 1 w (snd (executeFunctionCall call registry w)).
Proof.
  unfold executeFunctionCall.
  destruct (FunctionRegistry.get registry _) as [definition|].
  - unfold tryCatch, bind.
    pose proof (validateArguments_grows (getProperty call "arguments")
                  (parameters definition) w) as Hv.
    destruct (validateArguments _ _ w) as [[[text|]|e] w1]; cbn [snd] in *.
    + eapply grows_le; [exact Hv | lia | lia].
    + assert (Grows h 0 1 w1
                (record (Invoked (name definition) (getProperty call "arguments")) w1))
        as Hi.
      { eexists [_]. unfold record; simpl. repeat split; auto. }
      unfold emit, modify, lift, ret.
      destruct (handler definition _); cbn [snd];
        apply (grows_trans h 0 0 0 1 w w1 _ Hv Hi).
    + eapply grows_le; [exact Hv | lia | lia].
  - unfold bind, lift, ret.
    destruct (Text.toString _); cbn [snd];
      (eapply grows_le; [apply grows_refl | lia | lia]).
Qed.

Lemma reached_keeps (i : nat) (a : BasicAgent.t) (w : World) :
  Holds h a ->
  numbered (BasicAgent.steps a) ->
  length (BasicAgent.steps a) = i ->
  i <= maxIterations config ->
  forall rounds,
    loopLeaves config h rounds w (BasicAgent.maxIterationsReached i (a, w)).
Proof.
  intros Hh Hn Hl Hi rounds.
  unfold BasicAgent.maxIterationsReached, bind, BasicAgent.this,
    BasicAgent.setStatus, modify, ret, loopLeaves. cbn.
  split; [exact Hh|].
  split; [eapply grows_le; [apply grows_refl | lia | lia]|].
  split; [exact Hn|]. split; [lia|].
  repeat split; auto. destruct (BasicAgent.shouldStop a); auto.
Qed.

Lemma callOnStep_state (step : AgentStep) (s : BasicAgent.t * World) :
  snd (BasicAgent.callOnStep config step s) = s.
Proof.
  unfold BasicAgent.callOnStep. destruct (onStep config); reflexivity.
Qed.

Lemma loop_keeps :
  forall remaining prompt a w,
    remaining <= maxIterations config ->
    Holds h a ->
    numbered (BasicAgent.steps a) ->
    length (BasicAgent.steps a) = maxIterations config - remaining ->
    loopLeaves config h remaining w
      (BasicAgent.loop env config remaining prompt (a, w)).
Proof.
  induction remaining as [|r IH]; intros prompt a w Hle Hh Hn Hl.
  - cbn [BasicAgent.loop]. unfold bind at 1, BasicAgent.this at 1. cbn [fst].
    apply reached_keeps; auto; lia.
  - cbn [BasicAgent.loop]. unfold bind at 1, BasicAgent.this at 1. cbn [fst].
    destruct (BasicAgent.shouldStop a); [apply reached_keeps; auto; lia|].
    unfold bind at 1, BasicAgent.dateNow at 1. cbn [snd].
    set (i := S (maxIterations config - S r)).
    set (now := clock env (BasicAgent.current w) i).
    unfold bind at 1.
    pose proof (prompt_keeps i prompt a w Hh) as Hp.
    destruct (BasicAgent.awaiting env i _ (a, w)) as [[response|e] [a1 w1]].
    2:{ destruct Hp as (H1 & G1 & S1 & _). unfold loopLeaves.
        split; [exact H1|]. split; [eapply grows_le; [exact G1 | lia | lia]|].
        rewrite S1. split; [exact Hn|]. split; [lia | exact I]. }
    destruct Hp as (H1 & G1 & S1 & T1 & R1).
    unfold bind at 1, lift at 1.
    destruct (parse_returns response) as [parsed ->].
    destruct (truthy (functionCall parsed)).
    + unfold bind at 1, BasicAgent.this at 1. cbn [fst].
      unfold bind at 1, inWorld at 1. cbn [fst snd].
      pose proof (executeFunctionCall_grows (functionCall parsed)
                    (BasicAgent.registry a1) w1) as G2.
      destruct (executeFunctionCall _ _ w1) as [[o|e] w2]; cbn [snd] in G2.
      2:{ unfold loopLeaves. split; [exact H1|].
          split; [eapply grows_le;
                  [exact (grows_trans h 1 0 0 1 w w1 w2 G1 G2) | lia | lia]|].
          rewrite S1. split; [exact Hn|]. split; [lia | exact I]. }
      unfold bind at 1, lift at 1.
      destruct (formatFunctionResult _ _ _) as [formatted|e].
      2:{ unfold loopLeaves. split; [exact H1|].
          split; [eapply grows_le;
                  [exact (grows_trans h 1 0 0 1 w w1 w2 G1 G2) | lia | lia]|].
          rewrite S1. split; [exact Hn|]. split; [lia | exact I]. }
      unfold bind at 1, BasicAgent.push at 1, bind at 1, BasicAgent.this at 1.
      cbn [fst]. unfold BasicAgent.setSteps at 1, modify at 1.
      set (step := {| iteration := i; timestamp := now;
                      thought := reasoning parsed; action := functionCall parsed;
                      observation := Some o |}).
      set (a2 := {| BasicAgent.session := BasicAgent.session a1;
                    BasicAgent.registry := BasicAgent.registry a1;
                    BasicAgent.status := BasicAgent.status a1;
                    BasicAgent.steps := BasicAgent.steps a1 ++ [step];
                    BasicAgent.shouldStop := BasicAgent.shouldStop a1 |}).
      assert (Holds h a2) as H2 by exact H1.
      assert (numbered (BasicAgent.steps a2)) as N2.
      { apply numbered_push; [now rewrite S1|]. rewrite S1. subst i. simpl. lia. }
      assert (length (BasicAgent.steps a2) = maxIterations config - r) as L2.
      { cbn. rewrite length_app, S1. simpl. lia. }
      unfold bind at 1.
      pose proof (callOnStep_state step (a2, w2)) as Hc.
      destruct (BasicAgent.callOnStep config step (a2, w2)) as [[[]|e] s2];
        cbn [snd] in Hc; subst s2.
      2:{ unfold loopLeaves. split; [exact H2|].
          split; [eapply grows_le;
                  [exact (grows_trans h 1 0 0 1 w w1 w2 G1 G2) | lia | lia]|].
          split; [exact N2|]. split; [lia | exact I]. }
      specialize (IH (BasicAgent.continuePrompt formatted) a2 w2
                    ltac:(lia) H2 N2 L2).
      unfold loopLeaves in *.
      destruct (BasicAgent.loop env config r _ (a2, w2)) as [res [a3 w3]].
      destruct IH as (H3 & G3 & N3 & L3 & Hres).
      split; [exact H3|]. split; [|split; [exact N3|split; [exact L3 | exact Hres]]].
      eapply grows_le;
        [exact (grows_trans h _ _ _ _ w w2 w3
                  (grows_trans h 1 0 0 1 w w1 w2 G1 G2) G3) | lia | lia].
    + unfold bind at 1, BasicAgent.this at 1. cbn [fst].
      unfold bind at 1.
      set (step := {| iteration := i; timestamp := now;
                      thought := match regularResponse parsed with
                                 | Some text => Str text
                                 | None => Undefined
                                 end;
                      action := Undefined; observation := None |}).
      assert (exists verdict,
                 match stopCondition config return BasicAgent.Method bool with
                 | Some condition => lift (condition (BasicAgent.steps a1))
                 | None => ret (isTaskComplete (default "" (regularResponse parsed)))
                 end (a1, w1) = (verdict, (a1, w1))) as [verdict ->].
      { destruct (stopCondition config); eexists; reflexivity. }
      set (a2 := {| BasicAgent.session := BasicAgent.session a1;
                    BasicAgent.registry := BasicAgent.registry a1;
                    BasicAgent.status := BasicAgent.status a1;
                    BasicAgent.steps := BasicAgent.steps a1 ++ [step];
                    BasicAgent.shouldStop := BasicAgent.shouldStop a1 |}).
      assert (Holds h a2) as H2 by exact H1.
      assert (numbered (BasicAgent.steps a2)) as N2.
      { apply numbered_push; [now rewrite S1|]. rewrite S1. subst i. simpl. lia. }
      assert (length (BasicAgent.steps a2) = maxIterations config - r) as L2.
      { cbn. rewrite length_app, S1. simpl. lia. }
      destruct verdict as [[|]|e].
      * unfold bind at 1, BasicAgent.push at 1, bind at 1, BasicAgent.this at 1.
        cbn [fst]. unfold BasicAgent.setSteps at 1, modify at 1.
        fold step. fold a2.
        unfold bind at 1, BasicAgent.setStatus at 1, modify at 1.
        set (a3 := {| BasicAgent.session := BasicAgent.session a2;
                      BasicAgent.registry := BasicAgent.registry a2;
                      BasicAgent.status := completed;
                      BasicAgent.steps := BasicAgent.steps a2;
                      BasicAgent.shouldStop := BasicAgent.shouldStop a2 |}).
        unfold bind at 1.
        pose proof (callOnStep_state step (a3, w1)) as Hc.
        destruct (BasicAgent.callOnStep config step (a3, w1)) as [[[]|e] s2];
          cbn [snd] in Hc; subst s2.
        -- unfold bind, BasicAgent.this, ret, loopLeaves. cbn [fst].
           split; [exact H2|].
           split; [eapply grows_le; [exact G1 | lia | lia]|].
           split; [exact N2|]. split; [cbn [a3 BasicAgent.steps]; lia|].
           cbn. rewrite length_app, S1. simpl.
           repeat split; auto. subst i. lia.
        -- unfold loopLeaves. split; [exact H2|].
           split; [eapply grows_le; [exact G1 | lia | lia]|].
           split; [exact N2|]. split; [cbn [a3 BasicAgent.steps]; lia | exact I].
      * unfold bind at 1, BasicAgent.push at 1, bind at 1, BasicAgent.this at 1.
        cbn [fst]. unfold BasicAgent.setSteps at 1, modify at 1.
        fold step. fold a2.
        unfold bind at 1.
        pose proof (callOnStep_state step (a2, w1)) as Hc.
        destruct (BasicAgent.callOnStep config step (a2, w1)) as [[[]|e] s2];
          cbn [snd] in Hc; subst s2.
        2:{ unfold loopLeaves. split; [exact H2|].
            split; [eapply grows_le; [exact G1 | lia | lia]|].
            split; [exact N2|]. split; [lia | exact I]. }
        specialize (IH "Continue with the task." a2 w1 ltac:(lia) H2 N2 L2).
        unfold loopLeaves in *.
        destruct (BasicAgent.loop env config r _ (a2, w1)) as [res [a3 w3]].
        destruct IH as (H3 & G3 & N3 & L3 & Hres).
        split; [exact H3|]. split; [|split; [exact N3|split; [exact L3 | exact Hres]]].
        eapply grows_le; [exact (grows_trans h _ _ _ _ w w1 w3 G1 G3) | lia | lia].
      * unfold loopLeaves. split; [exact H1|].
        split; [eapply grows_le; [exact G1 | lia | lia]|].
        rewrite S1. split; [exact Hn|]. split; [lia | exact I].
Qed.

End AnyRun.

Lemma release_held (h : nat) (a : BasicAgent.t) (w : World) :
  Holds h a ->
  BasicAgent.releaseSession (a, w) =
    ({| BasicAgent.session := None; BasicAgent.registry := BasicAgent.registry a;
        BasicAgent.status := BasicAgent.status a;
        BasicAgent.steps := BasicAgent.steps a;
        BasicAgent.shouldStop := BasicAgent.shouldStop a |},
     record (Destroyed h) w).
Proof.
  intros (m & lm & Hm & Hlm & Hh). unfold BasicAgent.releaseSession.
  rewrite Hm. unfold Session.destroy. rewrite Hlm, Hh. reflexivity.
Qed.

Lemma run_leaves (env : Environment) (config : AgentConfig) (task : string)
    (a : BasicAgent.t) (w : World) :
  runLeaves env config w (BasicAgent.run env config task (a, w)).
Proof.
  unfold BasicAgent.run. unfold bind at 1. unfold BasicAgent.reset, modify.
  unfold finally, tryCatch.
  unfold bind at 1. unfold BasicAgent.setSession at 1, modify.
  cbn [BasicAgent.registry BasicAgent.status BasicAgent.steps BasicAgent.shouldStop].
  unfold bind at 1. unfold runLeaves, closing.
  destruct (creation env (sessions w)) eqn:Hc.
  - unfold BasicAgent.awaiting, BasicAgent.withSession. cbn [BasicAgent.session].
    unfold Session.create, Session.new. rewrite Hc.
    unfold BasicAgent.failedResult, bind, BasicAgent.setStatus, modify,
      BasicAgent.this, ret.
    destruct (stopSignal env _ 0); cbn;
      (eexists _, _, []; split; [reflexivity|]; cbn; unfold numbered;
       repeat split; auto; lia).
  - unfold BasicAgent.awaiting, BasicAgent.withSession. cbn [BasicAgent.session].
    unfold Session.create, Session.new. rewrite Hc.
    unfold BasicAgent.failedResult, bind, BasicAgent.setStatus, modify,
      BasicAgent.this, ret.
    destruct (stopSignal env _ 0); cbn;
      (eexists _, _, []; split; [reflexivity|]; cbn; unfold numbered;
       repeat split; auto; lia).
  - rewrite (create_in_progress env _ _ _ w Hc).
    set (w0 := {| events := events w ++ [Created (sessions w)];
                  sessions := S (sessions w) |}).
    set (a0 := inProgress (BasicAgent.registry a) (sessions w) 0 running []
                 (stopSignal env (sessions w) 0)).
    assert (Holds (sessions w) a0) as H0 by (eexists _, _; cbn; eauto).
    pose proof (loop_keeps env config (sessions w) (maxIterations config) task a0 w0
                  (le_n _) H0 eq_refl ltac:(cbn; lia)) as Hloop.
    unfold loopLeaves in Hloop.
    destruct (BasicAgent.loop env config _ task (a0, w0)) as [[res|e] [a1 w1]];
      destruct Hloop as (H1 & (body & E1 & B1 & P1 & I1 & S1) & N1 & L1 & Hres).
    + rewrite (release_held _ _ _ H1).
      destruct Hres as (Rs & Ri & Rt & Re & Rc).
      eexists res, _, body. split.
      * unfold record. rewrite E1, S1. cbn [w0 events sessions].
        now rewrite <- !app_assoc.
      * cbn. rewrite Re, Rs. repeat split; auto.
    + unfold BasicAgent.failedResult, bind, BasicAgent.setStatus, modify,
        BasicAgent.this, ret. cbn [fst].
      rewrite (release_held (sessions w)) by exact H1.
      eexists _, _, body. split.
      * unfold record. rewrite E1, S1. cbn [w0 events sessions fst snd].
        now rewrite <- !app_assoc.
      * cbn. repeat split; auto.
Qed.

(** X13. A run never throws: whatever the browser, the handlers, the
    observer and the stop condition do, [run] returns a result, its status
    is [completed], [stopped] or [failed], and it is [failed] exactly when
    the result carries an error.  The agent is left with the status and the
    steps of the result, and without a session. *)
Theorem run_always_returns_a_result
    (env : Environment) (config : AgentConfig) (task : string)
    (a : BasicAgent.t) (w : World) :
  exists res a' w',
    BasicAgent.run env config task (a, w) = (Normal res, (a', w')) /\
    BasicAgent.session a' = None /\
    BasicAgent.status a' = AgentResult.status res /\
    BasicAgent.steps a' = AgentResult.steps res /\
    (AgentResult.status res = completed \/ AgentResult.status res = stopped \/
     AgentResult.status res = failed) /\
    (AgentResult.status res = failed <-> AgentResult.error res <> None).
Proof.
  destruct (run_leaves env config task a w)
    as (res & a' & body & -> & _ & _ & _ & Hs & Ht & Hst & _ & _ & _ & He).
  eexists _, _, _. split; [reflexivity|].
  split; [exact Hs|]. split; [exact Ht|]. split; [exact Hst|].
  destruct (AgentResult.error res).
  - split; [auto|]. split; [discriminate | auto].
  - split; [tauto|]. split; [|congruence].
    intros Hf. destruct He as [He|He]; congruence.
Qed.

(** X14. The steps of a result are numbered from one without a gap, there
    are at most [maxIterations] of them, and [iterations] is their number,
    whether the run completed, was stopped or failed. *)
Theorem run_numbers_its_steps
    (env : Environment) (config : AgentConfig) (task : string)
    (a : BasicAgent.t) (w : World) :
  exists res s,
    BasicAgent.run env config task (a, w) = (Normal res, s) /\
    map iteration (AgentResult.steps res) = seq 1 (length (AgentResult.steps res)) /\
    length (AgentResult.steps res) <= maxIterations config /\
    AgentResult.iterations res = length (AgentResult.steps res).
Proof.
  destruct (run_leaves env config task a w)
    as (res & a' & body & -> & _ & _ & _ & _ & _ & _ & Hn & Hl & Hi & _).
  eexists _, _. split; [reflexivity|]. auto.
Qed.

Lemma sessionTrace_app (l l' : list Event) :
  sessionTrace (l ++ l') = sessionTrace l ++ sessionTrace l'.
Proof. apply List.filter_app. Qed.

Lemma sessionTrace_body (h : nat) (body : list Event) :
  forallb (bodyEvent h) body = true ->
  exists inputs, sessionTrace body = map (Prompted h) inputs.
Proof.
  induction body as [|e body IH]; intros Hb; [now exists []|].
  cbn [forallb] in Hb. apply andb_prop in Hb. destruct Hb as [He Hb].
  destruct (IH Hb) as [inputs Hin].
  destruct e as [text|callee args|k|k input|k]; cbn in He |- *;
    try discriminate He; try (exists inputs; exact Hin).
  apply Nat.eqb_eq in He. subst k.
  exists (input :: inputs). unfold sessionTrace in Hin. now rewrite Hin.
Qed.

(** X15. Of the native sessions of the browser, a run asks for one and
    releases it: its first operation on a native session is the request
    for a new one; if the browser grants it, the destruction of that
    session is the last, on every path, and it happens once; every
    operation in between is a prompt of that session. *)
Theorem run_releases_the_session_it_creates
    (env : Environment) (config : AgentConfig) (task : string)
    (a : BasicAgent.t) (w : World) :
  exists r a' w' inputs,
    BasicAgent.run env config task (a, w) = (r, (a', w')) /\
    sessions w' = S (sessions w) /\
    sessionTrace (events w') =
      sessionTrace (events w) ++
      [Created (sessions w)] ++ map (Prompted (sessions w)) inputs ++
      match creation env (sessions w) with
      | Available => [Destroyed (sessions w)]
      | _ => []
      end.
Proof.
  destruct (run_leaves env config task a w) as (res & a' & body & -> & Hb & _).
  destruct (sessionTrace_body _ _ Hb) as [inputs Hin].
  eexists _, _, _, inputs. split; [reflexivity|]. cbn [events sessions].
  split; [reflexivity|].
  rewrite !sessionTrace_app, Hin. unfold closing.
  destruct (creation env (sessions w)); reflexivity.
Qed.

(** X16. A run sends at most [maxIterations] prompts and calls at most
    [maxIterations] handlers. *)
Theorem run_bounds_prompts_and_calls
    (env : Environment) (config : AgentConfig) (task : string)
    (a : BasicAgent.t) (w : World) :
  exists r a' w' added,
    BasicAgent.run env config task (a, w) = (r, (a', w')) /\
    events w' = events w ++ added /\
    promptsIn added <= maxIterations config /\
    invokedIn added <= maxIterations config.
Proof.
  destruct (run_leaves env config task a w)
    as (res & a' & body & -> & _ & Hp & Hi & _).
  eexists _, _, _, _. split; [reflexivity|]. cbn [events].
  split; [reflexivity|].
  unfold promptsIn, invokedIn, closing in *.
  rewrite !List.filter_app, !length_app.
  destruct (creation env (sessions w)); simpl; lia.
Qed.

Lemma unprintable_is_not_registered (registry : FunctionRegistry.t)
    (callee : value) (e : JsError) :
  Text.toString callee = Throw e -> FunctionRegistry.get registry callee = None.
Proof.
  destruct callee; try reflexivity. discriminate.
Qed.

(** X17. A reply of the model can make a run fail: when the reply is a
    function call whose name cannot be converted to a text, the executor
    throws instead of returning a failure, no step is recorded, no handler
    is called, and the run ends with the status [failed] and that error;
    its operations on native sessions are the request for a session, the
    prompt of the task and the release of the session. *)
Theorem unprintable_function_name_fails_the_run
    (env : Environment) (config : AgentConfig) (task text : string)
    (a : BasicAgent.t) (w : World) (parsed : ParsedResponse) (e : JsError) :
  creation env (sessions w) = Available ->
  stopSignal env (sessions w) 0 = false ->
  quotaExhausted env (sessions w) 0 = false ->
  1 <= maxIterations config ->
  reply env (sessions w) 0 = Normal text ->
  parseFunctionCall text = Normal parsed ->
  truthy (functionCall parsed) = true ->
  Text.toString (getProperty (functionCall parsed) "name") = Throw e ->
  exists a' w',
    BasicAgent.run env config task (a, w) =
      (Normal {| AgentResult.status := failed; AgentResult.steps := [];
                 AgentResult.finalAnswer := Undefined;
                 AgentResult.error := Some e; AgentResult.iterations := 0 |},
       (a', w')) /\
    sessions w' = S (sessions w) /\
    sessionTrace (events w') =
      sessionTrace (events w) ++
      [Created (sessions w); Prompted (sessions w) task; Destroyed (sessions w)] /\
    invocations w' = invocations w.
Proof.
  intros Hc Hstop Hq Hmax Hreply Hparse Hcall Hname.
  unfold BasicAgent.run. unfold bind at 1. unfold BasicAgent.reset, modify.
  unfold finally, tryCatch.
  unfold bind at 1. unfold BasicAgent.setSession at 1, modify.
  cbn [BasicAgent.registry BasicAgent.status BasicAgent.steps BasicAgent.shouldStop].
  unfold bind at 1.
  rewrite (create_in_progress env _ _ _ w Hc). rewrite Hstop.
  destruct (maxIterations config) as [|n] eqn:Hn; [lia|].
  cbn [BasicAgent.loop]. rewrite Hn.
  unfold bind at 1, BasicAgent.this at 1. unfold inProgress.
  cbn [fst BasicAgent.shouldStop].
  unfold bind at 1, BasicAgent.dateNow at 1.
  unfold bind at 1, BasicAgent.awaiting at 1, BasicAgent.withSession at 1.
  cbn [BasicAgent.session]. unfold Session.prompt, tryCatch.
  cbn [session quotaTracker turns handle]. rewrite Hq, Hreply.
  unfold bind at 1, lift at 1. rewrite Hparse, Hcall.
  unfold bind at 1, BasicAgent.this at 1. cbn [fst].
  unfold bind at 1, inWorld at 1. cbn [fst snd].
  unfold executeFunctionCall.
  rewrite (unprintable_is_not_registered _ _ e Hname).
  unfold bind at 1, lift at 1. rewrite Hname.
  unfold BasicAgent.failedResult, bind, BasicAgent.setStatus, modify,
    BasicAgent.this, ret.
  match goal with
  | |- context [if ?b then _ else _] => destruct b
  end; cbn; eexists _, _; (split; [reflexivity|]);
    unfold invocations, record; cbn [events sessions];
    (split; [reflexivity|]);
    rewrite !sessionTrace_app, !List.filter_app, !length_app, <- !app_assoc; cbn;
    (split; [reflexivity | lia]).
Qed.

Lemma unprintable_function_name_fails_the_run_witness :
  exists a' w',
    BasicAgent.run confused threeRounds "Tidy the notes" (idleAgent, genesis) =
      (Normal {| AgentResult.status := failed; AgentResult.steps := [];
                 AgentResult.finalAnswer := Undefined;
                 AgentResult.error := Some Text.cannotConvert;
                 AgentResult.iterations := 0 |},
       (a', w')) /\
    sessions w' = 1 /\
    sessionTrace (events w') =
      [Created 0; Prompted 0 "Tidy the notes"; Destroyed 0] /\
    invocations w' = 0.
Proof.
  apply (unprintable_function_name_fails_the_run confused threeRounds
           "Tidy the notes" unprintableCall idleAgent genesis
           {| functionCall :=
                Obj [("name", Obj [("toString", int 1)]); ("arguments", Obj [])];
              reasoning := Undefined; regularResponse := None |}
           Text.cannotConvert).
  - reflexivity.
  - reflexivity.
  - reflexivity.
  - simpl. lia.
  - reflexivity.
  - vm_compute. reflexivity.
  - reflexivity.
  - reflexivity.
Defined.

(** ** Planning and reflection in general *)

Lemma spares_refl (k : nat) (w : World) : Spares k w w.
Proof.
  exists []. rewrite app_nil_r. repeat split; auto.
Qed.

Lemma spares_trans (k : nat) (w w1 w2 : World) :
  Spares k w w1 -> Spares k w1 w2 -> Spares k w w2.
Proof.
  intros (m1 & E1 & D1 & S1) (m2 & E2 & D2 & S2).
  exists (m1 ++ m2). rewrite E2, E1, <- app_assoc.
  split; [reflexivity|]. split; [|lia].
  intros H. apply in_app_or in H. tauto.
Qed.

Lemma bodyEvent_spares (h k : nat) (body : list Event) :
  forallb (bodyEvent h) body = true -> ~ In (Destroyed k) body.
Proof.
  intros Hb Hin. rewrite forallb_forall in Hb. specialize (Hb _ Hin). discriminate.
Qed.

Lemma run_spares (env : Environment) (config : AgentConfig) (task : string)
    (k : nat) (a : BasicAgent.t) (w : World) :
  k < sessions w ->
  Spares k w (snd (snd (BasicAgent.run env config task (a, w)))).
Proof.
  intros Hk.
  destruct (run_leaves env config task a w) as (res & a' & body & -> & Hb & _).
  cbn [snd]. eexists. cbn [events sessions]. split; [reflexivity|].
  split; [|lia].
  intros Hin. apply in_app_or in Hin. destruct Hin as [Hin|Hin].
  - destruct Hin as [Hin|[]]. discriminate.
  - apply in_app_or in Hin. destruct Hin as [Hin|Hin].
    + now apply (bodyEvent_spares _ _ _ Hb) in Hin.
    + unfold closing in Hin. destruct (creation env (sessions w)); try destruct Hin.
      * inversion H. lia.
      * destruct H.
Qed.

Lemma advanced_run_leaves (env : Environment) (config : AdvancedAgentConfig)
    (task : string) (k : nat) (a : AdvancedAgent.t) (w : World) :
  k < sessions w ->
  match AdvancedAgent.run env config task (a, w) with
  | (r, (a', w')) =>
      (exists res, r = Normal res) /\
      BasicAgent.session (AdvancedAgent.super a') = None /\
      AdvancedAgent.reflectionCount a' = AdvancedAgent.reflectionCount a /\
      Spares k w w'
  end.
Proof.
  intros Hk. unfold AdvancedAgent.run, AdvancedAgent.inherited.
  pose proof (run_releases_session env (agentConfig config) task
                (AdvancedAgent.super a, w)) as Hs.
  pose proof (run_spares env (agentConfig config) task k
                (AdvancedAgent.super a) w Hk) as Hp.
  destruct (run_leaves env (agentConfig config) task (AdvancedAgent.super a) w)
    as (res & b & body & E & _).
  rewrite E in *. cbn [fst snd] in *.
  split; [eauto|]. split; [exact Hs|]. split; [reflexivity | exact Hp].
Qed.

Lemma reflectionLoop_keeps (env : Environment) (config : AdvancedAgentConfig)
    (task : string) (k : nat) :
  forall fuel result a w,
    BasicAgent.session (AdvancedAgent.super a) = None ->
    k < sessions w ->
    match AdvancedAgent.reflectionLoop env config fuel task result (a, w) with
    | (r, (a', w')) =>
        (exists answer, r = Normal answer) /\
        BasicAgent.session (AdvancedAgent.super a') = None /\
        AdvancedAgent.reflectionCount a' = AdvancedAgent.reflectionCount a /\
        Spares k w w'
    end.
Proof.
  induction fuel as [|fuel IH]; intros result a w Hs Hk;
    cbn [AdvancedAgent.reflectionLoop]; unfold bind at 1, AdvancedAgent.this at 1;
    cbn [fst];
    destruct (negb (AdvancedAgent.isCompleted (AgentResult.status result)) &&
              (AdvancedAgent.reflectionCount a <?
               AdvancedAgent.reflectionBudget config) &&
              negb (BasicAgent.shouldStop (AdvancedAgent.super a)));
    try (unfold ret; split; [eauto|]; split; [exact Hs|]; split;
         [reflexivity | apply spares_refl]).
  unfold bind at 1. rewrite reflect_without_session by exact Hs.
  unfold bind at 1.
  pose proof (advanced_run_leaves env config
                (AdvancedAgent.continuationPromptOf "No steps to reflect on" task)
                k a w Hk) as Hrun.
  destruct (AdvancedAgent.run env config _ (a, w)) as [r [a1 w1]].
  destruct Hrun as ([res ->] & Hs1 & Hc1 & Hp1).
  assert (k < sessions w1) as Hk1 by (destruct Hp1 as (? & _ & _ & ?); lia).
  specialize (IH res a1 w1 Hs1 Hk1).
  destruct (AdvancedAgent.reflectionLoop env config fuel task res (a1, w1))
    as [r2 [a2 w2]].
  destruct IH as (Hr & Hs2 & Hc2 & Hp2).
  split; [exact Hr|]. split; [exact Hs2|]. split; [congruence|].
  exact (spares_trans k w w1 w2 Hp1 Hp2).
Qed.

Lemma executeWithReflection_keeps (env : Environment) (config : AdvancedAgentConfig)
    (task : string) (k fuel : nat) (a : AdvancedAgent.t) (w : World) :
  k < sessions w ->
  match AdvancedAgent.executeWithReflection env config fuel task (a, w) with
  | (r, (a', w')) =>
      (exists answer, r = Normal answer) /\
      BasicAgent.session (AdvancedAgent.super a') = None /\
      AdvancedAgent.reflectionCount a' = AdvancedAgent.reflectionCount a /\
      Spares k w w'
  end.
Proof.
  intros Hk. unfold AdvancedAgent.executeWithReflection, bind.
  pose proof (advanced_run_leaves env config task k a w Hk) as Hrun.
  destruct (AdvancedAgent.run env config task (a, w)) as [r [a1 w1]].
  destruct Hrun as ([res ->] & Hs1 & Hc1 & Hp1).
  assert (k < sessions w1) as Hk1 by (destruct Hp1 as (? & _ & _ & ?); lia).
  pose proof (reflectionLoop_keeps env config task k fuel res a1 w1 Hs1 Hk1) as Hloop.
  destruct (AdvancedAgent.reflectionLoop env config fuel task res (a1, w1))
    as [r2 [a2 w2]].
  destruct Hloop as (Hr & Hs2 & Hc2 & Hp2).
  split; [exact Hr|]. split; [exact Hs2|]. split; [congruence|].
  exact (spares_trans k w w1 w2 Hp1 Hp2).
Qed.

(** X18. The session of the planning phase is never released: when the
    browser grants it and answers the request for a plan, the first
    operations of [runWithPlanning] on native sessions are the request for
    that session and the prompt for a plan, and none of those that follow,
    however long it runs, is the destruction of that session; the agent is
    left without a session. *)
Theorem planning_session_is_never_released
    (env : Environment) (config : AdvancedAgentConfig) (fuel : nat)
    (task text : string) (a : AdvancedAgent.t) (w : World) :
  enablePlanning config = Some true ->
  creation env (sessions w) = Available ->
  quotaExhausted env (sessions w) 0 = false ->
  reply env (sessions w) 0 = Normal text ->
  exists r a' w' planningPrompt later,
    AdvancedAgent.runWithPlanning env config fuel task (a, w) = (r, (a', w')) /\
    sessionTrace (events w') =
      sessionTrace (events w) ++
      [Created (sessions w); Prompted (sessions w) planningPrompt] ++ later /\
    ~ In (Destroyed (sessions w)) later /\
    BasicAgent.session (AdvancedAgent.super a') = None.
Proof.
  intros Hplan Hc Hq Hr.
  unfold AdvancedAgent.runWithPlanning. rewrite Hplan.
  change (negb (default false (Some true))) with false. cbv iota.
  unfold bind at 1. unfold AdvancedAgent.inherited at 1, BasicAgent.reset, modify.
  unfold finally, tryCatch.
  unfold bind at 1. unfold AdvancedAgent.createPlanningSession.
  unfold Session.create, Session.new. rewrite Hc.
  unfold AdvancedAgent.inherited at 1, BasicAgent.setSession, modify.
  cbn [AdvancedAgent.super AdvancedAgent.reflectionCount fst snd default
       BasicAgent.registry BasicAgent.status BasicAgent.steps BasicAgent.shouldStop
       BasicAgent.session].
  unfold bind at 1. unfold AdvancedAgent.createPlan.
  unfold bind at 1, AdvancedAgent.this at 1.
  cbn [fst AdvancedAgent.super BasicAgent.session].
  unfold bind at 1, lift at 1.
  assert (exists p, AdvancedAgent.orElse (planningPrompt config)
                      (Normal (AdvancedAgent.defaultPlanningPrompt task)) = Normal p)
    as [p ->].
  { unfold AdvancedAgent.orElse. destruct (planningPrompt config) as [x|]; [|eauto].
    destruct (isEmpty x); eauto. }
  unfold bind at 1. unfold AdvancedAgent.inherited at 1, BasicAgent.withSession.
  cbn [AdvancedAgent.super AdvancedAgent.reflectionCount BasicAgent.session].
  unfold Session.prompt, tryCatch.
  cbn [session quotaTracker turns handle enablePersistence].
  rewrite Hq, Hr. unfold ret at 1.
  set (w1 := record (Prompted (sessions w) p) _).
  match goal with
  | |- context [AdvancedAgent.executeWithReflection env config fuel task (?a1, w1)] =>
      pose proof (executeWithReflection_keeps env config task (sessions w) fuel a1 w1
                    ltac:(subst w1; unfold record; cbn; lia)) as Hexec;
      destruct (AdvancedAgent.executeWithReflection env config fuel task (a1, w1))
        as [r2 [a2 w2]]
  end.
  destruct Hexec as ([answer ->] & Hs & _ & (added & E & Hd & _)).
  unfold BasicAgent.releaseSession. rewrite Hs.
  eexists _, _, _, p, (sessionTrace added). split; [reflexivity|].
  split; [|split; [|exact Hs]].
  - rewrite E. subst w1. unfold record. cbn [events].
    now rewrite <- !app_assoc, !sessionTrace_app.
  - intros Hin. apply Hd. unfold sessionTrace in Hin.
    apply List.filter_In in Hin. tauto.
Qed.

Lemma planning_session_is_never_released_witness :
  exists r a' w' planningPrompt later,
    AdvancedAgent.runWithPlanning outage planning 2 "Plan the trip"
      (idleAdvancedAgent, genesis) = (r, (a', w')) /\
    sessionTrace (events w') =
      sessionTrace (events genesis) ++
      [Created 0; Prompted 0 planningPrompt] ++ later /\
    ~ In (Destroyed 0) later /\
    BasicAgent.session (AdvancedAgent.super a') = None.
Proof.
  apply (planning_session_is_never_released outage planning 2 "Plan the trip"
           "1. Look it up" idleAdvancedAgent genesis); reflexivity.
Defined.

(** ** Objects in prose *)

Lemma includes_char_cons (c x : ascii) (s : string) :
  Js.includes (String c s) (String x "") = Ascii.eqb x c || Js.includes s (String x "").
Proof.
  simpl. destruct (Ascii.eqb x c); [reflexivity|]. simpl.
  destruct s; reflexivity.
Qed.

Lemma includes_char_nil (x : ascii) : Js.includes "" (String x "") = false.
Proof. reflexivity. Qed.

Lemma includes_char_app (x : ascii) (s t : string) :
  Js.includes (s +:+ t) (String x "") =
  Js.includes s (String x "") || Js.includes t (String x "").
Proof.
  induction s as [|c s IH]; [reflexivity|].
  change (String c s +:+ t) with (String c (s +:+ t)).
  rewrite !includes_char_cons, IH. now rewrite orb_assoc.
Qed.

Lemma uptoLast_absent (close : ascii) (s : string) :
  Js.includes s (String close "") = false -> Js.uptoLast close s = None.
Proof.
  induction s as [|c s IH]; [reflexivity|].
  rewrite includes_char_cons. intros H. apply orb_false_elim in H as [Hc Hs].
  simpl. rewrite (IH Hs). rewrite Ascii.eqb_sym. now rewrite Hc.
Qed.

Lemma uptoLast_closing (close : ascii) (body after : string) :
  Js.includes after (String close "") = false ->
  Js.uptoLast close (body +:+ String close after) = Some (body +:+ String close "").
Proof.
  intros Hafter. induction body as [|c body IH].
  - simpl. rewrite (uptoLast_absent close after Hafter).
    now rewrite Ascii.eqb_refl.
  - change (String c body +:+ String close after)
      with (String c (body +:+ String close after)).
    simpl. now rewrite IH.
Qed.

Lemma matchObject_skips (before rest : string) :
  Js.includes before "{" = false ->
  matchObject (before +:+ rest) = matchObject rest.
Proof.
  induction before as [|c before IH]; [reflexivity|].
  rewrite includes_char_cons. intros H. apply orb_false_elim in H as [Hc Hs].
  change (String c before +:+ rest) with (String c (before +:+ rest)).
  simpl. rewrite Ascii.eqb_sym, Hc. now apply IH.
Qed.

Lemma append_cons_l (c : ascii) (s t : string) :
  String c s +:+ t = String c (s +:+ t).
Proof. reflexivity. Qed.

Lemma append_nil_l (t : string) : "" +:+ t = t.
Proof. reflexivity. Qed.

Lemma append_assoc (a b c : string) : (a +:+ b) +:+ c = a +:+ (b +:+ c).
Proof.
  induction a as [|x a IH]; [reflexivity|].
  change ((String x a +:+ b) +:+ c) with (String x ((a +:+ b) +:+ c)).
  now rewrite IH.
Qed.

(** X19. A function call is found in the prose around it: when no [{]
    comes before the object and no [}] after it, [parseFunctionCall] reads
    the object alone, and returns the call and the reasoning it holds. *)
Theorem function_call_in_prose_is_found
    (before body after : string) (parsed : value) :
  Js.includes before "{" = false ->
  Js.includes after "}" = false ->
  JSON.parse (String "{" (body +:+ "}")) = Normal parsed ->
  truthy (getProperty parsed "functionCall") = true ->
  parseFunctionCall (before +:+ String "{" (body +:+ "}") +:+ after) =
    Normal {| functionCall := getProperty parsed "functionCall";
              reasoning := getProperty parsed "reasoning";
              regularResponse := None |}.
Proof.
  intros Hbefore Hafter Hparse Hcall. unfold parseFunctionCall.
  rewrite matchObject_skips by exact Hbefore.
  change (String "{" (body +:+ "}") +:+ after)
    with (String "{" ((body +:+ "}") +:+ after)).
  rewrite append_assoc. simpl matchObject.
  change ("}" +:+ after) with (String "}" after).
  rewrite uptoLast_closing by exact Hafter.
  rewrite Hparse. simpl. now rewrite Hcall.
Qed.

Lemma function_call_in_prose_is_found_witness :
  parseFunctionCall callInProse =
    Normal {| functionCall :=
                Obj [("name", Str "f"); ("arguments", Obj [("a", int 1)])];
              reasoning := Undefined;
              regularResponse := None |}.
Proof.
  apply (function_call_in_prose_is_found "I will look it up. "
           (Js.q "'functionCall':{'name':'f','arguments':{'a':1}}") " Done."
           (Obj [("functionCall",
                  Obj [("name", Str "f"); ("arguments", Obj [("a", int 1)])])])).
  - reflexivity.
  - reflexivity.
  - vm_compute. reflexivity.
  - reflexivity.
Defined.

Lemma trimStart_before (c : ascii) (rest : string) :
  Js.isWhiteSpace c = false ->
  forall b, Js.trimStart (b +:+ String c rest) = Js.trimStart b +:+ String c rest.
Proof.
  intros Hc. induction b as [|d b IH].
  - simpl. now rewrite Hc.
  - change (String d b +:+ String c rest) with (String d (b +:+ String c rest)).
    simpl. destruct (Js.isWhiteSpace d); [exact IH | reflexivity].
Qed.

Lemma trimStart_suffix (s : string) : exists t, s = t +:+ Js.trimStart s.
Proof.
  induction s as [|c s [t IH]]; [exists ""; reflexivity|].
  simpl. destruct (Js.isWhiteSpace c).
  - exists (String c t).
    change (String c s = String c (t +:+ Js.trimStart s)). now f_equal.
  - exists "". reflexivity.
Qed.

Lemma trimEnd_after (c : ascii) (a : string) :
  Js.isWhiteSpace c = false ->
  forall x, Js.trimEnd (x +:+ String c a) = x +:+ String c (Js.trimEnd a).
Proof.
  intros Hc. induction x as [|d x IH].
  - simpl. destruct (Js.trimEnd a); [now rewrite Hc | reflexivity].
  - change (String d x +:+ String c a) with (String d (x +:+ String c a)).
    simpl. rewrite IH. destruct x; reflexivity.
Qed.

Lemma trimEnd_prefix (s : string) : exists t, s = Js.trimEnd s +:+ t.
Proof.
  induction s as [|c s [t IH]]; [exists ""; reflexivity|].
  simpl. destruct (Js.trimEnd s) as [|d r].
  - destruct (Js.isWhiteSpace c).
    + exists (String c s). reflexivity.
    + exists s. reflexivity.
  - exists t. change (String c s = String c (String d r +:+ t)). now f_equal.
Qed.

Lemma stripClosingFence_unfold (s : string) :
  stripClosingFence s =
  if Js.startsWith "```" s && Js.allWhiteSpace (Js.drop 3 s) then ""
  else match s with
       | EmptyString => EmptyString
       | String c s' => String c (stripClosingFence s')
       end.
Proof. destruct s; reflexivity. Qed.

Lemma stripClosingFence_prefix (s : string) :
  exists t, s = stripClosingFence s +:+ t.
Proof.
  induction s as [|c s [t IH]].
  - exists "". reflexivity.
  - rewrite stripClosingFence_unfold.
    destruct (Js.startsWith "```" (String c s) &&
              Js.allWhiteSpace (Js.drop 3 (String c s))).
    + exists (String c s). reflexivity.
    + exists t. change (String c s = String c (stripClosingFence s +:+ t)).
      now f_equal.
Qed.

Lemma no_fence_before (c : ascii) (a : string) :
  Js.isWhiteSpace c = false ->
  Ascii.eqb "`" c = false ->
  forall y,
    Js.startsWith "```" (y +:+ String c a) &&
    Js.allWhiteSpace (Js.drop 3 (y +:+ String c a)) = false.
Proof.
  intros Hw Hq y.
  assert (forall z, Js.allWhiteSpace (z +:+ String c a) = false) as Hall.
  { induction z as [|d z IH]; rewrite ?append_cons_l, ?append_nil_l;
      cbn [Js.allWhiteSpace]; [now rewrite Hw|].
    rewrite IH. apply andb_false_r. }
  destruct y as [|y1 [|y2 [|y3 y]]]; rewrite ?append_cons_l, ?append_nil_l;
    cbn [Js.startsWith Js.drop].
  - now rewrite Hq.
  - rewrite Hq. now rewrite andb_false_r.
  - rewrite Hq. now rewrite !andb_false_r.
  - rewrite Hall. apply andb_false_r.
Qed.

Lemma stripClosingFence_after (c : ascii) (a : string) :
  Js.isWhiteSpace c = false ->
  Ascii.eqb "`" c = false ->
  forall x,
    stripClosingFence (x +:+ String c a) = x +:+ String c (stripClosingFence a).
Proof.
  intros Hw Hq. induction x as [|d x IH].
  - rewrite stripClosingFence_unfold.
    rewrite (no_fence_before c a Hw Hq ""). reflexivity.
  - rewrite stripClosingFence_unfold.
    rewrite (no_fence_before c a Hw Hq (String d x)).
    rewrite append_cons_l. cbv beta iota. now rewrite IH.
Qed.

Lemma matchObjectOrArray_skips (before rest : string) :
  Js.includes before "{" = false ->
  Js.includes before "[" = false ->
  matchObjectOrArray (before +:+ rest) = matchObjectOrArray rest.
Proof.
  induction before as [|c before IH]; [reflexivity|].
  rewrite !includes_char_cons. intros H1 H2.
  apply orb_false_elim in H1 as [Hc1 Hs1].
  apply orb_false_elim in H2 as [Hc2 Hs2].
  change (String c before +:+ rest) with (String c (before +:+ rest)).
  simpl. rewrite (Ascii.eqb_sym c "{"), Hc1, (Ascii.eqb_sym c "["), Hc2.
  now apply IH.
Qed.

Lemma drop_before (n : nat) :
  forall b rest, n <= String.length b -> Js.drop n (b +:+ rest) = Js.drop n b +:+ rest.
Proof.
  induction n as [|n IH]; intros b rest Hn.
  - destruct b; reflexivity.
  - destruct b as [|c b]; [simpl in Hn; lia|].
    simpl. apply IH. simpl in Hn. lia.
Qed.

Lemma drop_suffix (n : nat) : forall s, exists t, s = t +:+ Js.drop n s.
Proof.
  induction n as [|n IH]; intros s.
  - exists "". destruct s; reflexivity.
  - destruct s as [|c s]; [exists ""; reflexivity|].
    destruct (IH s) as [t Ht]. exists (String c t).
    change (String c s = String c (t +:+ Js.drop n s)). now f_equal.
Qed.

(** The opening fence, if there is one, is part of what comes before the
    bracket. *)
Lemma stripOpeningFence_before (open : ascii) (rest : string) :
  open = "{"%char \/ open = "["%char ->
  forall b,
    exists t b',
      b = t +:+ b' /\
      stripOpeningFence (b +:+ String open rest) = b' +:+ String open rest.
Proof.
  intros Hopen b.
  assert (Js.isWhiteSpace open = false) as Hw by (destruct Hopen; subst; reflexivity).
  unfold stripOpeningFence.
  destruct (String.eqb (Js.toLowerCase (Js.prefix 6 (b +:+ String open rest))) "```jso")
    eqn:Htest; [|exists "", b; split; reflexivity].
  assert (6 <= String.length b) as Hlen.
  { destruct b as [|c1 [|c2 [|c3 [|c4 [|c5 [|c6 b]]]]]]; try (simpl; lia); exfalso;
      rewrite ?append_cons_l, ?append_nil_l in Htest;
      cbn [Js.prefix Js.toLowerCase] in Htest;
      destruct Hopen; subst open;
      change (Js.lowerChar "{") with "{"%char in Htest;
      change (Js.lowerChar "[") with "["%char in Htest;
      cbn [String.eqb] in Htest;
      repeat match type of Htest with
             | context [Ascii.eqb (Js.lowerChar ?c) ?x] =>
                 destruct (Ascii.eqb (Js.lowerChar c) x)
             end;
      try discriminate Htest; simpl in Htest; discriminate Htest. }
  rewrite drop_before by exact Hlen.
  destruct (drop_suffix 6 b) as [t Ht].
  destruct (Js.drop 6 b) as [|c r] eqn:Hdrop.
  - exists t, "". split; [exact Ht|].
    rewrite !append_nil_l. cbv beta iota.
    replace (Ascii.eqb (Js.lowerChar open) "n") with false
      by (destruct Hopen; subst; reflexivity).
    cbn [Js.trimStart]. now rewrite Hw.
  - rewrite append_cons_l. cbv beta iota.
    destruct (Ascii.eqb (Js.lowerChar c) "n").
    + rewrite trimStart_before by exact Hw.
      destruct (trimStart_suffix r) as [u Hu].
      exists (t +:+ String c u), (Js.trimStart r). split; [|reflexivity].
      rewrite Ht, append_assoc, append_cons_l. now rewrite <- Hu.
    + change (String c (r +:+ String open rest)) with (String c r +:+ String open rest).
      rewrite trimStart_before by exact Hw.
      destruct (trimStart_suffix (String c r)) as [u Hu].
      exists (t +:+ u), (Js.trimStart (String c r)). split; [|reflexivity].
      rewrite Ht, append_assoc. now rewrite <- Hu.
Qed.

(** X20. A JSON object or array is found in the prose and between the code
    fences around it: when no [{] or [[] comes before it and its closing
    bracket does not come again after it, [parseJSONResponse] returns what
    [JSON.parse] reads in the object or array alone. *)
Theorem json_in_prose_and_fences_is_found
    (open close : ascii) (before body after : string) (v : value) :
  (open = "{"%char /\ close = "}"%char) \/ (open = "["%char /\ close = "]"%char) ->
  Js.includes before "{" = false ->
  Js.includes before "[" = false ->
  Js.includes after (String close "") = false ->
  JSON.parse (String open (body +:+ String close "")) = Normal v ->
  parseJSONResponse (before +:+ String open (body +:+ String close "") +:+ after) =
    Normal v.
Proof.
  intros Hbr Hb1 Hb2 Ha Hparse.
  assert (open = "{"%char \/ open = "["%char) as Hopen by tauto.
  assert (Js.isWhiteSpace open = false) as Hwo by (destruct Hopen; subst; reflexivity).
  assert (Js.isWhiteSpace close = false) as Hwc
    by (destruct Hbr as [[_ ->]|[_ ->]]; reflexivity).
  assert (Ascii.eqb "`" close = false) as Hqc
    by (destruct Hbr as [[_ ->]|[_ ->]]; reflexivity).
  assert (before +:+ String open (body +:+ String close "") +:+ after =
          (before +:+ String open body) +:+ String close after) as Hshape.
  { rewrite append_assoc. f_equal.
    change (String open (body +:+ String close "") +:+ after)
      with (String open ((body +:+ String close "") +:+ after)).
    rewrite append_assoc. reflexivity. }
  unfold parseJSONResponse, Js.trim.
  change (String open (body +:+ String close "") +:+ after)
    with (String open ((body +:+ String close "") +:+ after)).
  rewrite trimStart_before by exact Hwo.
  destruct (trimStart_suffix before) as [t1 Ht1].
  set (b1 := Js.trimStart before) in *.
  assert (b1 +:+ String open ((body +:+ String close "") +:+ after) =
          (b1 +:+ String open body) +:+ String close after) as ->.
  { rewrite !append_assoc. reflexivity. }
  rewrite trimEnd_after by exact Hwc.
  destruct (trimEnd_prefix after) as [t2 Ht2].
  set (a1 := Js.trimEnd after) in *.
  rewrite append_assoc.
  change (String open body +:+ String close a1)
    with (String open (body +:+ String close a1)).
  destruct (stripOpeningFence_before open (body +:+ String close a1) Hopen b1)
    as (t3 & b2 & Hb & ->).
  assert ((b2 +:+ String open (body +:+ String close a1)) =
          (b2 +:+ String open body) +:+ String close a1) as ->.
  { rewrite append_assoc. reflexivity. }
  rewrite stripClosingFence_after by assumption.
  destruct (stripClosingFence_prefix a1) as [t4 Ht4].
  set (a2 := stripClosingFence a1) in *.
  assert (Js.includes b2 "{" = false /\ Js.includes b2 "[" = false) as [Hc1 Hc2].
  { rewrite Ht1, Hb in Hb1, Hb2. rewrite !includes_char_app in Hb1, Hb2.
    repeat (apply orb_false_elim in Hb1 as [? Hb1]).
    repeat (apply orb_false_elim in Hb2 as [? Hb2]). auto. }
  assert (Js.includes a2 (String close "") = false) as Hc3.
  { rewrite Ht2, Ht4 in Ha. rewrite !includes_char_app in Ha.
    repeat (apply orb_false_elim in Ha as [Ha ?]). exact Ha. }
  rewrite append_assoc. rewrite matchObjectOrArray_skips by assumption.
  change (String open body +:+ String close a2)
    with (String open (body +:+ String close a2)).
  assert (matchObjectOrArray (String open (body +:+ String close a2)) =
          Some (String open (body +:+ String close ""))) as ->.
  { destruct Hbr as [[-> ->]|[-> ->]]; simpl matchObjectOrArray;
      rewrite uptoLast_closing by exact Hc3; reflexivity. }
  cbn [default from_option id]. now rewrite Hparse.
Qed.

Lemma json_in_prose_and_fences_is_found_witness :
  parseJSONResponse fencedObject = Normal (Obj [("name", Str "Ann")]).
Proof.
  apply (json_in_prose_and_fences_is_found "{" "}"
           ("Here you are:" +:+ Text.newline +:+ "```json" +:+ Text.newline)
           (Js.q "'name':'Ann'")
           (Text.newline +:+ "```" +:+ Text.newline)
           (Obj [("name", Str "Ann")])).
  - left. split; reflexivity.
  - reflexivity.
  - reflexivity.
  - reflexivity.
  - vm_compute. reflexivity.
Defined.

(** ** Structured output from a stream *)

Lemma notify_returns (onPartial : option (value -> Outcome unit))
    (accumulated : string) (s : SessionManager * World) (given : list value) :
  exists delivered,
    Streaming.notify onPartial accumulated (s, given) =
      (Normal tt, (s, given ++ delivered)) /\
    length delivered <= 1 /\
    Forall (fun partial => truthy partial = true) delivered.
Proof.
  unfold Streaming.notify. destruct onPartial as [callback|].
  - unfold tryCatch. destruct (truthy (Streaming.parsePartialJSON accumulated)) eqn:E.
    + exists [Streaming.parsePartialJSON accumulated].
      unfold bind, modify, lift, ret.
      split; [destruct (callback _) as [[]|e]; reflexivity|].
      split; [simpl; lia | repeat constructor; exact E].
    + exists []. rewrite app_nil_r. unfold ret. repeat split; auto.
  - exists []. rewrite app_nil_r. unfold ret. repeat split; auto.
Qed.

Lemma last_cons_default {A} (l : list A) :
  forall a d, List.last (a :: l) d = List.last l a.
Proof.
  induction l as [|b l IH]; intros a d; [reflexivity|].
  change (List.last (a :: b :: l) d) with (List.last (b :: l) d).
  now rewrite !IH.
Qed.

Lemma readAll_returns (onPartial : option (value -> Outcome unit)) :
  forall left accumulated s given,
  exists delivered,
    Streaming.readAll onPartial left accumulated (s, given) =
      (Normal (List.last left accumulated), (s, given ++ delivered)) /\
    length delivered <= length left /\
    Forall (fun partial => truthy partial = true) delivered.
Proof.
  induction left as [|chunk left IH]; intros accumulated s given.
  - exists []. rewrite app_nil_r. unfold ret. repeat split; auto.
  - destruct (notify_returns onPartial chunk s given) as (d1 & H1 & L1 & T1).
    destruct (IH chunk s (given ++ d1)) as (d2 & H2 & L2 & T2).
    exists (d1 ++ d2). cbn [Streaming.readAll]. unfold bind. rewrite H1, H2.
    rewrite <- app_assoc. split; [|split].
    + now rewrite last_cons_default.
    + rewrite length_app. simpl. lia.
    + apply Forall_app. split; assumption.
Qed.

(** X21. The streaming variant reads the whole stream and makes one
    attempt: when the stream ends well, it returns what the last chunk,
    parsed and validated, gives, or throws what it throws, after one prompt
    and without a retry.  What [onPartial] does, even if it throws, changes
    neither; it is given truthy partial results only, one per chunk at
    most. *)
Theorem streaming_reads_the_last_chunk
    (env : Environment) (streamOf : nat -> nat -> Stream)
    (prompt : string) (schema : Schema)
    (onPartial : option (value -> Outcome unit))
    (m : SessionManager) (h t : nat) (w w0 : World) (js : SchemaDefinition)
    (given : list value) :
  jsonSchemaOf schema w = (Normal js, w0) ->
  (forall tracked,
      quotaTracker m = Some tracked -> quotaExhausted env tracked t = false) ->
  broken (streamOf h t) = None ->
  exists delivered,
    Streaming.promptWithStructureStreaming env streamOf prompt schema onPartial
      ((atTurn m h t, w), given) =
      (validated schema (List.last (chunks (streamOf h t)) ""),
       ((atTurn m h (S t), record (Prompted h (fullPromptOf js prompt)) w0),
        given ++ delivered)) /\
    length delivered <= length (chunks (streamOf h t)) /\
    Forall (fun partial => truthy partial = true) delivered.
Proof.
  intros Hjs Hq Hend.
  unfold Streaming.promptWithStructureStreaming.
  unfold bind at 1, Streaming.onSession at 1, inWorld at 1. cbn [fst snd].
  rewrite Hjs.
  unfold bind at 1, Streaming.onSession at 1, Streaming.promptStreaming.
  cbn [atTurn session quotaTracker turns handle enablePersistence].
  assert (match quotaTracker m with
          | Some tracked => quotaExhausted env tracked t
          | None => false
          end = false) as ->.
  { destruct (quotaTracker m) as [tracked|] eqn:E; [now apply Hq | reflexivity]. }
  destruct (readAll_returns onPartial (chunks (streamOf h t)) ""
              ({| session := Some {| handle := h; turns := S t |};
                  quotaTracker := quotaTracker m;
                  enablePersistence := enablePersistence m |},
               record (Prompted h (fullPromptOf js prompt)) w0) given)
    as (delivered & Hread & Hlen & Htruthy).
  exists delivered. split; [|split; [exact Hlen | exact Htruthy]].
  unfold bind. rewrite Hread, Hend. reflexivity.
Qed.

Lemma streaming_reads_the_last_chunk_witness :
  exists delivered,
    Streaming.promptWithStructureStreaming stubborn growing "Who is it?"
      (Plain nameSchema) (Some grumpy) (freshSession, []) =
      (Normal (Obj [("name", Str "Ann")]),
       ((atTurn (fst freshSession) 0 1,
         record (Prompted 0 (fullPromptOf nameSchema "Who is it?"))
           (snd freshSession)),
        [] ++ delivered)) /\
    length delivered <= 3 /\
    Forall (fun partial => truthy partial = true) delivered.
Proof.
  apply (streaming_reads_the_last_chunk stubborn growing "Who is it?"
           (Plain nameSchema) (Some grumpy) (fst freshSession) 0 0
           (snd freshSession) (snd freshSession) nameSchema []).
  - reflexivity.
  - intros tracked _. reflexivity.
  - reflexivity.
Defined.

(** ** Sessions in general *)

(** X22. A manager without a session refuses every prompt: before
    [create], and after [destroy] whatever the manager held, [prompt]
    throws the SessionError [No active session] and nothing reaches the
    browser. *)
Theorem prompt_without_session_is_refused
    (env : Environment) (input : string) (m : SessionManager) (w : World)
    (persist : option bool) :
  Session.prompt env input (Session.new persist, w) =
    (Throw noActiveSession, (Session.new persist, w)) /\
  Session.prompt env input (snd (Session.destroy (m, w))) =
    (Throw noActiveSession, snd (Session.destroy (m, w))).
Proof.
  split; [reflexivity|].
  unfold Session.destroy. destruct (session m) eqn:E; cbn [snd].
  - reflexivity.
  - unfold Session.prompt. now rewrite E.
Qed.

Lemma prompt_on_spent_quota (env : Environment) (input : string)
    (m : SessionManager) (lm : LanguageModel) (tracked : nat) (w : World) :
  session m = Some lm ->
  quotaTracker m = Some tracked ->
  quotaExhausted env tracked (turns lm) = true ->
  Session.prompt env input (m, w) =
    (Throw (failedToPrompt Session.quotaError), (m, w)).
Proof.
  intros Hs Ht Hq. unfold Session.prompt, tryCatch. rewrite Hs, Ht, Hq.
  reflexivity.
Qed.

(** X23. On a session whose quota is exhausted, structured prompting does
    not go through its attempts: nothing is sent to the browser; with two
    attempts or more allowed, the first failure is followed by the prompt
    that reports it, which fails too and ends the call with its
    SessionError, caused by a QuotaExceededError; with one attempt allowed,
    the call ends with the StructuredOutputError of the exhausted
    attempts. *)
Theorem exhausted_quota_ends_structured_prompting
    (env : Environment) (prompt : string) (options : StructuredPromptOptions)
    (m : SessionManager) (lm : LanguageModel) (tracked : nat)
    (w w0 : World) (js : SchemaDefinition) :
  session m = Some lm ->
  quotaTracker m = Some tracked ->
  quotaExhausted env tracked (turns lm) = true ->
  jsonSchemaOf (schema options) w = (Normal js, w0) ->
  (2 <= default 3 (maxRetries options) ->
   promptWithStructure env prompt options (m, w) =
     (Throw (failedToPrompt Session.quotaError), (m, w0))) /\
  (maxRetries options = Some 1 ->
   promptWithStructure env prompt options (m, w) =
     (Throw (exhaustedRetries 1 (Some (failedToPrompt Session.quotaError))),
      (m, w0))).
Proof.
  intros Hs Ht Hq Hjs. unfold promptWithStructure.
  split.
  - intros Hn. unfold bind at 1, inWorld at 1. cbn [fst snd]. rewrite Hjs.
    destruct (default 3 (maxRetries options)) as [|[|n]] eqn:E; [lia | lia |].
    cbn [attemptLoop]. unfold tryCatch at 1, bind at 1.
    rewrite (prompt_on_spent_quota env _ m lm tracked w0 Hs Ht Hq).
    replace (S (S (S n) - S (S n)) <? S (S n)) with true
      by (symmetry; apply Nat.ltb_lt; lia).
    cbv iota. unfold bind.
    pose proof (prompt_on_spent_quota env
                  (errorFeedback (failedToPrompt Session.quotaError))
                  m lm tracked w0 Hs Ht Hq) as Hfeedback.
    rewrite Hfeedback.
    reflexivity.
  - intros ->. unfold bind at 1, inWorld at 1. cbn [fst snd]. rewrite Hjs.
    change (default 3 (Some 1)) with 1. cbn [attemptLoop].
    unfold tryCatch, bind.
    rewrite (prompt_on_spent_quota env (fullPromptOf js prompt) m lm tracked w0
               Hs Ht Hq).
    reflexivity.
Qed.

Lemma exhausted_quota_ends_structured_prompting_witness :
  promptWithStructure spent "Who is it?" twoAttempts freshSession =
    (Throw (failedToPrompt Session.quotaError), freshSession) /\
  promptWithStructure spent "Who is it?" oneAttempt freshSession =
    (Throw (exhaustedRetries 1 (Some (failedToPrompt Session.quotaError))),
     freshSession).
Proof.
  destruct (exhausted_quota_ends_structured_prompting spent "Who is it?" twoAttempts
              (fst freshSession) {| handle := 0; turns := 0 |} 0
              (snd freshSession) (snd freshSession) nameSchema
              eq_refl eq_refl eq_refl eq_refl) as [Htwo _].
  destruct (exhausted_quota_ends_structured_prompting spent "Who is it?" oneAttempt
              (fst freshSession) {| handle := 0; turns := 0 |} 0
              (snd freshSession) (snd freshSession) nameSchema
              eq_refl eq_refl eq_refl eq_refl) as [_ Hone].
  split.
  - apply Htwo. simpl. lia.
  - apply Hone. reflexivity.
Defined.

(** X24. [create] never destroys the session the manager holds.  When the
    browser grants a new session the manager forgets the old one, and a
    later [destroy] releases the new one only: the request and that release
    are the only operations on native sessions.  When the browser has no
    model the manager forgets its session and has none; when the browser
    rejects the request the manager keeps its session; in both cases the
    request is all that happens. *)
Theorem create_never_destroys_the_held_session
    (env : Environment) (m : SessionManager) (w : World) :
  let k := sessions w in
  let asked := {| events := events w ++ [Created k]; sessions := S k |} in
  (creation env k = Available ->
   exists m' w',
     bind (Session.create env) (fun _ => Session.destroy) (m, w) =
       (Normal tt, (m', w')) /\
     session m' = None /\
     sessions w' = S k /\
     sessionTrace (events w') =
       sessionTrace (events w) ++ [Created k; Destroyed k]) /\
  (creation env k = Unavailable ->
   exists e m',
     Session.create env (m, w) = (Throw e, (m', asked)) /\ session m' = None) /\
  (forall reason,
      creation env k = Rejected reason ->
      Session.create env (m, w) =
        (Throw (Session.failedToCreate (Some reason)), (m, asked))).
Proof.
  cbv zeta. unfold bind, Session.create, Session.destroy.
  split; [|split].
  - intros ->. cbn. eexists _, _. split; [reflexivity|]. cbn.
    split; [reflexivity|]. split; [reflexivity|].
    rewrite <- app_assoc, sessionTrace_app. reflexivity.
  - intros ->. eexists _, _. split; reflexivity.
  - intros reason ->. reflexivity.
Qed.

Lemma create_never_destroys_the_held_session_witness :
  (exists m' w',
      bind (Session.create stubborn) (fun _ => Session.destroy) freshSession =
        (Normal tt, (m', w')) /\
      session m' = None /\
      sessions w' = 2 /\
      sessionTrace (events w') = [Created 0; Created 1; Destroyed 1]) /\
  (exists e m',
      Session.create noModel freshSession =
        (Throw e, (m', {| events := [Created 0; Created 1]; sessions := 2 |})) /\
      session m' = None) /\
  Session.create outage freshSession =
    (Throw (Session.failedToCreate (Some modelGone)),
     (fst freshSession, {| events := [Created 0; Created 1]; sessions := 2 |})).
Proof.
  split; [|split].
  - apply (proj1 (create_never_destroys_the_held_session stubborn
                    (fst freshSession) (snd freshSession))).
    reflexivity.
  - apply (proj1 (proj2 (create_never_destroys_the_held_session noModel
                           (fst freshSession) (snd freshSession)))).
    reflexivity.
  - apply (proj2 (proj2 (create_never_destroys_the_held_session outage
                           (fst freshSession) (snd freshSession))) modelGone).
    reflexivity.
Defined.

(** ** The schema coercer in general *)

Lemma set_fresh {A} (o : list (string * A)) (key : string) (v : A) :
  Object.own o key = None -> Object.set o key v = o ++ [(key, v)].
Proof.
  induction o as [|[k x] o IH]; [reflexivity|].
  simpl. destruct (String.eqb k key); [discriminate|].
  intros H. now rewrite (IH H).
Qed.

Lemma own_absent {A} (o : list (string * A)) (key : string) :
  ~ In key (map fst o) -> Object.own o key = None.
Proof.
  induction o as [|[k x] o IH]; [reflexivity|].
  simpl. intros H. destruct (String.eqb k key) eqn:E.
  - apply String.eqb_eq in E. tauto.
  - apply IH. tauto.
Qed.

Lemma convertEntries_silent (convert : ZodType -> M SchemaDefinition) :
  forall entries props req,
    Forall (fun entry => exists s, forall w, convert (snd entry) w = (Normal s, w))
      entries ->
    NoDup (map fst props ++ map fst entries) ->
    exists converted,
      (forall w,
          convertEntries convert entries props req w =
            (Normal (props ++ converted,
                     req ++ map fst (List.filter
                                       (fun entry => negb (isZodOptional (snd entry)))
                                       entries)), w)) /\
      map fst converted = map fst entries /\
      Forall2 (fun entry prop =>
                 forall w, convert (snd entry) w = (Normal (snd prop), w))
        entries converted.
Proof.
  induction entries as [|[key z] entries IH]; intros props req Hall Hnodup.
  - exists []. simpl. rewrite !app_nil_r. repeat split; auto.
  - inversion Hall as [|? ? [s Hs] Hrest]; subst. simpl in Hs.
    assert (Object.own props key = None) as Hfresh.
    { apply own_absent. intros Hin.
      apply NoDup_app in Hnodup as (_ & Hdisj & _).
      apply (Hdisj key); [now apply list_elem_of_In | left]. }
    destruct (IH (props ++ [(key, s)])
                (if isZodOptional z then req else req ++ [key]) Hrest)
      as (converted & Hrun & Hkeys & Heach).
    { rewrite map_app. simpl. rewrite <- app_assoc. exact Hnodup. }
    exists ((key, s) :: converted). split; [|split].
    + intros w. simpl. unfold bind. rewrite Hs. rewrite set_fresh by exact Hfresh.
      rewrite Hrun, <- app_assoc. simpl.
      destruct (isZodOptional z); simpl; [reflexivity|].
      now rewrite <- app_assoc.
    + simpl. now rewrite Hkeys.
    + constructor; [exact Hs | exact Heach].
Qed.

Lemma convertEntries_returns (convert : ZodType -> M SchemaDefinition) :
  forall entries props req,
    Forall (fun entry => exists s, forall w, convert (snd entry) w = (Normal s, w))
      entries ->
    exists pr, forall w, convertEntries convert entries props req w = (Normal pr, w).
Proof.
  induction entries as [|[k v] entries IH]; intros props req Hall.
  - eexists. intros w. reflexivity.
  - inversion Hall as [|? ? [s Hs] Hrest]; subst. simpl in Hs.
    destruct (IH (Object.set props k s)
                (if isZodOptional v then req else req ++ [k]) Hrest) as [pr Hpr].
    exists pr. intros w. simpl. unfold bind. rewrite Hs. apply Hpr.
Qed.

Lemma supported_silent :
  forall z,
    supported z = true ->
    exists s, forall w, zodSchemaToJsonSchema z w = (Normal s, w).
Proof.
  fix IH 1. intros z. destruct z as [| | |t|shape|values|t|t|options|other];
    intros Hz; try (eexists; intros w; reflexivity).
  - destruct (IH t Hz) as [s Hs]. eexists. intros w. simpl. unfold bind.
    rewrite Hs. reflexivity.
  - assert (Forall (fun entry =>
                      exists s, forall w,
                        zodSchemaToJsonSchema (snd entry) w = (Normal s, w)) shape)
      as Hall.
    { simpl in Hz. revert Hz. induction shape as [|[k v] shape IHs]; intros Hz.
      - constructor.
      - apply andb_prop in Hz as [Hv Hrest]. constructor.
        + exact (IH v Hv).
        + exact (IHs Hrest). }
    destruct (convertEntries_returns zodSchemaToJsonSchema shape [] [] Hall)
      as [pr Hpr].
    eexists. intros w. simpl. unfold bind. rewrite Hpr. reflexivity.
  - simpl in Hz. exact (IH t Hz).
  - simpl in Hz. exact (IH t Hz).
  - destruct options as [|first rest]; [discriminate|].
    simpl in Hz. exact (IH first Hz).
  - discriminate.
Qed.

(** X25. On the Zod types it has a case for, the generator is a function
    in the mathematical sense: it returns a schema, the same in every
    world, prints no warning and does not throw.  Of a union only the first
    option has to be such a type. *)
Theorem generateSchema_is_silent_on_supported_types (z : ZodType) :
  supported z = true ->
  exists s, forall w, generateSchema z w = (Normal s, w).
Proof. apply supported_silent. Qed.

Lemma generateSchema_is_silent_on_supported_types_witness :
  exists s, forall w, generateSchema looseUnion w = (Normal s, w).
Proof.
  apply (generateSchema_is_silent_on_supported_types looseUnion). reflexivity.
Defined.

(** X26. The schema generated for an object names the properties of the
    shape, all of them and in the order of the shape, each with the schema
    generated for its type. *)
Theorem object_schema_lists_every_property (shape : list (string * ZodType)) :
  NoDup (map fst shape) ->
  Forall (fun entry => supported (snd entry) = true) shape ->
  exists props,
    (forall w,
        generateSchema (ZodObject shape) w =
          (Normal {| type := "object"; properties := Some props; items := None;
                     required := requiredNames shape; enum := None;
                     description := None |}, w)) /\
    map fst props = map fst shape /\
    Forall2 (fun entry prop =>
               forall w, generateSchema (snd entry) w = (Normal (snd prop), w))
      shape props.
Proof.
  intros Hnodup Hall.
  destruct (convertEntries_silent zodSchemaToJsonSchema shape [] []) as
    (props & Hrun & Hkeys & Heach).
  - apply List.Forall_forall. intros entry Hin.
    rewrite List.Forall_forall in Hall. apply supported_silent. now apply Hall.
  - exact Hnodup.
  - exists props. split; [|split; [exact Hkeys | exact Heach]].
    intros w. unfold generateSchema. simpl. unfold bind. rewrite Hrun.
    unfold ret. simpl. unfold requiredNames.
    destruct (map fst _); reflexivity.
Qed.

Lemma object_schema_lists_every_property_witness :
  exists props,
    (forall w,
        generateSchema (ZodObject profileShape) w =
          (Normal {| type := "object"; properties := Some props; items := None;
                     required := requiredNames profileShape; enum := None;
                     description := None |}, w)) /\
    map fst props = ["id"; "nick"; "tag"] /\
    Forall2 (fun entry prop =>
               forall w, generateSchema (snd entry) w = (Normal (snd prop), w))
      profileShape props.
Proof.
  apply (object_schema_lists_every_property profileShape).
  - apply (bool_decide_unpack (NoDup (map fst profileShape))). vm_compute. exact I.
  - repeat constructor.
Defined.

(** ** Plans *)

Lemma afterDigits_le (s : string) :
  String.length (afterDigits s) <= String.length s.
Proof.
  induction s as [|c s IH]; simpl; [lia|]. destruct (isDigit c); simpl; lia.
Qed.

Lemma whiteSpaceRun_length (s : string) :
  String.length (fst (whiteSpaceRun s)) + String.length (snd (whiteSpaceRun s)) =
  String.length s.
Proof.
  induction s as [|c s IH]; simpl; [reflexivity|].
  destruct (Js.isWhiteSpace c); [|reflexivity].
  destruct (whiteSpaceRun s) as [run rest]. simpl in *. lia.
Qed.

Lemma restOfLine_le (s : string) :
  String.length (snd (restOfLine s)) <= String.length s.
Proof.
  induction s as [|c s IH]; simpl; [lia|].
  destruct (isLineFeed c); [simpl; lia|].
  destruct (restOfLine s) as [group rest]. simpl in *. lia.
Qed.

Lemma lastOnLine_lt (run group rest : string) :
  lastOnLine run = Some (group, rest) -> String.length rest < String.length run.
Proof.
  revert group rest. induction run as [|c run IH]; intros group rest; simpl;
    [discriminate|].
  destruct (lastOnLine run) as [[g r]|].
  - intros H. inversion H; subst. specialize (IH group rest eq_refl). lia.
  - destruct (isLineFeed c); [discriminate|]. intros H. inversion H; subst. lia.
Qed.

Lemma matchStep_lt (s group rest : string) :
  matchStep s = Some (group, rest) -> String.length rest < String.length s.
Proof.
  unfold matchStep. pose proof (afterDigits_le s) as Hd.
  destruct (afterDigits s) as [|c r]; [discriminate|].
  destruct (Ascii.eqb c ".") eqn:E.
  - apply Ascii.eqb_eq in E. subst c.
    pose proof (whiteSpaceRun_length r) as Hw.
    destruct (whiteSpaceRun r) as [run r']. simpl in Hw, Hd.
    destruct r' as [|c' r''].
    + intros H. apply lastOnLine_lt in H. lia.
    + intros H.
      assert (restOfLine (String c' r'') = (group, rest)) as Hl by congruence.
      pose proof (restOfLine_le (String c' r'')) as Hr. rewrite Hl in Hr.
      simpl in Hr. simpl in Hw. lia.
  - intros H. exfalso. revert H.
    destruct c as [[] [] [] [] [] [] [] []]; discriminate.
Qed.

(** As many rounds as the text has characters are enough for the loop of
    [parsePlan]. *)
Lemma stepsFrom_fuel :
  forall n s fuel fuel',
    String.length s <= n -> n <= fuel -> n <= fuel' ->
    stepsFrom fuel s = stepsFrom fuel' s.
Proof.
  induction n as [|n IH]; intros s fuel fuel' Hs Hf Hf'.
  - destruct s; [|simpl in Hs; lia]. destruct fuel, fuel'; reflexivity.
  - destruct fuel as [|fuel]; [lia|]. destruct fuel' as [|fuel']; [lia|].
    destruct s as [|c s]; [reflexivity|]. simpl in Hs.
    cbn [stepsFrom]. destruct (isDigit c).
    + destruct (matchStep (String c s)) as [[group rest]|] eqn:E.
      * apply matchStep_lt in E. simpl in E. f_equal. apply IH; lia.
      * apply IH; lia.
    + apply IH; lia.
Qed.

Lemma afterDigits_number (label rest : string) :
  allDigits label = true ->
  afterDigits (label +:+ String "." rest) = String "." rest.
Proof.
  induction label as [|c label IH]; intros H; [reflexivity|].
  simpl in H. apply andb_prop in H as [Hc Hrest].
  rewrite append_cons_l. simpl. rewrite Hc. now apply IH.
Qed.

Lemma restOfLine_text (text rest : string) :
  Js.includes text Text.newline = false ->
  restOfLine (text +:+ Text.newline +:+ rest) = (text, Text.newline +:+ rest).
Proof.
  induction text as [|c text IH]; intros H; [reflexivity|].
  change Text.newline with (String (ascii_of_nat 10) "") in H.
  rewrite includes_char_cons in H. apply orb_false_elim in H as [Hc Ht].
  rewrite append_cons_l. cbn [restOfLine].
  replace (isLineFeed c) with false.
  - rewrite (IH Ht). reflexivity.
  - symmetry. unfold isLineFeed. apply Nat.eqb_neq. intros Hn.
    apply (f_equal ascii_of_nat) in Hn. unfold Js.code in Hn.
    rewrite ascii_nat_embedding in Hn. subst c.
    now rewrite Ascii.eqb_refl in Hc.
Qed.

Lemma matchStep_item (label text rest : string) :
  isItem (label, text) = true ->
  matchStep (label +:+ ". " +:+ text +:+ Text.newline +:+ rest) =
    Some (text, Text.newline +:+ rest).
Proof.
  unfold isItem. cbn [fst snd]. intros H.
  apply andb_prop in H as [H Hstart]. apply andb_prop in H as [H Hline].
  apply andb_prop in H as [_ Hdigits].
  apply negb_true_iff in Hline.
  destruct text as [|c text]; [discriminate|]. apply negb_true_iff in Hstart.
  unfold matchStep.
  change (". " +:+ String c text +:+ Text.newline +:+ rest)
    with (String "." (String " " (String c text +:+ Text.newline +:+ rest))).
  rewrite afterDigits_number by exact Hdigits.
  rewrite append_cons_l. cbn [whiteSpaceRun].
  change (Js.isWhiteSpace " ") with true. cbv iota. rewrite Hstart.
  rewrite <- append_cons_l. now rewrite restOfLine_text.
Qed.

Lemma stepsFrom_items :
  forall lines fuel,
    Forall (fun item => isItem item = true) lines ->
    2 * length lines <= fuel ->
    stepsFrom fuel (numberedLines lines) = map (fun item => Js.trim (snd item)) lines.
Proof.
  induction lines as [|[label text] lines IH]; intros fuel Hall Hfuel.
  - destruct fuel; reflexivity.
  - inversion Hall as [|? ? Hitem Hrest]; subst.
    simpl in Hfuel. destruct fuel as [|[|fuel]]; [lia | lia |].
    cbn [numberedLines map snd].
    assert (exists c label', label = String c label' /\ isDigit c = true)
      as (c & label' & -> & Hc).
    { unfold isItem in Hitem. cbn [fst snd] in Hitem.
      destruct label as [|c label']; [discriminate|].
      exists c, label'. split; [reflexivity|].
      simpl in Hitem. destruct (isDigit c); [reflexivity | discriminate]. }
    rewrite append_cons_l. cbn [stepsFrom]. rewrite Hc.
    rewrite <- append_cons_l.
    rewrite (matchStep_item (String c label') text (numberedLines lines) Hitem).
    f_equal.
    change (Text.newline +:+ numberedLines lines)
      with (String (ascii_of_nat 10) (numberedLines lines)).
    cbn [stepsFrom]. change (isDigit (ascii_of_nat 10)) with false. cbv iota.
    apply IH; [exact Hrest | lia].
Qed.

Lemma numberedLines_length (lines : list (string * string)) :
  2 * length lines <= String.length (numberedLines lines).
Proof.
  assert (forall a b, String.length (a +:+ b) = String.length a + String.length b)
    as Happ.
  { induction a as [|x a IH]; intros b; [reflexivity|].
    rewrite append_cons_l. simpl. now rewrite IH. }
  induction lines as [|[label text] lines IH]; simpl; [lia|].
  rewrite !Happ. simpl. lia.
Qed.

(** X27. [parsePlan] reads a numbered list line by line: each line made of
    a label, a full stop, a space and a text gives one step, the text
    without the white space at its end, whatever numbers the lines bear
    and whatever the text holds after its first character; each step but
    the first depends on the step before it. *)
Theorem parsePlan_reads_one_step_per_numbered_line
    (lines : list (string * string)) :
  Forall (fun item => isItem item = true) lines ->
  AgentPlan.steps (parsePlan (numberedLines lines)) =
    map (fun item => Js.trim (snd item)) lines /\
  AgentPlan.dependencies (parsePlan (numberedLines lines)) =
    map (fun i => (i, [i - 1])) (seq 1 (length lines - 1)).
Proof.
  intros Hall. unfold parsePlan. cbn [AgentPlan.steps AgentPlan.dependencies].
  rewrite (stepsFrom_items lines _ Hall (numberedLines_length lines)).
  split; [reflexivity|]. now rewrite length_map.
Qed.

Lemma parsePlan_reads_one_step_per_numbered_line_witness :
  AgentPlan.steps (parsePlan (numberedLines tripPlan)) =
    ["Book the flight"; "Reserve 2 rooms. Then pack."; "Go"] /\
  AgentPlan.dependencies (parsePlan (numberedLines tripPlan)) = [(1, [0]); (2, [1])].
Proof.
  apply (parsePlan_reads_one_step_per_numbered_line tripPlan).
  repeat constructor.
Defined.

Lemma runWithPlanning_leaves_no_session
    (env : Environment) (config : AdvancedAgentConfig) (fuel : nat)
    (task : string) (s : AdvancedAgent.t * World) :
  BasicAgent.session
    (AdvancedAgent.super
       (fst (snd (AdvancedAgent.runWithPlanning env config fuel task s)))) = None.
Proof.
  destruct s as [a w]. unfold AdvancedAgent.runWithPlanning.
  destruct (negb (default false (enablePlanning config))).
  - unfold bind, AdvancedAgent.run, AdvancedAgent.inherited.
    pose proof (run_releases_session env (agentConfig config) task
                  (AdvancedAgent.super a, w)) as H.
    destruct (BasicAgent.run env (agentConfig config) task (AdvancedAgent.super a, w))
      as [[res|e] [b w']]; exact H.
  - unfold bind at 1.
    destruct (AdvancedAgent.inherited BasicAgent.reset (a, w))
      as [[[]|e] [a0 w0]] eqn:E.
    + unfold finally.
      match goal with
      | |- context [tryCatch ?body ?handler (a0, w0)] =>
          destruct (tryCatch body handler (a0, w0)) as [r [a1 w1]]
      end.
      unfold BasicAgent.releaseSession.
      destruct (BasicAgent.session (AdvancedAgent.super a1)) eqn:Hs;
        cbn; [reflexivity | exact Hs].
    + unfold AdvancedAgent.inherited, BasicAgent.reset, modify in E. discriminate E.
Qed.

(** X28. After [runWithPlanning] the agent has no session, so that the
    two manual operations have nothing to work with: [reflect] returns
    [No steps to reflect on] without a prompt and without counting, and
    [replan] throws [No active session for replanning]. *)
Theorem after_a_run_reflect_and_replan_have_no_session
    (env : Environment) (config : AdvancedAgentConfig) (fuel : nat)
    (task later : string) (a : AdvancedAgent.t) (w : World) :
  let s := snd (AdvancedAgent.runWithPlanning env config fuel task (a, w)) in
  AdvancedAgent.reflect env config s = (Normal "No steps to reflect on", s) /\
  replan env later s = (Throw noSessionForReplanning, s).
Proof.
  cbv zeta.
  pose proof (runWithPlanning_leaves_no_session env config fuel task (a, w)) as H.
  destruct (snd (AdvancedAgent.runWithPlanning env config fuel task (a, w)))
    as [a' w'].
  cbn [fst] in H. split.
  - now apply reflect_without_session.
  - unfold replan, bind, AdvancedAgent.this. cbn [fst]. now rewrite H.
Qed.

(** ** Retrying *)

Lemma execute_again {A} (fn : nat -> Outcome A) (options : ErrorHandling.RetryOptions)
    (n r : nat) (timers : list Z) :
  ErrorHandling.execute fn options n (S (S r)) timers =
  match fn (n - S (S r)) with
  | Normal result => (Normal result, timers)
  | Throw error =>
      if negb (ErrorHandling.retryable options error) then (Throw error, timers)
      else ErrorHandling.execute fn options n (S r)
             (timers ++ [ErrorHandling.waitTime options (S (n - S (S r)))])
  end.
Proof.
  change (ErrorHandling.execute fn options n (S (S r)))
    with (match fn (n - S (S r)) with
          | Normal result => ret result
          | Throw error =>
              if negb (ErrorHandling.retryable options error) then throw error
              else
                bind (modify (fun timers =>
                                timers ++
                                [ErrorHandling.waitTime options (S (n - S (S r)))]))
                  (fun _ => ErrorHandling.execute fn options n (S r))
          end).
  destruct (fn (n - S (S r))) as [result|error]; [reflexivity|].
  destruct (negb (ErrorHandling.retryable options error)); reflexivity.
Qed.

Lemma execute_stops {A} (fn : nat -> Outcome A)
    (options : ErrorHandling.RetryOptions) (n : nat) :
  forall k remaining timers,
    remaining <= n ->
    (forall j, j < k ->
       exists e,
         fn (n - remaining + j) = Throw e /\
         ErrorHandling.retryable options e = true) ->
    k = 0 \/ k < remaining ->
    match fn (n - remaining + k) with
    | Normal _ => True
    | Throw e => ErrorHandling.retryable options e = false \/ remaining <= S k
    end ->
    ErrorHandling.execute fn options n remaining timers =
      (fn (n - remaining + k),
       timers ++ map (ErrorHandling.waitTime options) (seq (S (n - remaining)) k)).
Proof.
  induction k as [|k IH]; intros remaining timers Hle Hbefore Hk Hfinal.
  - rewrite Nat.add_0_r in *. simpl. rewrite app_nil_r.
    destruct remaining as [|remaining]; cbn [ErrorHandling.execute];
      destruct (fn _) as [r|e]; try reflexivity.
    destruct remaining as [|remaining]; [reflexivity|].
    destruct Hfinal as [Hfinal|Hfinal]; [|lia]. now rewrite Hfinal.
  - destruct Hk as [Hk|Hk]; [discriminate|].
    destruct remaining as [|[|remaining]]; [lia | lia |].
    destruct (Hbefore 0 ltac:(lia)) as (e & He & Hretry).
    rewrite Nat.add_0_r in He.
    rewrite execute_again, He, Hretry. cbn [negb].
    replace (n - S (S remaining) + S k) with (n - S remaining + k) in * by lia.
    rewrite (IH (S remaining)
               (timers ++
                [ErrorHandling.waitTime options (S (n - S (S remaining)))])).
    + rewrite <- app_assoc. cbn [seq map app].
      replace (S (n - S remaining)) with (S (S (n - S (S remaining)))) by lia.
      reflexivity.
    + lia.
    + intros j Hj. destruct (Hbefore (S j) ltac:(lia)) as (e' & He' & Hr').
      exists e'. split; [|exact Hr'].
      replace (n - S remaining + j) with (n - S (S remaining) + S j) by lia.
      exact He'.
    + destruct k; [now left | right; lia].
    + destruct (fn (n - S remaining + k)); [exact I|].
      destruct Hfinal as [Hfinal|Hfinal]; [now left | right; lia].
Qed.

(** X29. [withRetry] calls the operation again after each failure that
    [shouldRetry] accepts, and settles with the first outcome that is a
    success, a failure [shouldRetry] refuses, or the outcome of call number
    [maxAttempts]; it has then waited once before each call but the first,
    the delay being doubled each time unless [backoff] is off.  The
    operation is called once even when [maxAttempts] is zero. *)
Theorem withRetry_settles_with_the_first_final_outcome
    {A} (fn : nat -> Outcome A) (options : ErrorHandling.RetryOptions) (k : nat)
    (timers : list Z) :
  (forall j, j < k ->
     exists e, fn j = Throw e /\ ErrorHandling.retryable options e = true) ->
  k = 0 \/ k < default 3 (ErrorHandling.maxAttempts options) ->
  match fn k with
  | Normal _ => True
  | Throw e =>
      ErrorHandling.retryable options e = false \/
      default 3 (ErrorHandling.maxAttempts options) <= S k
  end ->
  ErrorHandling.withRetry fn options timers =
    (fn k, timers ++ map (ErrorHandling.waitTime options) (seq 1 k)).
Proof.
  intros Hbefore Hk Hfinal. unfold ErrorHandling.withRetry.
  pose proof (execute_stops fn options (default 3 (ErrorHandling.maxAttempts options)) k
                (default 3 (ErrorHandling.maxAttempts options)) timers (le_n _)) as H.
  rewrite Nat.sub_diag in H. cbn [Nat.add] in H. apply H; assumption.
Qed.

Lemma withRetry_settles_with_the_first_final_outcome_witness :
  ErrorHandling.withRetry thirdTimeLucky defaults [] =
    (Normal "ready", [1000%Z; 2000%Z]).
Proof.
  apply (withRetry_settles_with_the_first_final_outcome thirdTimeLucky defaults 2 []).
  - intros j Hj. exists busy. split; [|reflexivity].
    destruct j as [|[|j]]; [reflexivity | reflexivity | lia].
  - right. simpl. lia.
  - exact I.
Defined.
